(* ===== verification/_CoqProject ===== *)
-Q . S2P
Prelude.v
CNum.v
Json.v
Entropy.v
PacketParser.v
Regex.v
Worker.v
Redis.v
Executor.v
ThreadPool.v
Consumer.v
ConsumerProps.v
AckMutex.v
