(* ===== verification/Prelude.v ===== *)
(** * A verification development for the C++ network-anomaly analyzer

    The program (src/external_workers/analyzer/) is a worker that drains a
    Redis stream through a consumer group, scores every JSON packet record,
    posts anomalous ones to an HTTP sink and acknowledges (XACK) the
    processed stream entries.  Its parts, leaf first:

    - the scoring engine, [PacketParser::extract_features],
      [PacketParser::compute_entropy], [PacketParser::score] and
      [PacketParser::severity_label] (packet_parser.cpp);
    - the sink client [post_anomaly] and the per-message task
      [process_message] (main.cpp), which composes parsing, scoring, the
      POST and the serialized XACK on the acknowledge connection;
    - the bounded worker pool [ThreadPool] (thread_pool.h): a FIFO task
      queue, a [stop_] flag and N worker loops;
    - the consumer loop of [main] (main.cpp): XAUTOCLAIM, XREADGROUP and one
      [enqueue] per entry with a non-empty payload, until the shutdown flag.

    Files of the development, in dependency order:

    - [Prelude] (this file): the result monad of fallible code, the
      development's scope, tactics, hint database and shared lemmas.
    - [CNum]: the C++ numeric conversions the code relies on: fixed-width
      wrap-around of [static_cast] to [uint8_t]/[uint16_t]/[uint32_t]/[int],
      binary64 doubles as Rocq's primitive floats (IEEE-754, computed by the
      kernel), the truncating [static_cast<int>(double)], and the decimal
      formatting of [std::to_string] for integers and doubles ([%f]).
    - [Json]: the boundary of nlohmann::json the code calls: a JSON value
      tree and the accessors [value(key, default)], [contains], [get<T>]
      with their [type_error] exceptions.  This is a library the sources
      only call; it is modelled from its documented behaviour.
    - [Entropy]: [compute_entropy]: the hex decoding loop with the exact
      semantics of [std::stoul(s, nullptr, 16)] on a 2-character string,
      the 256-entry histogram and the Shannon sum in binary64.  [std::log2]
      (libm) is a parameter of the model (a typeclass [Libm]); theorems
      that need a value of it say so in a hypothesis.
    - [PacketParser]: [PacketFeatures], [AnomalyResult],
      [extract_features], [score] and [severity_label].
    - [Regex]: the unused [IPV4_RE] of packet_parser.cpp as a regex term,
      and [std::regex_match] as a backtracking matcher over the ECMAScript
      constructs it uses, proved equal to the inductive language of the
      pattern.
    - [Worker]: [post_anomaly] against an abstract HTTP transport and
      [process_message] as a function returning its trace of effects
      (POST, log lines, XACK) and its outcome.
    - [Executor]: the contract the pool offers its client, an abstract
      bounded FIFO executor (pending, active and done tasks, a closed
      flag) with its own step relation.
    - [ThreadPool]: the pool as a state (queue, stop flag, one state per
      worker) with a step relation whose steps are the atomic sections of
      the C++ code under [queue_mutex_], and its refinement of the
      [Executor] contract (a simulation, with the generic diagram of this
      file).
    - [Redis]: the store at its boundary, written from the documented
      behaviour of the commands [main] issues (the server is not code of
      this repository): the [redisReply] tree, stream ids with their
      decimal rendering and parser, and the stream, its consumer group and
      pending entries list (PEL) under [XADD], [XGROUP CREATE],
      [XREADGROUP], [XAUTOCLAIM] and [XACK], with two ghost histories
      (ids handed out, ids acknowledged).
    - [Consumer]: [main] (main.cpp lines 128-222): the settings read with
      [getenv]/[atoi], the walk over the [XREADGROUP] reply with C-string
      semantics, the main thread as a program counter ([Check], [Claim],
      [Read], [Dispatch], [Joining], ...) and the whole process as a step
      relation [sys_step] interleaving the main thread, the pool's workers
      (each finished task applies the effects of [process_message] to the
      store, at once) and the environment [env_step]: signals, producers,
      the clock, broken connections and the other consumers of the group.
    - [ConsumerProps]: the reply walk's specification, the thread-count
      bound, the invariant of [sys_step] and its consequences, and the
      composition of the loop, the pool and the task: the steps
      [served_step] of the main thread and of the workers under a sink
      that answers every request, and the group's acknowledgement history
      [acked].
    - [AckMutex]: [process_message] in its real steps around the shared
      [redis_ack] context: up to the lock, blocked in the constructor of
      [std::lock_guard<std::mutex> lock(mtx)], in [redisCommand] (XACK),
      at the destructor's unlock, returned to [worker_loop]; the mutex
      [mtx] is a state component, and the whole process with these
      steps is a step relation [fine_step] that an abstraction maps onto
      [sys_step] (a simulation with stuttering, linearisation point at the
      XACK).  [redisCommand] spans two steps (entered when the lock is
      taken, left when its XACK applies), and two workers inside it at
      once is a data race, undefined behaviour, after which the store may
      be in any state ([FineRace]).

    What the theorems show (the manifest PROJECT.json lists them by claim):

    - reading: [extract_features] succeeds exactly on the records whose
      known fields have the JSON types their [get<T>()] accepts, and every
      result holds values of the C++ field types (ports in [uint16_t],
      length in [uint32_t], TTL and flags in [uint8_t]);
    - the address pattern: [IPV4_RE] accepts exactly dotted quads of
      decimal octets up to 255, leading zeros included;
    - scoring: the score is always within [0, 1]; which rules fire decides
      the score, the severity and the description; a POST happens exactly
      when a rule fired; the severity computed in binary64 agrees with the
      exact (rational) rule table on every reachable rule combination but
      one, where rounding turns 0.75 into 0.7499999999999999;
    - entropy: the hex decoder inverts a hex encoder; the histogram counts
      decoded bytes; entropy is 0 without decodable bytes or with one
      symbol, and exactly 8.0 for the 256 distinct bytes;
    - the task: a message is acknowledged exactly once unless its POST
      failed, never twice, and the POST always precedes the XACK;
    - the pool: every accepted task is started once, in FIFO order; after
      the destructor sets [stop_], every run of the workers terminates with
      all queued tasks run and all workers exited; enqueue after stop fails;
      every reachable pool is the image of a run of the executor contract
      with the pool's thread count as capacity (refinement); stopped or
      not, no accepted task starves: the workers alone take every queued
      task to a worker that runs it;
    - the process: an invariant of every reachable state of [sys_step]
      (store well formed, pool invariant, every dispatched id handed to this
      consumer by [XREADGROUP] exactly once); hence no entry is dispatched
      twice and none is acknowledged twice; an entry whose POST failed is
      never dispatched again and stays pending, because the reply of
      [XAUTOCLAIM] is discarded; a broken read connection stops all
      dispatching for ever; every entry not yet handed out that carries a
      non-empty payload is eventually enqueued while the read connection
      is up and no signal arrived, and, with the acknowledge connection up
      and a sink that answers 201, eventually acknowledged (the loop, the
      pool and the task composed); an entry without a payload is never
      dispatched nor acknowledged; a read step dispatches exactly the
      handed-out entries with a non-empty payload; once [g_shutdown] is set, every run
      of the program's own steps is finite and ends with the queue drained
      and the workers joined, provided [BLOCK_MS] is not 0: with [BLOCK 0]
      a read on an idle stream never returns to the shutdown test, and a
      negative [BLOCK_MS] makes every read fail so that nothing is ever
      dispatched; the thread count is in [1, INT_MAX];
    - the acknowledge connection: at most one worker is inside the lock
      around [XACK] and only its holder changes the store; a worker blocked
      on [mtx] always gets it; and the process with the lock made explicit
      refines the atomic model, so the theorems above hold of it; the
      refinement rests on the mutual exclusion, which rules out the data
      race on [redis_ack].

    Bounds and fuel: no function of the development uses fuel; the loops of
    the code are structural recursions over the hex string, the histogram,
    the reply's element lists, the digits of an id and the pattern; the
    pool's termination is proved with a measure, and the process's termination
    after shutdown by well-founded induction staged on the program counter
    (the consumer loop's remaining steps, then the pool's measure); the
    progress of the consumer by well-founded induction on the number of
    entries up to the awaited one that the group has not handed out, and
    the pool's progress towards a queued task by the same measure of the
    pool (every worker step decreases it).  The
    octets of [IPV4_RE] are checked by evaluation on all 1110 strings of
    one to three digits, after a lemma bounds what the pattern can match.
    Integers keep their C++ width where the code converts: [uint8_t],
    [uint16_t], [uint32_t], [int] and [long] wrap or clamp as written.

    Not modelled: the JSON text parser [json::parse] (the task takes its
    result as input), libcurl and the network (an abstract transport),
    libm's [log2] (a parameter), the Redis server beyond the five commands
    the process issues, the wire protocol of hiredis, the duration of a
    positive [BLOCK] (a read that finds nothing returns nil at once; [BLOCK
    0] and negative values are modelled), the text of the
    request body ([body.dump()]: the request carries the JSON value, whose
    printing is the library's), the [std::future] that [enqueue] returns
    ([main] discards it), and the output streams (log lines are recorded
    in the effect trace, not printed).
    Signals are a step of the environment that sets [g_shutdown]; the
    environment of [getenv] is an input.  Inside [redisCommand], hiredis's
    buffers and socket are not modelled: the call is entered in one step
    and returns in another, and an overlap of two calls on [redis_ack] is
    treated as undefined behaviour (any store); the theorems of [AckMutex]
    show that the code never lets two threads into it at once.  What the map leaves out of
    the sources is only declarations: the includes, the class declaration
    of [PacketParser] (its static members are modelled one by one), and
    the deleted copy operations of [ThreadPool]. *)

From Stdlib Require Import ZArith Lia Sorted.
From stdpp Require Import base list decidable relations.

(** ** The result monad of fallible code

    C++ exceptions that the code catches become [Err] values; the type of
    errors is a parameter. *)

Inductive res (E A : Type) : Type :=
| Ok (a : A)
| Err (e : E).
Arguments Ok {E A} a.
Arguments Err {E A} e.

Definition res_bind {E A B} (c : res E A) (k : A -> res E B) : res E B :=
  match c with
  | Ok a => k a
  | Err e => Err e
  end.

Definition res_map {E A B} (f : A -> B) (c : res E A) : res E B :=
  res_bind c (fun a => Ok (f a)).

Declare Scope analyzer_scope.
Delimit Scope analyzer_scope with an.

Notation "'let!' x ':=' c 'in' k" := (res_bind c (fun x => k))
  (at level 10, x name, c at level 100, k at level 200) : analyzer_scope.

Open Scope analyzer_scope.

#[export] Instance res_eq_dec {E A} `{EqDecision E, EqDecision A} :
  EqDecision (res E A).
Proof. solve_decision. Defined.

Lemma res_bind_Ok_inv {E A B} (c : res E A) (k : A -> res E B) b :
  res_bind c k = Ok b -> exists a, c = Ok a /\ k a = Ok b.
Proof. destruct c; simpl; [eauto | discriminate]. Qed.

Lemma res_bind_Err_inv {E A B} (c : res E A) (k : A -> res E B) e :
  res_bind c k = Err e -> c = Err e \/ exists a, c = Ok a /\ k a = Err e.
Proof. destruct c; simpl; [eauto | intros [= ->]; auto]. Qed.

Lemma res_bind_Ok {E A B} (a : A) (k : A -> res E B) :
  res_bind (Ok a) k = k a.
Proof. reflexivity. Qed.

Lemma res_bind_Err {E A B} (e : E) (k : A -> res E B) :
  res_bind (Err e) k = Err e.
Proof. reflexivity. Qed.

Create HintDb analyzer.
Create Rewrite HintDb analyzer_rw.
#[export] Hint Rewrite @res_bind_Ok @res_bind_Err : analyzer_rw.

(** ** Tactics *)

(** Case on every boolean variable of the context, then close each case by
    evaluation: the proofs of properties that depend only on which rules of
    a finite table fire. *)
Ltac bool_cases :=
  repeat match goal with
         | b : bool |- _ => destruct b
         end.

Ltac by_eval := vm_compute; reflexivity.

(** Rewrite a [res_bind] whose scrutinee is a known [Ok]/[Err]. *)
Ltac res_simpl := autorewrite with analyzer_rw in *.

(** ** Shared list lemmas *)

Lemma forallb_In_true {A} (p : A -> bool) (l : list A) x :
  forallb p l = true -> In x l -> p x = true.
Proof. rewrite forallb_forall. auto. Qed.

#[export] Hint Resolve forallb_In_true : analyzer.

(** Number of elements of a list satisfying a boolean test. *)
Definition count_if {A} (p : A -> bool) (l : list A) : nat :=
  length (List.filter p l).

Lemma count_if_app {A} (p : A -> bool) l1 l2 :
  count_if p (l1 ++ l2) = count_if p l1 + count_if p l2.
Proof. unfold count_if. by rewrite List.filter_app, length_app. Qed.

Lemma count_if_cons {A} (p : A -> bool) x l :
  count_if p (x :: l) = (if p x then 1 else 0) + count_if p l.
Proof. unfold count_if. simpl. destruct (p x); reflexivity. Qed.

#[export] Hint Rewrite @count_if_app @count_if_cons : analyzer_rw.

Lemma count_if_Permutation {A} (p : A -> bool) l1 l2 :
  Permutation l1 l2 -> count_if p l1 = count_if p l2.
Proof. induction 1; rewrite ?count_if_cons; try destruct (p _); lia. Qed.

(** All boolean vectors of a length: the domain of a finite rule table. *)
Fixpoint all_bools (n : nat) : list (list bool) :=
  match n with
  | O => [[]]
  | S n => map (cons true) (all_bools n) ++ map (cons false) (all_bools n)
  end.

Lemma all_bools_complete (bs : list bool) : In bs (all_bools (length bs)).
Proof.
  induction bs as [|b bs IH]; simpl; [auto|].
  apply in_or_app. destruct b; [left | right]; by apply in_map.
Qed.

(** A boolean property checked on every vector of length [n] holds of any
    vector of length [n]. *)
Lemma all_bools_check (P : list bool -> bool) n bs :
  forallb P (all_bools n) = true -> length bs = n -> P bs = true.
Proof. intros Hc <-. exact (forallb_In_true _ _ _ Hc (all_bools_complete bs)). Qed.

Lemma bool_decide_eq_iff (P Q : Prop) `{Decision P, Decision Q} :
  bool_decide P = bool_decide Q -> (P <-> Q).
Proof. do 2 case_bool_decide; intros; naive_solver. Qed.

(** Decompose a successful chain of [let!]: every intermediate step
    returned [Ok]. *)
Ltac res_inv H :=
  repeat match type of H with
  | res_bind _ _ = Ok _ =>
      let a := fresh "a" in
      let Ha := fresh "Ha" in
      apply res_bind_Ok_inv in H; destruct H as (a & Ha & H)
  end.


(** A stronger filter keeps fewer elements, strictly fewer when an element
    passes the weaker test only. *)
Lemma filter_length_mono {A} (p q : A -> bool) l :
  (forall y, p y = true -> q y = true) ->
  length (List.filter p l) <= length (List.filter q l).
Proof.
  intros Hpq. induction l as [|y l IH]; simpl; [done|].
  destruct (p y) eqn:E; [rewrite (Hpq _ E); simpl; lia|]. destruct (q y); simpl; lia.
Qed.

Lemma filter_length_lt {A} (p q : A -> bool) l x :
  (forall y, p y = true -> q y = true) -> In x l -> q x = true -> p x = false ->
  length (List.filter p l) < length (List.filter q l).
Proof.
  intros Hpq Hin Hq Hp. induction l as [|y l IH]; [done|]. destruct Hin as [->|Hin]; simpl.
  - rewrite Hp, Hq. simpl. pose proof (filter_length_mono p q l Hpq). lia.
  - specialize (IH Hin). destruct (p y) eqn:E; [rewrite (Hpq _ E); simpl; lia|].
    destruct (q y); simpl; lia.
Qed.

(** ** Subsequences and sorted lists *)

Lemma Forall_sublist {A} (P : A -> Prop) l1 l2 :
  sublist l1 l2 -> Forall P l2 -> Forall P l1.
Proof. induction 1; intros Hf; inversion Hf; subst; auto. Qed.

Lemma sublist_map {A B} (f : A -> B) l1 l2 :
  sublist l1 l2 -> sublist (map f l1) (map f l2).
Proof. induction 1; simpl; [constructor | by apply sublist_skip | by apply sublist_cons]. Qed.

Lemma sublist_List_filter {A} (p : A -> bool) l : sublist (List.filter p l) l.
Proof.
  induction l as [|x l IH]; simpl; [done|].
  destruct (p x); [by apply sublist_skip | by apply sublist_cons].
Qed.

Lemma SSorted_app {A} (R : A -> A -> Prop) l1 l2 :
  StronglySorted R (l1 ++ l2) <->
  StronglySorted R l1 /\ StronglySorted R l2 /\ Forall (fun x => Forall (R x) l2) l1.
Proof.
  induction l1 as [|x l1 IH]; simpl.
  - split; [intros H; repeat split; auto; constructor | tauto].
  - split.
    + intros [H1 H2]%StronglySorted_inv. apply IH in H1 as (? & ? & ?).
      apply Forall_app in H2 as [??]. repeat split; auto; constructor; auto.
    + intros (Hs1 & Hs2 & Hf). apply StronglySorted_inv in Hs1 as [??].
      inversion_clear Hf. constructor; [apply IH; auto|].
      apply Forall_app; auto.
Qed.

Lemma SSorted_sublist {A} (R : A -> A -> Prop) l1 l2 :
  sublist l1 l2 -> StronglySorted R l2 -> StronglySorted R l1.
Proof.
  induction 1 as [|x l1 l2 Hsub IH|x l1 l2 _ IH]; intros Hs; [constructor| |];
    apply StronglySorted_inv in Hs as [Hs Hf].
  - constructor; [exact (IH Hs) | exact (Forall_sublist _ _ _ Hsub Hf)].
  - exact (IH Hs).
Qed.

(** A strictly sorted list has no duplicates. *)
Lemma SSorted_NoDup {A} (R : A -> A -> Prop) l :
  (forall x, ~ R x x) -> StronglySorted R l -> NoDup l.
Proof.
  intros Hirr. induction 1 as [|x l _ IH Hf]; constructor; [|done].
  intros Hx. rewrite Forall_forall in Hf. exact (Hirr x (Hf x Hx)).
Qed.

Lemma NoDup_map_inj {A B} (f : A -> B) l :
  (forall x y, f x = f y -> x = y) -> NoDup l -> NoDup (map f l).
Proof.
  intros Hinj. induction 1 as [|x l Hx _ IH]; simpl; constructor; [|exact IH].
  rewrite list_elem_of_In, in_map_iff. intros (y & Hy & Hin). apply Hinj in Hy as ->.
  by apply Hx, list_elem_of_In.
Qed.

(** In an association list with distinct keys, a key has one value. *)
Lemma NoDup_fst_unique {A B} (l : list (A * B)) a b b' :
  NoDup (map fst l) -> In (a, b) l -> In (a, b') l -> b = b'.
Proof.
  induction l as [|[x y] l IH]; [done|]. simpl. intros Hn H1 H2.
  inversion_clear Hn as [|? ? Hx Hn'].
  assert (Hnot : forall c, In (x, c) l -> False).
  { intros c Hc. apply Hx, list_elem_of_In, in_map_iff. by exists (x, c). }
  destruct H1 as [E1|H1], H2 as [E2|H2].
  - injection E1; injection E2; congruence.
  - injection E1 as -> ->. by destruct (Hnot b').
  - injection E2 as -> ->. by destruct (Hnot b).
  - exact (IH Hn' H1 H2).
Qed.

(** ** Simulation diagrams

    A relation [R] between the states of a detailed model and those of an
    abstract specification is a simulation when every detailed step is
    matched by zero or more abstract steps that re-establish [R] (the
    diagram of Leroy's compiler-correctness proofs, without the measure,
    since only finite runs are transported). *)
Section Simulation.
Context {C A : Type} (cstep : relation C) (astep : relation A) (R : C -> A -> Prop).
Hypothesis simulation :
  forall c c' a, cstep c c' -> R c a -> exists a', rtc astep a a' /\ R c' a'.

Lemma simulation_rtc c c' a :
  rtc cstep c c' -> R c a -> exists a', rtc astep a a' /\ R c' a'.
Proof.
  intros Hr. revert a. induction Hr as [c|c c1 c' Hs _ IH]; intros a Ha.
  - by exists a.
  - destruct (simulation _ _ _ Hs Ha) as (a1 & Hr1 & Ha1).
    destruct (IH _ Ha1) as (a' & Hr' & Ha'). exists a'. split; [by etrans|done].
Qed.
End Simulation.
