(* ===== verification/CNum.v ===== *)
(** * C++ numeric conversions and formatting used by the analyzer

    The scoring code stores JSON numbers in [uint8_t], [uint16_t] and
    [uint32_t] fields through [static_cast] and implicit conversions, adds
    binary64 weights, truncates doubles with [static_cast<int>] and prints
    numbers with [std::to_string].  This file gives each of those a
    definition:

    - [Int]: wrap-around of an integer to [w] bits, unsigned and two's
      complement, as the casts of packet_parser.cpp lines 33-37 do;
    - [Double]: binary64 values are Rocq's primitive floats, whose kernel
      operations are IEEE-754 round-to-nearest-even.  [of_Z] is the
      conversion of an integer to double, [trunc] the exact truncation of a
      finite double, [to_int32]/[to_uint32] the conversions of
      [static_cast<int>] and [static_cast<unsigned>]: the C++ standard
      leaves an out-of-range value undefined, and the model returns what the
      x86-64 conversion instructions GCC emits return ([cvttsd2si]);
    - [Fmt]: [std::to_string] of an integer (decimal, with a minus sign)
      and of a double ([printf("%f")]: the exact binary value rounded to six
      decimals, ties to even, as glibc prints it). *)

From Stdlib Require Import ZArith Lia Floats Ascii String Decimal DecimalZ.
From stdpp Require Import base list.
From S2P Require Import Prelude.

Set Warnings "-inexact-float".

Module Int.
Open Scope Z_scope.

(** [static_cast<uintW_t>(z)]: reduction modulo [2^w]. *)
Definition wrap (w z : Z) : Z := z mod 2 ^ w.

(** Conversion to a [w]-bit two's complement integer (modular since
    C++20, and what GCC does before). *)
Definition swrap (w z : Z) : Z := (z + 2 ^ (w - 1)) mod 2 ^ w - 2 ^ (w - 1).

Definition to_uint8 (z : Z) : Z := wrap 8 z.
Definition to_uint16 (z : Z) : Z := wrap 16 z.
Definition to_uint32 (z : Z) : Z := wrap 32 z.
Definition to_int32 (z : Z) : Z := swrap 32 z.

Definition INT_MIN : Z := - 2 ^ 31.
Definition INT_MAX : Z := 2 ^ 31 - 1.

Definition in_int32 (z : Z) : bool := (INT_MIN <=? z) && (z <=? INT_MAX).

Lemma wrap_range w z : 0 <= w -> 0 <= wrap w z < 2 ^ w.
Proof. intros Hw. apply Z.mod_pos_bound. lia. Qed.

Lemma wrap_small w z : 0 <= z < 2 ^ w -> wrap w z = z.
Proof. apply Z.mod_small. Qed.

Lemma swrap_small w z :
  0 < w -> - 2 ^ (w - 1) <= z < 2 ^ (w - 1) -> swrap w z = z.
Proof.
  intros Hw Hz. unfold swrap.
  assert (E : 2 ^ w = 2 * 2 ^ (w - 1)).
  { rewrite <- Z.pow_succ_r by lia. f_equal. lia. }
  rewrite Z.mod_small by lia. lia.
Qed.

Lemma swrap_range w z :
  0 < w -> - 2 ^ (w - 1) <= swrap w z < 2 ^ (w - 1).
Proof.
  intros Hw. unfold swrap.
  assert (E : 2 ^ w = 2 * 2 ^ (w - 1)).
  { rewrite <- Z.pow_succ_r by lia. f_equal. lia. }
  pose proof (Z.mod_pos_bound (z + 2 ^ (w - 1)) (2 ^ w)) as B.
  assert (0 < 2 ^ (w - 1)) by (apply Z.pow_pos_nonneg; lia). lia.
Qed.

Lemma wrap_add_idemp w x y : 0 <= w -> wrap w (wrap w x + y) = wrap w (x + y).
Proof. intros Hw. unfold wrap. apply Z.add_mod_idemp_l. apply Z.pow_nonzero; lia. Qed.

(** Narrowing an [int] to [uint16_t] or [uint8_t] keeps the value modulo
    [2^16] or [2^8]: the first narrowing to [int] loses nothing of it. *)
Lemma to_uint16_to_int32 z : to_uint16 (to_int32 z) = z mod 2 ^ 16.
Proof.
  unfold to_uint16, to_int32, wrap, swrap. simpl (2 ^ _).
  Z.to_euclidean_division_equations. lia.
Qed.

Lemma to_uint8_to_int32 z : to_uint8 (to_int32 z) = z mod 2 ^ 8.
Proof.
  unfold to_uint8, to_int32, wrap, swrap. simpl (2 ^ _).
  Z.to_euclidean_division_equations. lia.
Qed.

Lemma in_int32_spec z : in_int32 z = true <-> INT_MIN <= z <= INT_MAX.
Proof. unfold in_int32. rewrite andb_true_iff, !Z.leb_le. tauto. Qed.
End Int.

Module Double.
Open Scope Z_scope.

(** [static_cast<double>(z)] for an integer [z]: round to nearest even. *)
Definition of_Z (z : Z) : float :=
  SF2Prim (SpecFloat.binary_normalize FloatOps.prec FloatOps.emax z 0 false).

(** The exact truncation toward zero of a finite double; [None] for an
    infinity or a NaN. *)
Definition trunc (d : float) : option Z :=
  match Prim2SF d with
  | S754_zero _ => Some 0
  | S754_finite s m e =>
      let v := if 0 <=? e then Z.pos m * 2 ^ e else Z.pos m / 2 ^ (- e) in
      Some (if s then - v else v)
  | _ => None
  end.

Definition INT64_MIN : Z := - 2 ^ 63.

Definition in_int64 (z : Z) : bool := (INT64_MIN <=? z) && (z <? 2 ^ 63).

(** [static_cast<int>(d)]: the truncation when it is an [int]; otherwise
    (undefined in C++) the 32-bit [cvttsd2si] result [INT_MIN]. *)
Definition to_int32 (d : float) : Z :=
  match trunc d with
  | Some z => if Int.in_int32 z then z else Int.INT_MIN
  | None => Int.INT_MIN
  end.

(** The 64-bit [cvttsd2si] conversion, through which GCC converts a
    double to [unsigned int]. *)
Definition to_int64 (d : float) : Z :=
  match trunc d with
  | Some z => if in_int64 z then z else INT64_MIN
  | None => INT64_MIN
  end.

(** [static_cast<unsigned int>(d)]: the low 32 bits of [to_int64]. *)
Definition to_uint32 (d : float) : Z := Int.wrap 32 (to_int64 d).

Lemma to_int32_range d : Int.INT_MIN <= to_int32 d <= Int.INT_MAX.
Proof.
  unfold to_int32. destruct (trunc d) as [z|]; [|vm_compute; split; discriminate].
  destruct (Int.in_int32 z) eqn:E;
    [apply Int.in_int32_spec in E; exact E | vm_compute; split; discriminate].
Qed.

Lemma to_int32_trunc d z :
  trunc d = Some z -> Int.INT_MIN <= z <= Int.INT_MAX -> to_int32 d = z.
Proof.
  intros Ht Hz. unfold to_int32. rewrite Ht.
  apply Int.in_int32_spec in Hz. by rewrite Hz.
Qed.
End Double.

Module Fmt.
Open Scope string_scope.

Definition digit_char (d : Z) : ascii := ascii_of_nat (48 + Z.to_nat d).

Fixpoint uint_to_string (u : uint) : string :=
  match u with
  | Nil => ""
  | D0 u => String "0" (uint_to_string u)
  | D1 u => String "1" (uint_to_string u)
  | D2 u => String "2" (uint_to_string u)
  | D3 u => String "3" (uint_to_string u)
  | D4 u => String "4" (uint_to_string u)
  | D5 u => String "5" (uint_to_string u)
  | D6 u => String "6" (uint_to_string u)
  | D7 u => String "7" (uint_to_string u)
  | D8 u => String "8" (uint_to_string u)
  | D9 u => String "9" (uint_to_string u)
  end.

Definition int_to_string (d : int) : string :=
  match d with
  | Pos u => uint_to_string u
  | Neg u => String "-" (uint_to_string u)
  end.

(** [std::to_string] of an integer of any width: its decimal digits,
    after a minus sign when it is negative. *)
Definition to_string (z : Z) : string := int_to_string (Z.to_int z).

(** The last [n] decimal digits of [z >= 0], with leading zeros. *)
Fixpoint pad_digits (n : nat) (z : Z) (acc : string) : string :=
  match n with
  | O => acc
  | S n' => pad_digits n' (z / 10)%Z (String (digit_char (z mod 10)%Z) acc)
  end.

(** [num / den] rounded to the nearest integer, ties to even. *)
Definition round_half_even (num den : Z) : Z :=
  let q := (num / den)%Z in
  let r := (num mod den)%Z in
  if (den <? 2 * r)%Z then (q + 1)%Z
  else if (2 * r =? den)%Z then (if Z.odd q then (q + 1)%Z else q)
  else q.

(** [std::to_string(double)], that is [printf("%f")]. *)
Definition double_to_string (d : float) : string :=
  let sign (s : bool) := if s then "-" else "" in
  match Prim2SF d with
  | S754_zero s => sign s ++ "0.000000"
  | S754_infinity s => sign s ++ "inf"
  | S754_nan => "nan"
  | S754_finite s m e =>
      let n := if (0 <=? e)%Z then (Z.pos m * 2 ^ e * 10 ^ 6)%Z
               else round_half_even (Z.pos m * 10 ^ 6) (2 ^ (- e)) in
      sign s ++ to_string (n / 10 ^ 6)%Z ++ "." ++ pad_digits 6 (n mod 10 ^ 6)%Z ""
  end.
End Fmt.
