(* ===== verification/Json.v ===== *)
(** * The nlohmann::json boundary

    packet_parser.cpp reads its record through four members of
    [nlohmann::json]: [value(key, default)], [contains(key)], the const
    [operator[](key)] and [get<T>()].  The library is not part of the
    repository; this file models the behaviour of those members that the
    code depends on:

    - a parsed document is a tree [json] whose numbers are kept as the
      parser stores them: [JUInt] for a non-negative integer literal
      ([number_unsigned], [uint64_t]), [JInt] for a negative one
      ([number_integer], [int64_t]) and [JFloat] for one with a fraction or
      an exponent ([number_float], [double]);
    - an object is a [std::map]: its keys are unique ([wf_json]) and the
      model looks a key up in an association list;
    - [get<T>()] for an arithmetic [T] other than the library's own number
      types converts any number, and a boolean, with [static_cast<T>], and
      throws [type_error] 302 otherwise; [get<double>()] does not accept a
      boolean; [get<std::string>()] accepts only a string;
    - [value(key, default)] throws [type_error] 306 when the document is not
      an object, returns the default when the key is absent and [get<T>()]
      of the member otherwise. *)

From Stdlib Require Import ZArith Floats String.
From stdpp Require Import base list.
From S2P Require Import Prelude CNum.

#[warnings="-register-all"]
Inductive json : Type :=
| JNull
| JBool (b : bool)
| JInt (i : Z)
| JUInt (u : Z)
| JFloat (d : float)
| JString (s : string)
| JArray (xs : list json)
| JObject (kvs : list (string * json)).

(** The exceptions of the library that [process_message] catches as
    [json::exception]. *)
Inductive json_exception : Type :=
| ParseError
| TypeError (id : Z).

#[export] Instance json_exception_eq_dec : EqDecision json_exception.
Proof. solve_decision. Defined.

Module Json.
Open Scope Z_scope.

(** Keys of an object are unique, at every depth. *)
Fixpoint wf_json (j : json) : Prop :=
  match j with
  | JArray xs => Forall id (map wf_json xs)
  | JObject kvs => NoDup (map fst kvs) /\ Forall id (map (fun kv => wf_json kv.2) kvs)
  | _ => True
  end.

Fixpoint find_key (k : string) (kvs : list (string * json)) : option json :=
  match kvs with
  | [] => None
  | (k', v) :: rest => if String.eqb k k' then Some v else find_key k rest
  end.

(** [j.contains(key)]: false on anything that is not an object. *)
Definition contains (k : string) (j : json) : bool :=
  match j with
  | JObject kvs => match find_key k kvs with Some _ => true | None => false end
  | _ => false
  end.

(** The const [j[key]], which the code only evaluates after [contains]
    (on a missing key the library's behaviour is undefined; the model
    returns [null]). *)
Definition index (k : string) (j : json) : json :=
  match j with
  | JObject kvs => default JNull (find_key k kvs)
  | _ => JNull
  end.

(** [get<T>()] for an integral [T], given the two [static_cast]s into [T]
    (from an integer and from a double). *)
Definition get_integral (of_int : Z -> Z) (of_double : float -> Z) (j : json)
  : res json_exception Z :=
  match j with
  | JUInt u => Ok (of_int u)
  | JInt i => Ok (of_int i)
  | JFloat d => Ok (of_double d)
  | JBool b => Ok (if b then 1 else 0)
  | _ => Err (TypeError 302)
  end.

(** [get<int>()] and [get<unsigned int>()]. *)
Definition get_int (j : json) : res json_exception Z :=
  get_integral Int.to_int32 Double.to_int32 j.
Definition get_uint (j : json) : res json_exception Z :=
  get_integral Int.to_uint32 Double.to_uint32 j.

(** [get<double>()]. *)
Definition get_double (j : json) : res json_exception float :=
  match j with
  | JUInt u => Ok (Double.of_Z u)
  | JInt i => Ok (Double.of_Z i)
  | JFloat d => Ok d
  | _ => Err (TypeError 302)
  end.

(** [get<std::string>()]. *)
Definition get_string (j : json) : res json_exception string :=
  match j with
  | JString s => Ok s
  | _ => Err (TypeError 302)
  end.

(** [j.value(key, default)] with the [get] of the default's type. *)
Definition value {A} (get : json -> res json_exception A) (k : string) (dflt : A)
    (j : json) : res json_exception A :=
  match j with
  | JObject kvs =>
      match find_key k kvs with
      | Some v => get v
      | None => Ok dflt
      end
  | _ => Err (TypeError 306)
  end.

Lemma value_absent {A} (get : json -> res json_exception A) k d kvs :
  find_key k kvs = None -> value get k d (JObject kvs) = Ok d.
Proof. simpl. by intros ->. Qed.

Lemma value_present {A} (get : json -> res json_exception A) k d kvs v :
  find_key k kvs = Some v -> value get k d (JObject kvs) = get v.
Proof. simpl. by intros ->. Qed.

Lemma value_not_object {A} (get : json -> res json_exception A) k d j :
  (forall kvs, j <> JObject kvs) -> value get k d j = Err (TypeError 306).
Proof. intros H. destruct j; try reflexivity. by destruct (H kvs). Qed.

Lemma find_key_Some k kvs v : find_key k kvs = Some v -> In (k, v) kvs.
Proof.
  induction kvs as [|[k' v'] kvs IH]; simpl; [discriminate|].
  destruct (String.eqb_spec k k') as [->|_]; [intros [= ->]; auto | auto].
Qed.

Lemma find_key_None k kvs : find_key k kvs = None -> ~ In k (map fst kvs).
Proof.
  induction kvs as [|[k' v'] kvs IH]; simpl; [auto|].
  destruct (String.eqb_spec k k') as [->|Hne]; [discriminate|].
  intros H [->|Hin]; [done | by apply IH].
Qed.
End Json.
