(* ===== verification/Entropy.v ===== *)
(** * [PacketParser::compute_entropy] (packet_parser.cpp lines 109-134)

    The routine walks the hex string two characters at a time
    ([for (i = 0; i + 1 < hex.size(); i += 2)]), converts each pair with
    [std::stoul(hex.substr(i, 2), nullptr, 16)], narrows the result to
    [uint8_t], and counts it in a 256-entry [uint32_t] histogram; a pair
    whose conversion throws is skipped.  It then sums [-p * log2(p)] over
    the non-zero counts in index order, in binary64.

    - [Stoul] models [std::stoul] in base 16 on top of glibc's [strtoul]:
      leading C-locale white space, an optional sign, an optional [0x]
      prefix, the longest run of hex digits; no digit is
      [std::invalid_argument] (except after a bare [0x], which converts the
      [0]), a value above [ULONG_MAX] is [std::out_of_range], and a minus
      sign negates modulo 2^64.
    - [Histogram] is the decoding loop with its state [(freq, byte_count)].
    - [compute_entropy] is the whole routine; [std::log2] is the method of
      the [Libm] class, a parameter of the model. *)

From Stdlib Require Import ZArith Lia Floats Ascii String Uint63.
From stdpp Require Import base list.
From S2P Require Import Prelude CNum.

Set Warnings "-inexact-float".

(** The mathematical library the code calls: only [std::log2]. *)
Class Libm := { log2 : float -> float }.

(** A [log2] that is exact on the powers of two and NaN elsewhere: enough
    to run the theorems below on concrete inputs, whose hypotheses ask for
    [log2] at powers of two only. *)
Definition log2_pow2 (x : float) : float :=
  let (m, e) := frshiftexp x in
  if (m =? 0.5)%float then Double.of_Z (Uint63.to_Z e - 2102)%Z else nan.

Definition pow2_libm : Libm := {| log2 := log2_pow2 |}.

Module Stoul.
Open Scope Z_scope.

Inductive stoul_error := InvalidArgument | OutOfRange.

Definition code (c : ascii) : Z := Z.of_nat (nat_of_ascii c).

(** [isspace] in the C locale. *)
Definition is_space (c : ascii) : bool :=
  let n := code c in (n =? 32) || ((9 <=? n) && (n <=? 13)).

Definition hex_digit (c : ascii) : option Z :=
  let n := code c in
  if (48 <=? n) && (n <=? 57) then Some (n - 48)
  else if (97 <=? n) && (n <=? 102) then Some (n - 87)
  else if (65 <=? n) && (n <=? 70) then Some (n - 55)
  else None.

Fixpoint skip_spaces (s : string) : string :=
  match s with
  | String c r => if is_space c then skip_spaces r else s
  | EmptyString => s
  end.

(** An optional sign: [true] for a minus. *)
Definition take_sign (s : string) : bool * string :=
  match s with
  | String c r =>
      if Ascii.eqb c "-" then (true, r)
      else if Ascii.eqb c "+" then (false, r)
      else (false, s)
  | EmptyString => (false, s)
  end.

(** The [0x]/[0X] prefix that base 16 allows. *)
Definition take_prefix (s : string) : bool * string :=
  match s with
  | String c (String x r) =>
      if Ascii.eqb c "0" && (Ascii.eqb x "x" || Ascii.eqb x "X") then (true, r)
      else (false, s)
  | _ => (false, s)
  end.

(** The longest run of hex digits: its value and its length. *)
Fixpoint hex_run (s : string) (acc : Z) (n : nat) : Z * nat :=
  match s with
  | String c r =>
      match hex_digit c with
      | Some d => hex_run r (acc * 16 + d) (S n)
      | None => (acc, n)
      end
  | EmptyString => (acc, n)
  end.

Definition ULONG_MAX : Z := 2 ^ 64 - 1.

(** [std::stoul(s, nullptr, 16)]. *)
Definition stoul16 (s : string) : res stoul_error Z :=
  let '(neg, s1) := take_sign (skip_spaces s) in
  let '(prefixed, s2) := take_prefix s1 in
  let '(v, n) := hex_run s2 0 0 in
  if (n =? 0)%nat then (if prefixed then Ok 0 else Err InvalidArgument)
  else if ULONG_MAX <? v then Err OutOfRange
  else Ok (if neg then Int.wrap 64 (- v) else v).
End Stoul.

Module Histogram.
Open Scope Z_scope.

(** One iteration of the decoding loop on [hex.substr(i, 2)]: the byte
    it yields, if the conversion does not throw. *)
Definition decode_pair (c1 c2 : ascii) : option Z :=
  match Stoul.stoul16 (String c1 (String c2 EmptyString)) with
  | Ok v => Some (Int.to_uint8 v)
  | Err _ => None
  end.

(** The pairs the loop visits: a trailing odd character is never read. *)
Fixpoint hex_pairs (s : string) : list (ascii * ascii) :=
  match s with
  | String a (String b r) => (a, b) :: hex_pairs r
  | _ => []
  end.

(** The loop's state: [freq] (256 counters) and [byte_count]. *)
Record state := mkState { freq : list Z; byte_count : Z }.

Definition init : state := mkState (replicate 256 0) 0.

(** [++freq[byte]; ++byte_count;] or [continue] in the [catch]. *)
Definition step (st : state) (pr : ascii * ascii) : state :=
  match decode_pair pr.1 pr.2 with
  | Some b => mkState (alter (fun c => Int.to_uint32 (c + 1)) (Z.to_nat b) (freq st))
                      (byte_count st + 1)
  | None => st
  end.

Definition run (hex : string) : state := fold_left step (hex_pairs hex) init.

(** The bytes the loop counts, in order. *)
Fixpoint decode_all (prs : list (ascii * ascii)) : list Z :=
  match prs with
  | [] => []
  | (a, b) :: rest =>
      match decode_pair a b with
      | Some x => x :: decode_all rest
      | None => decode_all rest
      end
  end.

Definition decoded (hex : string) : list Z := decode_all (hex_pairs hex).
End Histogram.

Section Entropy.
Context `{LM : Libm}.
Open Scope float_scope.

(** One iteration of [for (auto c : freq)], with [n] the double
    [static_cast<double>(byte_count)]. *)
Definition entropy_term (n : float) (e : float) (c : Z) : float :=
  if (c =? 0)%Z then e
  else let p := Double.of_Z c / n in e - p * log2 p.

Definition compute_entropy (hex : string) : float :=
  if (String.length hex <? 2)%nat then 0
  else
    let st := Histogram.run hex in
    if (Histogram.byte_count st =? 0)%Z then 0
    else fold_left (entropy_term (Double.of_Z (Histogram.byte_count st)))
                   (Histogram.freq st) 0.
End Entropy.

(** ** The decoding of one pair *)

Module DecodeSpec.
Import Stoul Histogram.
Open Scope Z_scope.

(** What [stoul] makes of two characters: two hex digits are a byte; a
    hex digit followed by anything else is that digit alone; a white
    space or a [+] before a hex digit is dropped; a [-] before a hex digit
    negates it modulo 256; everything else throws. *)
Definition decode_pair_table (c1 c2 : ascii) : option Z :=
  match hex_digit c1, hex_digit c2 with
  | Some h1, Some h2 => Some (16 * h1 + h2)
  | Some h1, None => Some h1
  | None, Some h2 =>
      if is_space c1 || Ascii.eqb c1 "+" then Some h2
      else if Ascii.eqb c1 "-" then Some (Int.to_uint8 (- h2))
      else None
  | None, None => None
  end.

Definition all_ascii : list ascii := map ascii_of_nat (seq 0 256).

Lemma all_ascii_complete c : In c all_ascii.
Proof.
  rewrite <- (ascii_nat_embedding c). apply in_map, in_seq.
  pose proof (nat_ascii_bounded c). lia.
Qed.

Lemma decode_pair_table_checked :
  forallb (fun c1 => forallb (fun c2 =>
    bool_decide (decode_pair c1 c2 = decode_pair_table c1 c2)) all_ascii) all_ascii = true.
Proof. by_eval. Qed.

(** Lower-case hex digit of a nibble, as an encoder of [payload_hex]
    writes it. *)
Definition hex_char (d : Z) : ascii :=
  ascii_of_nat (Z.to_nat (if d <? 10 then 48 + d else 87 + d)).

Fixpoint encode_hex (bs : list Z) : string :=
  match bs with
  | [] => EmptyString
  | b :: rest => String (hex_char (b / 16)) (String (hex_char (b mod 16)) (encode_hex rest))
  end.

Lemma decode_hex_byte_checked :
  forallb (fun b => bool_decide (decode_pair (hex_char (b / 16)) (hex_char (b mod 16)) = Some b))
    (map Z.of_nat (seq 0 256)) = true.
Proof. by_eval. Qed.

Lemma decode_hex_byte b :
  0 <= b < 256 -> decode_pair (hex_char (b / 16)) (hex_char (b mod 16)) = Some b.
Proof.
  intros Hb.
  assert (Hin : In b (map Z.of_nat (seq 0 256))).
  { replace b with (Z.of_nat (Z.to_nat b)) by lia. apply in_map, in_seq. lia. }
  pose proof (forallb_In_true _ _ _ decode_hex_byte_checked Hin) as Hc.
  by apply bool_decide_eq_true in Hc.
Qed.

Lemma decode_pair_range a b x : decode_pair a b = Some x -> 0 <= x < 256.
Proof.
  unfold decode_pair. destruct (stoul16 _); intros [= <-]. by apply Int.wrap_range.
Qed.

Lemma decode_all_range prs : Forall (fun x => 0 <= x < 256) (decode_all prs).
Proof.
  induction prs as [|[a b] prs IH]; simpl; [constructor|].
  destruct (decode_pair a b) eqn:E; [constructor; eauto using decode_pair_range | done].
Qed.

(** C29. The loop's conversion of a pair, [std::stoul] narrowed to
    [uint8_t], is exactly [decode_pair_table], on every pair of
    characters.  So a pair is not "skipped when malformed": ["0g"] is 0,
    [" f"] and ["+f"] are 15, and ["-1"] is 255. *)
Theorem decode_pair_spec c1 c2 : decode_pair c1 c2 = decode_pair_table c1 c2.
Proof.
  pose proof (forallb_In_true _ _ _ decode_pair_table_checked (all_ascii_complete c1)) as H1.
  pose proof (forallb_In_true _ _ _ H1 (all_ascii_complete c2)) as H2.
  by apply bool_decide_eq_true in H2.
Qed.

(** C34. Decoding inverts hex encoding: the loop counts exactly the bytes
    that a lower-case hex encoder wrote, in order. *)
Theorem decoded_encode_hex bs :
  Forall (fun b => 0 <= b < 256) bs -> decoded (encode_hex bs) = bs.
Proof.
  unfold decoded. induction 1 as [|b bs Hb _ IH]; [reflexivity|].
  simpl. by rewrite decode_hex_byte, IH.
Qed.
End DecodeSpec.

(** ** The histogram *)

Module HistogramSpec.
Import Histogram DecodeSpec.
Open Scope Z_scope.

(** How many times the byte [i] occurs in [l]. *)
Definition count_byte (l : list Z) (i : Z) : Z := Z.of_nat (count_if (Z.eqb i) l).

(** The loop state [st] has counted the bytes [l]: 256 counters, each the
    number of occurrences modulo 2^32 ([uint32_t]), and [byte_count] the
    number of bytes. *)
Definition represents (st : state) (l : list Z) : Prop :=
  length (freq st) = 256%nat /\
  (forall i, (i < 256)%nat ->
     freq st !! i = Some (Int.to_uint32 (count_byte l (Z.of_nat i)))) /\
  byte_count st = Z.of_nat (length l).

Lemma represents_init : represents init [].
Proof.
  split; [reflexivity|]. split; [|reflexivity].
  intros i Hi. apply lookup_replicate. split; [reflexivity | lia].
Qed.

Lemma count_byte_snoc l b i :
  count_byte (l ++ [b]) i = count_byte l i + (if Z.eqb i b then 1 else 0).
Proof.
  unfold count_byte. rewrite count_if_app, count_if_cons, !Nat2Z.inj_add.
  change (count_if (Z.eqb i) []) with 0%nat. destruct (Z.eqb i b); simpl; lia.
Qed.

Lemma represents_step st l a b :
  represents st l ->
  represents (step st (a, b)) (l ++ default [] (option_map (fun x => [x]) (decode_pair a b))).
Proof.
  intros (Hlen & Hfreq & Hcnt). unfold step; cbn [fst snd].
  destruct (decode_pair a b) as [x|] eqn:Hx; unfold represents;
    cbn [option_map default from_option id freq byte_count]; [|rewrite app_nil_r; auto].
  pose proof (decode_pair_range _ _ _ Hx) as Hr.
  split; [by rewrite length_alter|]. split.
  - intros i Hi. rewrite count_byte_snoc.
    destruct (decide (i = Z.to_nat x)) as [->|Hne].
    + rewrite list_lookup_alter_eq, Hfreq by lia. simpl.
      rewrite Z2Nat.id, Z.eqb_refl by lia. f_equal. apply Int.wrap_add_idemp; lia.
    + rewrite list_lookup_alter_ne by done. rewrite Hfreq by done.
      replace (Z.of_nat i =? x) with false by (symmetry; apply Z.eqb_neq; lia).
      by rewrite Z.add_0_r.
  - rewrite length_app. simpl. lia.
Qed.

Lemma represents_fold prs st l :
  represents st l -> represents (fold_left step prs st) (l ++ decode_all prs).
Proof.
  revert st l. induction prs as [|[a b] prs IH]; intros st l Hst; simpl.
  - by rewrite app_nil_r.
  - specialize (IH _ _ (represents_step st l a b Hst)).
    destruct (decode_pair a b); simpl in *; by rewrite <- app_assoc in IH.
Qed.

(** The histogram that [represents] pins down. *)
Definition histogram_of (l : list Z) : list Z :=
  map (fun i => Int.to_uint32 (count_byte l (Z.of_nat i))) (seq 0 256).

Lemma represents_freq st l : represents st l -> freq st = histogram_of l.
Proof.
  intros (Hlen & Hfreq & _). apply list_eq. intros i.
  destruct (decide (i < 256)%nat) as [Hi|Hi].
  - rewrite Hfreq by done. unfold histogram_of.
    rewrite list_lookup_fmap, lookup_seq_lt by done. reflexivity.
  - rewrite !lookup_ge_None_2; [done | | ].
    + unfold histogram_of. rewrite length_map, length_seq. lia.
    + lia.
Qed.

Lemma histogram_of_Permutation l1 l2 :
  Permutation l1 l2 -> histogram_of l1 = histogram_of l2.
Proof.
  intros Hp. unfold histogram_of, count_byte. apply map_ext. intros i.
  by rewrite (count_if_Permutation _ _ _ Hp).
Qed.

Lemma run_represents hex : represents (run hex) (decoded hex).
Proof. unfold run, decoded. exact (represents_fold _ _ [] represents_init). Qed.

(** C33. After the decoding loop, [freq[i]] is the number of occurrences
    of byte [i] among the decoded bytes (modulo 2^32, the width of the
    counters) and [byte_count] is their number. *)
Theorem histogram_counts hex i :
  (i < 256)%nat ->
  freq (run hex) !! i = Some (Int.to_uint32 (count_byte (decoded hex) (Z.of_nat i))) /\
  byte_count (run hex) = Z.of_nat (length (decoded hex)).
Proof.
  intros Hi. destruct (run_represents hex) as (_ & Hf & Hc). auto.
Qed.

End HistogramSpec.

(** ** Properties of [compute_entropy] *)

Section EntropyProps.
Context `{LM : Libm}.
Import Histogram DecodeSpec HistogramSpec.
Open Scope float_scope.

(** The entropy is a function of the decoded bytes only. *)
Lemma compute_entropy_decoded hex :
  compute_entropy hex =
    if (String.length hex <? 2)%nat then 0
    else let l := decoded hex in
         if (Z.of_nat (length l) =? 0)%Z then 0
         else fold_left (entropy_term (Double.of_Z (Z.of_nat (length l)))) (histogram_of l) 0.
Proof.
  unfold compute_entropy. cbv zeta. pose proof (run_represents hex) as Hr.
  rewrite (represents_freq _ _ Hr). destruct Hr as (_ & _ & ->). reflexivity.
Qed.

Lemma fold_entropy_zeros n k e : fold_left (entropy_term n) (replicate k 0%Z) e = e.
Proof. revert e. induction k as [|k IH]; intros e; [reflexivity | apply IH]. Qed.

Lemma fold_entropy_replicate n k c e :
  c <> 0%Z ->
  fold_left (entropy_term n) (replicate k c) e =
    Nat.iter k (fun e => e - (Double.of_Z c / n) * log2 (Double.of_Z c / n)) e.
Proof.
  intros Hc. revert e. induction k as [|k IH]; intros e; [reflexivity|].
  simpl. rewrite IH. unfold entropy_term. rewrite (proj2 (Z.eqb_neq c 0) Hc).
  clear IH. revert e. induction k as [|k IH]; intros e; [reflexivity | simpl; by rewrite IH].
Qed.

Lemma hex_pairs_short hex : (String.length hex < 2)%nat -> hex_pairs hex = [].
Proof. destruct hex as [|a [|b r]]; simpl; [done | done | lia]. Qed.

Lemma histogram_of_single_checked :
  forallb (fun k => bool_decide (histogram_of [Z.of_nat k] =
                                 replicate k 0%Z ++ [1%Z] ++ replicate (255 - k) 0%Z))
          (seq 0 256) = true.
Proof. by_eval. Qed.

Lemma histogram_of_single b :
  (0 <= b < 256)%Z ->
  histogram_of [b] = replicate (Z.to_nat b) 0%Z ++ [1%Z] ++ replicate (255 - Z.to_nat b) 0%Z.
Proof.
  intros Hb. assert (Hin : In (Z.to_nat b) (seq 0 256)) by (apply in_seq; lia).
  pose proof (forallb_In_true _ _ _ histogram_of_single_checked Hin) as Hc.
  apply bool_decide_eq_true in Hc. by rewrite Z2Nat.id in Hc by lia.
Qed.

Lemma histogram_of_all_bytes :
  histogram_of (map Z.of_nat (seq 0 256)) = replicate 256 1%Z.
Proof. by_eval. Qed.

(** C32. A hex string with no decodable pair (fewer than two characters,
    or only pairs on which [stoul] throws) has entropy 0. *)
Theorem entropy_no_bytes hex : decoded hex = [] -> compute_entropy hex = 0.
Proof.
  intros Hd. rewrite compute_entropy_decoded, Hd. simpl.
  by destruct (_ <? 2)%nat.
Qed.

(** C31. A hex string with exactly one decodable byte has entropy 0,
    given that [log2(1.0)] is 0 as C and IEEE-754 require. *)
Theorem entropy_one_byte hex b :
  decoded hex = [b] -> log2 1 = 0 -> compute_entropy hex = 0.
Proof.
  intros Hd Hlog. rewrite compute_entropy_decoded, Hd.
  destruct (_ <? 2)%nat; [reflexivity|]. cbv zeta. simpl (length _).
  assert (Hb : (0 <= b < 256)%Z).
  { pose proof (decode_all_range (hex_pairs hex)) as Hr. fold (decoded hex) in Hr.
    rewrite Hd in Hr. by inversion Hr. }
  rewrite histogram_of_single, !fold_left_app, !fold_entropy_zeros by done.
  simpl. unfold entropy_term. simpl.
  change (Double.of_Z 1 / Double.of_Z 1) with 1. rewrite Hlog. by_eval.
Qed.

(** C30. When the decoded bytes are the 256 byte values, each once and in
    any order, the entropy is exactly 8.0, given [log2(2^-8) = -8]. *)
Theorem entropy_all_bytes hex :
  Permutation (decoded hex) (map Z.of_nat (seq 0 256)) ->
  log2 0.00390625 = -8 ->
  compute_entropy hex = 8.
Proof.
  intros Hp Hlog. rewrite compute_entropy_decoded.
  destruct (String.length hex <? 2)%nat eqn:Hs.
  { apply Nat.ltb_lt, hex_pairs_short in Hs. unfold decoded in Hp.
    rewrite Hs in Hp. by apply Permutation_length in Hp. }
  cbv zeta. rewrite (histogram_of_Permutation _ _ Hp), (Permutation_length Hp).
  rewrite histogram_of_all_bytes, fold_entropy_replicate by lia.
  change (Double.of_Z 1 / Double.of_Z (Z.of_nat (length (map Z.of_nat (seq 0 256)))))
    with 0.00390625.
  rewrite Hlog. by_eval.
Qed.
End EntropyProps.

(** ** Witnesses *)

Module EntropyWitness.
Import Histogram DecodeSpec HistogramSpec.
Open Scope Z_scope.

Lemma entropy_no_bytes_witness :
  decoded "zz-" = [] /\ @compute_entropy pow2_libm "zz-" = 0%float.
Proof. split; [by_eval | apply entropy_no_bytes; by_eval]. Defined.

Lemma entropy_one_byte_witness :
  decoded "ab" = [171] /\ @log2 pow2_libm 1 = 0%float /\
  @compute_entropy pow2_libm "ab" = 0%float.
Proof.
  split; [by_eval | split; [by_eval | apply (entropy_one_byte "ab" 171); by_eval]].
Defined.

Lemma entropy_all_bytes_witness :
  let hex := encode_hex (map Z.of_nat (seq 0 256)) in
  Permutation (decoded hex) (map Z.of_nat (seq 0 256)) /\
  @log2 pow2_libm 0.00390625 = (-8)%float /\
  @compute_entropy pow2_libm hex = 8%float.
Proof.
  assert (Hp : Permutation (decoded (encode_hex (map Z.of_nat (seq 0 256))))
                           (map Z.of_nat (seq 0 256)))
    by (vm_compute; reflexivity).
  split; [exact Hp | split; [by_eval | apply entropy_all_bytes; [exact Hp | by_eval]]].
Defined.

Lemma decoded_encode_hex_witness :
  Forall (fun b => 0 <= b < 256) [0; 171; 255] /\ decoded (encode_hex [0; 171; 255]) = [0; 171; 255].
Proof.
  assert (Hf : Forall (fun b => 0 <= b < 256) [0; 171; 255]) by (repeat constructor; lia).
  split; [exact Hf | exact (decoded_encode_hex _ Hf)].
Defined.

Lemma histogram_counts_witness :
  (10 < 256)%nat /\
  freq (run "0a0a0b") !! 10%nat = Some 2 /\ byte_count (run "0a0a0b") = 3.
Proof.
  split; [lia|]. destruct (histogram_counts "0a0a0b" 10) as [H1 H2]; [lia|].
  rewrite H1, H2. split; by_eval.
Defined.
End EntropyWitness.
