(* ===== verification/PacketParser.v ===== *)
(** * The scoring engine: packet_parser.h and packet_parser.cpp

    - [Packet.PacketFeatures] and [Anomaly.AnomalyResult] are the two
      structs of packet_parser.h, with the widths of their integer fields
      kept by the casts of [extract_features].
    - [PacketParser.extract_features] reads the JSON record through the
      accessors of [Json] ([value] with a default per field, [contains] and
      [get<std::string>] for [payload_hex]); every [type_error] propagates
      as an [Err], as the exception does in C++.
    - [PacketParser.score] is the six [if]s of [score] threading [(s,
      reasons)] in source order, the clamp [std::min(s, 1.0)], the
      description and [severity_label].  The weights are binary64 constants
      and the sums are binary64 additions, so the model computes the
      score the program computes, rounding included.

    The properties are stated in terms of [fired], the six rule conditions
    in table order: the score, its severity and the description depend on
    the features only through [fired]. *)

From Stdlib Require Import ZArith Lia Floats Ascii String.
From stdpp Require Import base list strings.
From S2P Require Import Prelude CNum Json Entropy.

Set Warnings "-inexact-float".

Module Packet.
(** [struct PacketFeatures]: the integer fields hold the values of their
    C++ types ([uint16_t] ports, [uint32_t] length, [uint8_t] TTL and
    flags). *)
Record PacketFeatures := mkFeatures {
  source_ip : string;
  destination_ip : string;
  protocol : string;
  src_port : Z;
  dst_port : Z;
  payload_len : Z;
  ttl : Z;
  tcp_flags : Z;
  payload_entropy : float;
  pkt_rate : float
}.
End Packet.

Module Anomaly.
(** [struct AnomalyResult]. *)
Record AnomalyResult := mkResult {
  source_ip : string;
  destination_ip : string;
  protocol : string;
  score : float;
  severity : string;
  description : string
}.
End Anomaly.

Module PacketParser.
Import Packet.
Open Scope Z_scope.

(** [SUSPICIOUS_PORTS], in the order of its initializer. *)
Definition SUSPICIOUS_PORTS : list Z := [23; 4444; 6667; 6666; 1337; 31337; 9001].

Section WithLibm.
Context `{LM : Libm}.

(** [PacketParser::extract_features]. *)
Definition extract_features (pkt : json) : res json_exception PacketFeatures :=
  let! src := Json.value Json.get_string "src_ip" "0.0.0.0"%string pkt in
  let! dst := Json.value Json.get_string "dst_ip" "0.0.0.0"%string pkt in
  let! proto := Json.value Json.get_string "protocol" "UNKNOWN"%string pkt in
  let! sport := Json.value Json.get_int "src_port" 0 pkt in
  let! dport := Json.value Json.get_int "dst_port" 0 pkt in
  let! plen := Json.value Json.get_uint "payload_len" 0 pkt in
  let! ttl := Json.value Json.get_int "ttl" 64 pkt in
  let! flags := Json.value Json.get_uint "tcp_flags" 0 pkt in
  let! entropy :=
    (if Json.contains "payload_hex" pkt
     then let! hex := Json.get_string (Json.index "payload_hex" pkt) in
          Ok (compute_entropy hex)
     else Ok 0%float) in
  let! rate := Json.value Json.get_double "pkt_rate" 0%float pkt in
  Ok {| source_ip := src;
        destination_ip := dst;
        protocol := proto;
        src_port := Int.to_uint16 sport;
        dst_port := Int.to_uint16 dport;
        payload_len := plen;
        ttl := Int.to_uint8 ttl;
        tcp_flags := Int.to_uint8 flags;
        payload_entropy := entropy;
        pkt_rate := rate |}.
End WithLibm.

Definition SYN_FLAG : Z := 2.
Definition ACK_FLAG : Z := 16.

(** The six conditions of [score], in source order. *)
Definition suspicious_port (f : PacketFeatures) : bool :=
  existsb (Z.eqb (dst_port f)) SUSPICIOUS_PORTS.
Definition high_entropy (f : PacketFeatures) : bool := (7.5 <? payload_entropy f)%float.
Definition abnormal_ttl (f : PacketFeatures) : bool := (ttl f <? 10) || (ttl f =? 255).
Definition syn_only (f : PacketFeatures) : bool :=
  negb (Z.land (tcp_flags f) SYN_FLAG =? 0) && (Z.land (tcp_flags f) ACK_FLAG =? 0)
  && (payload_len f <? 8).
Definition excessive_rate (f : PacketFeatures) : bool := (10000 <? pkt_rate f)%float.
Definition oversized (f : PacketFeatures) : bool := 65000 <? payload_len f.

(** The reason each rule pushes. *)
Definition reason_port (f : PacketFeatures) : string :=
  "suspicious dst_port=" ++ Fmt.to_string (dst_port f).
Definition reason_entropy (f : PacketFeatures) : string :=
  "high payload entropy=" ++
    Fmt.double_to_string
      (Double.of_Z (Double.to_int32 (payload_entropy f * 100)%float) / 100)%float.
Definition reason_ttl (f : PacketFeatures) : string :=
  "abnormal TTL=" ++ Fmt.to_string (ttl f).
Definition reason_syn : string := "SYN-only pkt (possible SYN flood)".
Definition reason_rate (f : PacketFeatures) : string :=
  "excessive pkt_rate=" ++ Fmt.to_string (Double.to_int32 (pkt_rate f)).
Definition reason_oversized (f : PacketFeatures) : string :=
  "oversized payload=" ++ Fmt.to_string (payload_len f).

(** [if (cond) { s += w; reasons.push_back(why); }] *)
Definition rule (fired : bool) (w : float) (why : string)
    (acc : float * list string) : float * list string :=
  if fired then ((acc.1 + w)%float, acc.2 ++ [why]) else acc.

(** The six rules of [score], from [s = 0.0] and no reason. *)
Definition accumulate (f : PacketFeatures) : float * list string :=
  let acc := (0%float, []) in
  let acc := rule (suspicious_port f) 0.30 (reason_port f) acc in
  let acc := rule (high_entropy f) 0.20 (reason_entropy f) acc in
  let acc := rule (abnormal_ttl f) 0.15 (reason_ttl f) acc in
  let acc := rule (syn_only f) 0.25 reason_syn acc in
  let acc := rule (excessive_rate f) 0.20 (reason_rate f) acc in
  rule (oversized f) 0.10 (reason_oversized f) acc.

(** [std::min(a, b)], which is [(b < a) ? b : a]. *)
Definition std_min (a b : float) : float := if (b <? a)%float then b else a.

(** The [ostringstream] of [score]. *)
Definition describe (reasons : list string) : string :=
  match reasons with
  | [] => "No anomalies detected."
  | _ => "Detected: " ++ String.concat "; " reasons ++ "."
  end.

(** [PacketParser::severity_label]. *)
Definition severity_label (s : float) : string :=
  if (0.75 <=? s)%float then "critical"
  else if (0.50 <=? s)%float then "high"
  else if (0.25 <=? s)%float then "medium"
  else "low".

(** [PacketParser::score]. *)
Definition score (f : PacketFeatures) : Anomaly.AnomalyResult :=
  let '(s, reasons) := accumulate f in
  let s := std_min s 1 in
  {| Anomaly.source_ip := source_ip f;
     Anomaly.destination_ip := destination_ip f;
     Anomaly.protocol := protocol f;
     Anomaly.score := s;
     Anomaly.severity := severity_label s;
     Anomaly.description := describe reasons |}.
End PacketParser.

(** ** The score as a function of the fired rules *)

Module ScoreSpec.
Import Packet PacketParser.
Open Scope Z_scope.

(** The six rule conditions, in the order of the rule table. *)
Definition fired (f : PacketFeatures) : list bool :=
  [suspicious_port f; high_entropy f; abnormal_ttl f; syn_only f;
   excessive_rate f; oversized f].

Definition WEIGHTS : list float := [0.30; 0.20; 0.15; 0.25; 0.20; 0.10]%float.

(** The running sum [s] that [score] computes when the rules [bs] fire:
    the weights of the fired rules added from 0.0 in table order, each
    addition rounded. *)
Definition sum_fired (bs : list bool) : float :=
  fold_left (fun (s : float) (bw : bool * float) => if bw.1 then (s + bw.2)%float else s)
    (combine bs WEIGHTS) 0%float.

Definition rule_reasons (f : PacketFeatures) : list string :=
  [reason_port f; reason_entropy f; reason_ttl f; reason_syn; reason_rate f;
   reason_oversized f].

(** The reasons of the fired rules, in table order. *)
Definition select (bs : list bool) (l : list string) : list string :=
  map snd (List.filter fst (combine bs l)).

Definition score_of (bs : list bool) : float := std_min (sum_fired bs) 1.

Lemma accumulate_fired f :
  accumulate f = (sum_fired (fired f), select (fired f) (rule_reasons f)).
Proof.
  unfold accumulate, rule, sum_fired, select, fired, rule_reasons. cbn [fst snd].
  generalize (suspicious_port f) (high_entropy f) (abnormal_ttl f) (syn_only f)
             (excessive_rate f) (oversized f).
  intros; bool_cases; reflexivity.
Qed.

Lemma score_fired f :
  Anomaly.score (score f) = score_of (fired f) /\
  Anomaly.severity (score f) = severity_label (score_of (fired f)) /\
  Anomaly.description (score f) = describe (select (fired f) (rule_reasons f)).
Proof. unfold score. rewrite accumulate_fired. auto. Qed.

(** The score is positive exactly when some rule fired; proved from the
    code of [score] itself. *)
Lemma score_positive_fired f :
  (0 <? Anomaly.score (score f))%float = existsb id (fired f).
Proof.
  unfold score, accumulate, rule, fired. cbn [fst snd].
  generalize (suspicious_port f) (high_entropy f) (abnormal_ttl f) (syn_only f)
             (excessive_rate f) (oversized f).
  intros; bool_cases; by_eval.
Qed.

Lemma length_fired f : length (fired f) = 6%nat.
Proof. reflexivity. Qed.

(** A property of the score that holds for the 64 rule vectors holds for
    every packet. *)
Lemma fired_check (P : list bool -> bool) f :
  forallb P (all_bools 6) = true -> P (fired f) = true.
Proof. intros Hc. exact (all_bools_check P 6 (fired f) Hc (length_fired f)). Qed.

(** The rule table of the specification in exact arithmetic, in
    hundredths: weights 30, 20, 15, 25, 20, 10, clamped to 100. *)
Definition spec_points (bs : list bool) : Z :=
  Z.min 100 (fold_left (fun (s : Z) (bw : bool * Z) => if bw.1 then s + bw.2 else s)
               (combine bs [30; 20; 15; 25; 20; 10]) 0).

Definition spec_severity (p : Z) : string :=
  if 75 <=? p then "critical" else if 50 <=? p then "high"
  else if 25 <=? p then "medium" else "low".

(** The one combination on which rounding moves the severity: suspicious
    port, abnormal TTL, excessive rate and oversized payload. *)
Definition ROUNDING_CASE : list bool := [true; false; true; false; true; true].

Definition severity_rank (s : string) : nat :=
  if String.eqb s "critical" then 3 else if String.eqb s "high" then 2
  else if String.eqb s "medium" then 1 else 0.

Lemma score_range_checked :
  forallb (fun bs => (0 <=? score_of bs)%float && (score_of bs <=? 1)%float)
    (all_bools 6) = true.
Proof. by_eval. Qed.

Lemma severity_table_checked :
  forallb (fun bs =>
    Bool.eqb (bool_decide (severity_label (score_of bs) = spec_severity (spec_points bs)))
             (bool_decide (bs <> ROUNDING_CASE)))
    (all_bools 6) = true.
Proof. by_eval. Qed.

Lemma positive_checked :
  forallb (fun bs => Bool.eqb (0 <? score_of bs)%float (existsb id bs)) (all_bools 6) = true.
Proof. by_eval. Qed.

Lemma monotone_checked :
  forallb (fun bs => forallb (fun cs =>
    implb (score_of bs <=? score_of cs)%float
          (severity_rank (severity_label (score_of bs))
             <=? severity_rank (severity_label (score_of cs)))%nat)
    (all_bools 6)) (all_bools 6) = true.
Proof. by_eval. Qed.

(** C3. For every packet the score is within [0.0, 1.0]. *)
Theorem score_bounds f :
  (0 <=? Anomaly.score (score f))%float = true /\ (Anomaly.score (score f) <=? 1)%float = true.
Proof.
  destruct (score_fired f) as [-> _]. apply andb_prop.
  exact (fired_check _ f score_range_checked).
Qed.

(** C4. The severity the code computes is the severity of the
    specification's rule table in exact arithmetic, for every packet
    except those that fire exactly the port, TTL, rate and size rules:
    there the binary64 sum 0.30 + 0.15 + 0.20 + 0.10 is
    0.7499999999999999 and the label is "high" instead of "critical". *)
Theorem severity_matches_table f :
  Anomaly.severity (score f) = spec_severity (spec_points (fired f)) <->
  fired f <> ROUNDING_CASE.
Proof.
  destruct (score_fired f) as (_ & -> & _).
  pose proof (fired_check _ f severity_table_checked) as Hc.
  apply Bool.eqb_prop in Hc. exact (bool_decide_eq_iff _ _ Hc).
Qed.

Lemma describe_select_nil (bs : list bool) (rs : list string) :
  length bs = 6%nat -> length rs = 6%nat ->
  describe (select bs rs) = "No anomalies detected."%string <-> existsb id bs = false.
Proof.
  intros Hb Hr.
  do 7 (destruct bs as [|? bs]; simpl in Hb; try discriminate).
  do 7 (destruct rs as [|? rs]; simpl in Hr; try discriminate).
  bool_cases; simpl; split; intros Hd; first [reflexivity | discriminate Hd].
Qed.

(** C9. The score is positive, which is the condition under which
    [process_message] posts, exactly when some rule fired; and the
    description is the fixed sentence exactly when none did. *)
Theorem score_positive_iff_fired f :
  (0 <? Anomaly.score (score f))%float = existsb id (fired f) /\
  (Anomaly.description (score f) = "No anomalies detected."%string <->
   existsb id (fired f) = false).
Proof.
  destruct (score_fired f) as (-> & _ & ->). split.
  - apply Bool.eqb_prop. exact (fired_check _ f positive_checked).
  - by apply describe_select_nil.
Qed.

(** C38. The severity label is monotone in the score over all packets: a
    packet with a score at most another's has a severity at most the
    other's. *)
Theorem severity_monotone f g :
  (Anomaly.score (score f) <=? Anomaly.score (score g))%float = true ->
  (severity_rank (Anomaly.severity (score f)) <= severity_rank (Anomaly.severity (score g)))%nat.
Proof.
  destruct (score_fired f) as (-> & -> & _), (score_fired g) as (-> & -> & _).
  intros Hle. apply Nat.leb_le.
  pose proof (forallb_In_true _ _ _ monotone_checked
                (all_bools_complete (fired f))) as Hf.
  pose proof (forallb_In_true _ _ _ Hf (all_bools_complete (fired g))) as Hg.
  cbv beta in Hg. rewrite Hle in Hg. exact Hg.
Qed.
End ScoreSpec.

(** ** Reading the record *)

Module ExtractSpec.
Import Packet PacketParser.
Open Scope Z_scope.

(** The keys [extract_features] reads. *)
Definition FIELD_KEYS : list string :=
  ["src_ip"; "dst_ip"; "protocol"; "src_port"; "dst_port"; "payload_len"; "ttl";
   "tcp_flags"; "payload_hex"; "pkt_rate"]%string.

(** The documented defaults of the specification (section 3). *)
Definition default_features : PacketFeatures :=
  {| source_ip := "0.0.0.0"; destination_ip := "0.0.0.0"; protocol := "UNKNOWN";
     src_port := 0; dst_port := 0; payload_len := 0; ttl := 64; tcp_flags := 0;
     payload_entropy := 0; pkt_rate := 0 |}.

Definition is_string (v : json) : bool := if v is JString _ then true else false.
Definition is_number (v : json) : bool :=
  match v with JUInt _ | JInt _ | JFloat _ => true | _ => false end.
Definition is_integral_source (v : json) : bool :=
  match v with JUInt _ | JInt _ | JFloat _ | JBool _ => true | _ => false end.

(** Whether [get<T>()] accepts the member [v] under the key [k], for the
    type [T] that [extract_features] reads it as. *)
Definition field_ok (k : string) (v : json) : bool :=
  if existsb (String.eqb k) ["src_ip"; "dst_ip"; "protocol"; "payload_hex"]%string
  then is_string v
  else if existsb (String.eqb k) ["src_port"; "dst_port"; "payload_len"; "ttl"; "tcp_flags"]%string
  then is_integral_source v
  else if String.eqb k "pkt_rate" then is_number v
  else true.

(** The record is well typed for [extract_features]: every field of the
    table that is present has a JSON type the [get<T>()] of its C++
    member accepts. *)
Definition packet_typed (kvs : list (string * json)) : bool :=
  forallb (fun k => match Json.find_key k kvs with Some v => field_ok k v | None => true end)
          FIELD_KEYS.

(** [PacketFeatures] inhabits its C++ struct: every integer field is in the
    range of its declared width. *)
Definition features_in_range (f : PacketFeatures) : Prop :=
  0 <= src_port f < 2 ^ 16 /\ 0 <= dst_port f < 2 ^ 16 /\
  0 <= payload_len f < 2 ^ 32 /\ 0 <= ttl f < 2 ^ 8 /\ 0 <= tcp_flags f < 2 ^ 8.

Lemma packet_typed_key kvs k v :
  packet_typed kvs = true -> In k FIELD_KEYS -> Json.find_key k kvs = Some v ->
  field_ok k v = true.
Proof.
  intros Ht Hk Hv. pose proof (forallb_In_true _ _ _ Ht Hk) as H. simpl in H.
  by rewrite Hv in H.
Qed.

(** [value] succeeds on a key whose member, when present, is accepted by
    the getter. *)
Lemma value_typed {A} (get : json -> res json_exception A) (ok : json -> bool) k d kvs :
  (forall v, ok v = true -> exists a, get v = Ok a) ->
  (forall v, Json.find_key k kvs = Some v -> ok v = true) ->
  exists a, Json.value get k d (JObject kvs) = Ok a.
Proof.
  intros Hg Hk. simpl. destruct (Json.find_key k kvs) as [v|] eqn:Hv; eauto.
Qed.

Lemma get_uint_range v z : Json.get_uint v = Ok z -> 0 <= z < 2 ^ 32.
Proof.
  assert (0 <= 32) as H32 by lia.
  destruct v; simpl; intros [= <-];
    try apply Int.wrap_range; try (destruct b; lia); exact H32.
Qed.

Section WithLibm.
Context `{LM : Libm}.

(** C35. A record with none of the fields of the table gets the
    documented defaults: addresses "0.0.0.0", protocol "UNKNOWN", TTL
    64, everything else 0. *)
Theorem extract_features_defaults kvs :
  (forall k, In k FIELD_KEYS -> Json.find_key k kvs = None) ->
  extract_features (JObject kvs) = Ok default_features.
Proof.
  intros Hk. unfold extract_features, Json.value, Json.contains.
  rewrite !Hk by (simpl; tauto). reflexivity.
Qed.

(** C36. The destination port is the JSON integer modulo 2^16 and the
    TTL the JSON integer modulo 2^8: [static_cast<uint16_t>] and
    [static_cast<uint8_t>] wrap, so 69980 is read as port 4444 and a
    TTL of 261 as 5. *)
Theorem extract_features_wraps kvs f :
  extract_features (JObject kvs) = Ok f ->
  (forall u, Json.find_key "dst_port" kvs = Some (JUInt u) \/
             Json.find_key "dst_port" kvs = Some (JInt u) -> dst_port f = u mod 2 ^ 16) /\
  (forall u, Json.find_key "ttl" kvs = Some (JUInt u) \/
             Json.find_key "ttl" kvs = Some (JInt u) -> ttl f = u mod 2 ^ 8).
Proof.
  intros Hx. unfold extract_features in Hx. res_inv Hx. injection Hx as <-.
  split; intros u [Hu|Hu]; simpl;
    match goal with
    | Ha : Json.value _ _ _ (JObject kvs) = Ok ?a |- context [?a] =>
        rewrite (Json.value_present _ _ _ _ _ Hu) in Ha; injection Ha as <-
    end;
    auto using Int.to_uint16_to_int32, Int.to_uint8_to_int32.
Qed.

(** Every accessor [extract_features] calls on an object either
    succeeds or throws [type_error] 302. *)
Lemma getters_302 {A} (get : json -> res json_exception A) k d kvs e :
  (forall v e, get v = Err e -> e = TypeError 302) ->
  Json.value get k d (JObject kvs) = Err e -> e = TypeError 302.
Proof. simpl. destruct (Json.find_key k kvs); [eauto | discriminate]. Qed.

Lemma extract_features_error_302 kvs e :
  extract_features (JObject kvs) = Err e -> e = TypeError 302.
Proof.
  unfold extract_features. intros Hx.
  repeat match type of Hx with
         | res_bind ?c _ = Err _ =>
             let Hc := fresh "Hc" in
             destruct c eqn:Hc; cbn [res_bind] in Hx; [|injection Hx as ->]
         end; try discriminate;
    try (eapply getters_302; [|eassumption]; intros [] ? Hg; simpl in Hg; congruence).
  match goal with Hc : (if _ then _ else _) = Err _ |- _ => revert Hc end.
  simpl. destruct (Json.find_key "payload_hex" kvs) as [[]|]; simpl; congruence.
Qed.

Lemma extract_features_fields_ok kvs f k v :
  extract_features (JObject kvs) = Ok f -> Json.find_key k kvs = Some v -> field_ok k v = true.
Proof.
  intros Hx Hv. unfold extract_features in Hx. res_inv Hx. unfold field_ok. cbn [existsb].
  repeat match goal with
         | |- context [String.eqb k ?s] => destruct (String.eqb_spec k s) as [->|_]
         end;
    cbn [orb]; try reflexivity;
    try (match goal with
         | Ha : Json.value _ _ _ (JObject kvs) = Ok _ |- _ =>
             rewrite (Json.value_present _ _ _ _ _ Hv) in Ha
         end; destruct v; simpl in *; congruence).
  simpl in *. rewrite Hv in *. destruct v; simpl in *; congruence.
Qed.

Lemma extract_features_bad_field_302 kvs k v :
  Json.find_key k kvs = Some v -> field_ok k v = false ->
  extract_features (JObject kvs) = Err (TypeError 302).
Proof.
  intros Hv Hbad. destruct (extract_features (JObject kvs)) as [f|e] eqn:Hx.
  - by rewrite (extract_features_fields_ok _ _ _ _ Hx Hv) in Hbad.
  - by rewrite (extract_features_error_302 _ _ Hx).
Qed.

(** C37. A member of the wrong type (a string TTL, a numeric address, a
    boolean rate, ...) does not take the default, contrary to the
    specification's "missing/invalid fields take defaults": the whole
    record is rejected with [type_error] 302, which [process_message]
    treats as a malformed message. *)
Theorem extract_features_bad_field kvs k v :
  Json.find_key k kvs = Some v -> field_ok k v = false ->
  extract_features (JObject kvs) = Err (TypeError 302).
Proof. exact (extract_features_bad_field_302 kvs k v). Qed.

Lemma value_Ok_inv {A} (get : json -> res json_exception A) k d j a :
  Json.value get k d j = Ok a -> a = d \/ exists v, get v = Ok a.
Proof.
  destruct j; simpl; try discriminate.
  destruct (Json.find_key k kvs); [eauto | intros [= ->]; auto].
Qed.

Lemma payload_entropy_typed kvs :
  (forall v, Json.find_key "payload_hex" kvs = Some v -> is_string v = true) ->
  exists h, (if Json.contains "payload_hex" (JObject kvs)
             then let! hex := Json.get_string (Json.index "payload_hex" (JObject kvs)) in
                  Ok (compute_entropy hex)
             else Ok 0%float) = Ok h.
Proof.
  intros Hs. simpl. destruct (Json.find_key "payload_hex" kvs) as [v|] eqn:Hv; [|eauto].
  specialize (Hs v eq_refl). destruct v; try discriminate. simpl. eauto.
Qed.

(** C27. Type correctness of the reader: [extract_features] succeeds on an
    object exactly when the object is well typed for it, i.e. every field
    of the table that is present holds a JSON value of a type the
    [get<T>()] of its member accepts (a string for the addresses, the
    protocol and [payload_hex], a number or a boolean for the integer
    fields, a number for [pkt_rate]); absent fields and unknown keys never
    make it fail. *)
Theorem extract_features_typed kvs :
  (exists f, extract_features (JObject kvs) = Ok f) <-> packet_typed kvs = true.
Proof.
  split.
  - intros [f Hx]. apply forallb_forall. intros k _.
    destruct (Json.find_key k kvs) eqn:Hv; [exact (extract_features_fields_ok _ _ _ _ Hx Hv)|done].
  - intros Ht. pose proof (packet_typed_key kvs) as Hk. unfold extract_features.
    repeat match goal with
    | |- exists f, res_bind (Json.value ?g ?k ?d (JObject kvs)) _ = Ok f =>
        let a := fresh "a" in
        destruct (value_typed g (field_ok k) k d kvs) as [a ->];
        [intros [] Hv; simpl in Hv; try discriminate; eexists; reflexivity
        |intros v; apply Hk; [exact Ht | simpl; tauto]|]; cbn [res_bind]
    | |- exists f, res_bind (if Json.contains "payload_hex" (JObject kvs) then _ else _) _ = Ok f =>
        let h := fresh "h" in
        destruct (payload_entropy_typed kvs) as [h ->];
        [intros v; apply Hk; [exact Ht | simpl; tauto]|]; cbn [res_bind]
    end.
    eexists. reflexivity.
Qed.

(** C28. Every [PacketFeatures] that [extract_features] returns inhabits
    the C++ struct: the ports are [uint16_t] values, [payload_len] a
    [uint32_t] value and the TTL and flags [uint8_t] values, whatever
    number the JSON held (negative, huge, fractional or a boolean). *)
Theorem extract_features_in_range pkt f :
  extract_features pkt = Ok f -> features_in_range f.
Proof.
  intros Hx. unfold extract_features in Hx. res_inv Hx. injection Hx as <-.
  unfold features_in_range, Int.to_uint16, Int.to_uint8; cbn [src_port dst_port payload_len ttl tcp_flags].
  assert (Hw : forall w z, 0 <= w -> 0 <= Int.wrap w z < 2 ^ w) by exact Int.wrap_range.
  repeat split; try (apply Hw; lia).
  all: match goal with
       | Ha : Json.value Json.get_uint "payload_len" _ _ = Ok ?a |- _ <= ?a =>
           destruct (value_Ok_inv _ _ _ _ _ Ha) as [->|[v Hv]]; [lia | exact (proj1 (get_uint_range _ _ Hv))]
       | Ha : Json.value Json.get_uint "payload_len" _ _ = Ok ?a |- ?a < _ =>
           destruct (value_Ok_inv _ _ _ _ _ Ha) as [->|[v Hv]]; [lia | exact (proj2 (get_uint_range _ _ Hv))]
       end.
Qed.
End WithLibm.
End ExtractSpec.

(** ** The scenarios of the specification, and witnesses *)

Module Scenarios.
Import Packet PacketParser ScoreSpec ExtractSpec.
Open Scope Z_scope.

(** [{dst_port:4444, ttl:5, tcp_flags:0x02, payload_len:0, pkt_rate:0}] *)
Definition syn_scan_pkt : json :=
  JObject [("dst_port", JUInt 4444); ("ttl", JUInt 5); ("tcp_flags", JUInt 2);
           ("payload_len", JUInt 0); ("pkt_rate", JUInt 0)]%string.

(** Port, TTL, rate and size rules: 0.30 + 0.15 + 0.20 + 0.10. *)
Definition rounding_pkt : json :=
  JObject [("dst_port", JUInt 4444); ("ttl", JUInt 5); ("pkt_rate", JUInt 20000);
           ("payload_len", JUInt 70000)]%string.

Section WithLibm.
Context `{LM : Libm}.

(** The scenario of the specification: suspicious port, TTL 5 and a
    SYN-only empty packet score 0.30 + 0.15 + 0.25 = 0.7, "high", with
    the three reasons in table order. *)
Theorem syn_scan_scenario :
  res_map score (extract_features syn_scan_pkt) =
  Ok {| Anomaly.source_ip := "0.0.0.0"; Anomaly.destination_ip := "0.0.0.0";
        Anomaly.protocol := "UNKNOWN"; Anomaly.score := 0.7;
        Anomaly.severity := "high";
        Anomaly.description :=
          "Detected: suspicious dst_port=4444; abnormal TTL=5; SYN-only pkt (possible SYN flood)." |}%string.
Proof. by_eval. Qed.

(** The rounding case is reachable from a JSON record: the exact
    table gives 75 points ("critical"), the code 0.7499999999999999 and
    "high". *)
Theorem rounding_case_scenario :
  res_map (fun f => (fired f, spec_points (fired f), score f)) (extract_features rounding_pkt) =
  Ok (ROUNDING_CASE, 75,
      {| Anomaly.source_ip := "0.0.0.0"; Anomaly.destination_ip := "0.0.0.0";
         Anomaly.protocol := "UNKNOWN"; Anomaly.score := 0.7499999999999999;
         Anomaly.severity := "high";
         Anomaly.description :=
           "Detected: suspicious dst_port=4444; abnormal TTL=5; excessive pkt_rate=20000; oversized payload=70000." |})%string.
Proof. by_eval. Qed.

(** An empty record is benign: score 0, "low", the fixed sentence. *)
Theorem benign_scenario :
  res_map score (extract_features (JObject [])) =
  Ok {| Anomaly.source_ip := "0.0.0.0"; Anomaly.destination_ip := "0.0.0.0";
        Anomaly.protocol := "UNKNOWN"; Anomaly.score := 0;
        Anomaly.severity := "low"; Anomaly.description := "No anomalies detected." |}%string.
Proof. by_eval. Qed.
End WithLibm.

Lemma extract_features_defaults_witness :
  (forall k, In k FIELD_KEYS -> Json.find_key k [("flow_id", JUInt 7)]%string = None) /\
  extract_features (LM := pow2_libm) (JObject [("flow_id", JUInt 7)]%string) = Ok default_features.
Proof.
  assert (Hk : forall k, In k FIELD_KEYS -> Json.find_key k [("flow_id", JUInt 7)]%string = None).
  { intros k Hk. repeat (destruct Hk as [<-|Hk]; [reflexivity|]). destruct Hk. }
  split; [exact Hk | exact (extract_features_defaults _ Hk)].
Defined.

Definition syn_scan_features : PacketFeatures :=
  {| source_ip := "0.0.0.0"; destination_ip := "0.0.0.0"; protocol := "UNKNOWN";
     src_port := 0; dst_port := 4444; payload_len := 0; ttl := 5; tcp_flags := 2;
     payload_entropy := 0; pkt_rate := 0 |}%string.

Lemma severity_monotone_witness :
  (Anomaly.score (score default_features) <=? Anomaly.score (score syn_scan_features))%float = true /\
  (severity_rank (Anomaly.severity (score default_features))
     <= severity_rank (Anomaly.severity (score syn_scan_features)))%nat.
Proof. split; [by_eval | apply severity_monotone; by_eval]. Defined.

Definition wrap_kvs : list (string * json) :=
  [("dst_port", JUInt 69980); ("ttl", JUInt 261)]%string.

Lemma extract_features_wraps_witness :
  match extract_features (LM := pow2_libm) (JObject wrap_kvs) with
  | Ok f => dst_port f = 4444 /\ ttl f = 5 /\ suspicious_port f = true /\ abnormal_ttl f = true
  | Err _ => False
  end.
Proof.
  destruct (extract_features (LM := pow2_libm) (JObject wrap_kvs)) as [f|e] eqn:Hx;
    [|vm_compute in Hx; discriminate].
  destruct (extract_features_wraps wrap_kvs f Hx) as [Hp Ht].
  unfold suspicious_port, abnormal_ttl.
  rewrite (Hp 69980), (Ht 261) by (left; reflexivity). repeat split.
Defined.

Lemma extract_features_bad_field_witness :
  Json.find_key "ttl" [("ttl", JString "x")]%string = Some (JString "x") /\
  field_ok "ttl" (JString "x") = false /\
  extract_features (LM := pow2_libm) (JObject [("ttl", JString "x")]%string) = Err (TypeError 302).
Proof.
  split; [reflexivity | split; [reflexivity | apply (extract_features_bad_field _ "ttl" (JString "x")); reflexivity]].
Defined.
Lemma extract_features_in_range_witness :
  match extract_features (LM := pow2_libm) (JObject wrap_kvs) with
  | Ok f => extract_features (LM := pow2_libm) (JObject wrap_kvs) = Ok f /\ features_in_range f
  | Err _ => False
  end.
Proof.
  destruct (extract_features (LM := pow2_libm) (JObject wrap_kvs)) as [f|e] eqn:Hx;
    [|vm_compute in Hx; discriminate].
  split; [reflexivity | exact (extract_features_in_range _ f Hx)].
Defined.
End Scenarios.
