(* ===== verification/Regex.v ===== *)
(** * [IPV4_RE] (packet_parser.cpp lines 23-25) and the regex matcher

    [std::regex] with the default ECMAScript grammar, restricted to the
    constructs of [IPV4_RE]: characters, bracket ranges ([\d] is [[0-9]]),
    concatenation, alternation, the greedy [?] and the counted repetition
    [{n}].  [std::regex_match] succeeds when some path of the backtracking
    matcher consumes the whole input (libstdc++ keeps backtracking past a
    partial match in that mode); the anchors [^] and [$] of the pattern are
    then satisfied by construction.  The matcher returns the remainders of
    the input after each path, in the order the backtracking tries them.

    The program declares [IPV4_RE] and never uses it; the theorems say
    which strings it would accept. *)

From Stdlib Require Import Ascii String Lia.
From stdpp Require Import base list.
From S2P Require Import Prelude.

Module Regex.

Inductive re :=
| RChar (c : ascii)
| RRange (lo hi : ascii)
| RSeq (r1 r2 : re)
| RAlt (r1 r2 : re)
| ROpt (r : re)
| RRep (n : nat) (r : re).

Definition in_range (lo hi x : ascii) : bool :=
  (nat_of_ascii lo <=? nat_of_ascii x) && (nat_of_ascii x <=? nat_of_ascii hi).

(** The backtracking matcher: the remainders after each way [r] can match
    a prefix of the input. *)
Fixpoint matches (r : re) (s : list ascii) : list (list ascii) :=
  match r with
  | RChar c => match s with x :: t => if Ascii.eqb x c then [t] else [] | [] => [] end
  | RRange lo hi => match s with x :: t => if in_range lo hi x then [t] else [] | [] => [] end
  | RSeq r1 r2 => flat_map (matches r2) (matches r1 s)
  | RAlt r1 r2 => matches r1 s ++ matches r2 s
  | ROpt r => matches r s ++ [s]
  | RRep n r =>
      (fix rep (k : nat) (s : list ascii) : list (list ascii) :=
         match k with
         | O => [s]
         | S k => flat_map (rep k) (matches r s)
         end) n s
  end.

(** [std::regex_match(s, r)]. *)
Definition regex_match (r : re) (s : string) : bool :=
  existsb (fun t => if t is [] then true else false) (matches r (list_ascii_of_string s)).

(** The language of a pattern. *)
Inductive lang : re -> list ascii -> Prop :=
| LChar c : lang (RChar c) [c]
| LRange lo hi x : in_range lo hi x = true -> lang (RRange lo hi) [x]
| LSeq r1 r2 w1 w2 : lang r1 w1 -> lang r2 w2 -> lang (RSeq r1 r2) (w1 ++ w2)
| LAltL r1 r2 w : lang r1 w -> lang (RAlt r1 r2) w
| LAltR r1 r2 w : lang r2 w -> lang (RAlt r1 r2) w
| LOptSome r w : lang r w -> lang (ROpt r) w
| LOptNone r : lang (ROpt r) []
| LRep0 r : lang (RRep 0 r) []
| LRepS n r w1 w2 : lang r w1 -> lang (RRep n r) w2 -> lang (RRep (S n) r) (w1 ++ w2).

(** ** The matcher computes the language *)

Lemma matches_spec r : forall s t,
  In t (matches r s) <-> exists w, s = w ++ t /\ lang r w.
Proof.
  induction r as [c|lo hi|r1 IH1 r2 IH2|r1 IH1 r2 IH2|r IH|n r IH]; intros s t; simpl.
  - split.
    + destruct s as [|x s]; [done|]. destruct (Ascii.eqb_spec x c) as [->|]; [|done].
      intros [<-|[]]. exists [c]. split; [done|constructor].
    + intros (w & -> & Hw). inversion Hw; subst. simpl. rewrite Ascii.eqb_refl. by left.
  - split.
    + destruct s as [|x s]; [done|]. destruct (in_range lo hi x) eqn:E; [|done].
      intros [<-|[]]. exists [x]. split; [done|by constructor].
    + intros (w & -> & Hw). inversion Hw as [| ? ? ? Hx | | | | | | |]; subst. simpl.
      rewrite Hx. by left.
  - rewrite in_flat_map. split.
    + intros (m & Hm & Ht). apply IH1 in Hm as (w1 & -> & H1).
      apply IH2 in Ht as (w2 & -> & H2).
      exists (w1 ++ w2). split; [by rewrite app_assoc | by constructor].
    + intros (w & -> & Hw). inversion Hw; subst. exists (w2 ++ t). split.
      * apply IH1. exists w1. split; [by rewrite app_assoc | done].
      * apply IH2. eauto.
  - rewrite in_app_iff, IH1, IH2. split.
    + intros [(w & -> & Hw)|(w & -> & Hw)]; exists w; split; auto using lang.
    + intros (w & -> & Hw). inversion Hw; subst; [left|right]; eauto.
  - rewrite in_app_iff, IH. simpl. split.
    + intros [(w & -> & Hw)|[<-|[]]]; [exists w | exists []]; split; auto using lang.
    + intros (w & -> & Hw). inversion Hw; subst; [left; eauto | right; by left].
  - induction n as [|n IHn] in s, t |- *; simpl.
    + split.
      * intros [<-|[]]. exists []. split; [done|constructor].
      * intros (w & -> & Hw). inversion Hw; subst. by left.
    + rewrite in_flat_map. split.
      * intros (m & Hm & Ht). apply IH in Hm as (w1 & -> & H1).
        apply IHn in Ht as (w2 & -> & H2).
        exists (w1 ++ w2). split; [by rewrite app_assoc | by constructor].
      * intros (w & -> & Hw). inversion Hw; subst. exists (w2 ++ t). split.
        -- apply IH. exists w1. split; [by rewrite app_assoc | done].
        -- apply IHn. eauto.
Qed.

(** Whether some path consumes all of [w]. *)
Definition full (r : re) (w : list ascii) : bool :=
  existsb (fun t => if t is [] then true else false) (matches r w).

Lemma full_spec r w : full r w = true <-> lang r w.
Proof.
  unfold full. rewrite existsb_exists. split.
  - intros ([|c t] & Ht & Hnil); [|done].
    apply matches_spec in Ht as (w' & -> & Hw). by rewrite app_nil_r.
  - intros Hl. exists []. split; [|done]. apply matches_spec. exists w. by rewrite app_nil_r.
Qed.

(** ** What a pattern can match: lengths and characters *)

Fixpoint min_len (r : re) : nat :=
  match r with
  | RChar _ | RRange _ _ => 1
  | RSeq a b => min_len a + min_len b
  | RAlt a b => Nat.min (min_len a) (min_len b)
  | ROpt _ => 0
  | RRep n a => n * min_len a
  end.

Fixpoint max_len (r : re) : nat :=
  match r with
  | RChar _ | RRange _ _ => 1
  | RSeq a b => max_len a + max_len b
  | RAlt a b => Nat.max (max_len a) (max_len b)
  | ROpt a => max_len a
  | RRep n a => n * max_len a
  end.

Fixpoint allowed (r : re) (c : ascii) : bool :=
  match r with
  | RChar d => Ascii.eqb c d
  | RRange lo hi => in_range lo hi c
  | RSeq a b | RAlt a b => allowed a c || allowed b c
  | ROpt a | RRep _ a => allowed a c
  end.

Lemma Forall_allowed_or (p q : ascii -> bool) w :
  Forall (fun c => p c = true) w -> Forall (fun c => p c || q c = true) w /\
                                    Forall (fun c => q c || p c = true) w.
Proof.
  intros H. split; eapply Forall_impl; try exact H; intros c Hc; by rewrite Hc, ?orb_true_r.
Qed.

Lemma lang_shape r w :
  lang r w -> min_len r <= length w <= max_len r /\ Forall (fun c => allowed r c = true) w.
Proof.
  induction 1 as [c|lo hi x Hx|r1 r2 w1 w2 _ [H1 F1] _ [H2 F2]|r1 r2 w _ [H F]
                 |r1 r2 w _ [H F]|r w _ [H F]|r|r|n r w1 w2 _ [H1 F1] _ [H2 F2]];
    simpl; rewrite ?length_app.
  - split; [lia|]. constructor; [apply Ascii.eqb_refl | constructor].
  - split; [lia|]. by repeat constructor.
  - split; [lia|]. apply Forall_app. split.
    + exact (proj1 (Forall_allowed_or _ (allowed r2) _ F1)).
    + exact (proj2 (Forall_allowed_or _ (allowed r1) _ F2)).
  - split; [lia|]. exact (proj1 (Forall_allowed_or _ (allowed r2) _ F)).
  - split; [lia|]. exact (proj2 (Forall_allowed_or _ (allowed r1) _ F)).
  - split; [lia | exact F].
  - split; [lia | constructor].
  - split; [lia | constructor].
  - simpl in H2. split; [lia|]. apply Forall_app. split; [exact F1 | exact F2].
Qed.

Lemma lang_seq_inv r1 r2 w :
  lang (RSeq r1 r2) w -> exists w1 w2, w = w1 ++ w2 /\ lang r1 w1 /\ lang r2 w2.
Proof. inversion 1; subst. eauto. Qed.

Lemma lang_rep_inv n r w :
  lang (RRep (S n) r) w -> exists w1 w2, w = w1 ++ w2 /\ lang r w1 /\ lang (RRep n r) w2.
Proof. inversion 1; subst. eauto. Qed.

Lemma lang_rep0_inv r w : lang (RRep 0 r) w -> w = [].
Proof. by inversion 1. Qed.

Lemma lang_char_inv c w : lang (RChar c) w -> w = [c].
Proof. by inversion 1. Qed.

(** ** [IPV4_RE] *)

Definition digit : re := RRange "0" "9".

(** [(25[0-5]|2[0-4]\d|[01]?\d\d?)] *)
Definition octet : re :=
  RAlt (RSeq (RChar "2") (RSeq (RChar "5") (RRange "0" "5")))
       (RAlt (RSeq (RChar "2") (RSeq (RRange "0" "4") digit))
             (RSeq (ROpt (RRange "0" "1")) (RSeq digit (ROpt digit)))).

(** [^((octet)\.){3}(octet)$] *)
Definition IPV4_RE : re := RSeq (RRep 3 (RSeq octet (RChar "."))) octet.

(** The decimal numbers from 0 to 255, written with one to three digits,
    leading zeros allowed. *)
Definition is_digit (c : ascii) : bool := in_range "0" "9" c.

Definition digits_value (w : list ascii) : nat :=
  fold_left (fun acc c => 10 * acc + (nat_of_ascii c - 48)) w 0.

Definition octet_ok (w : list ascii) : bool :=
  (1 <=? length w) && (length w <=? 3) && forallb is_digit w && (digits_value w <=? 255).

Definition digit_chars : list ascii := map (fun d => ascii_of_nat (48 + d)) (seq 0 10).

Fixpoint words (n : nat) : list (list ascii) :=
  match n with
  | O => [[]]
  | S n => flat_map (fun c => map (cons c) (words n)) digit_chars
  end.

Lemma is_digit_chars c : is_digit c = true -> existsb (Ascii.eqb c) digit_chars = true.
Proof. destruct c as [[] [] [] [] [] [] [] []]; vm_compute; auto. Qed.

Lemma allowed_octet c : allowed octet c = true -> is_digit c = true.
Proof. destruct c as [[] [] [] [] [] [] [] []]; vm_compute; auto. Qed.

Lemma words_complete w : Forall (fun c => is_digit c = true) w -> In w (words (length w)).
Proof.
  induction 1 as [|c w Hc _ IH]; [by left|].
  change (words (length (c :: w))) with
    (flat_map (fun c => map (cons c) (words (length w))) digit_chars).
  apply in_flat_map.
  apply is_digit_chars, existsb_exists in Hc as (d & Hd & Hcd).
  apply Ascii.eqb_eq in Hcd as ->. exists d. split; [done|]. by apply in_map.
Qed.

(** The matcher agrees with [octet_ok] on every digit string of one to
    three characters (1110 strings, checked by evaluation). *)
Lemma octet_table :
  forallb (fun w => Bool.eqb (full octet w) (octet_ok w)) (words 1 ++ words 2 ++ words 3) = true.
Proof. vm_compute. reflexivity. Qed.

Lemma octet_words w :
  Forall (fun c => is_digit c = true) w -> 1 <= length w <= 3 -> full octet w = octet_ok w.
Proof.
  intros Hd Hl. apply Bool.eqb_prop.
  apply (forallb_In_true _ _ _ octet_table). rewrite !in_app_iff.
  pose proof (words_complete w Hd) as Hw.
  destruct (length w) as [|[|[|[|n]]]]; [lia| | | |lia]; auto.
Qed.

Lemma octet_lang w : lang octet w <-> octet_ok w = true.
Proof.
  split.
  - intros Hl. destruct (lang_shape _ _ Hl) as [Hlen Ha]. simpl in Hlen.
    assert (Hd : Forall (fun c => is_digit c = true) w)
      by (eapply Forall_impl; [exact Ha | exact allowed_octet]).
    rewrite <- (octet_words w Hd) by lia. by apply full_spec.
  - intros Hok. apply full_spec. rewrite octet_words; [exact Hok| |].
    + unfold octet_ok in Hok. apply andb_prop in Hok as [Hok _].
      apply andb_prop in Hok as [_ Hd]. apply Forall_forall. intros c Hc.
      apply (forallb_In_true _ _ _ Hd). by apply list_elem_of_In.
    + unfold octet_ok in Hok. apply andb_prop in Hok as [Hok _].
      apply andb_prop in Hok as [Hok _]. apply andb_prop in Hok as [H1 H3].
      apply Nat.leb_le in H1, H3. lia.
Qed.

(** C40. [IPV4_RE] accepts exactly the dotted quads of decimal octets:
    [std::regex_match(s, IPV4_RE)] holds if and only if [s] is four
    strings of one to three decimal digits, each of value at most 255,
    separated by dots.  Leading zeros are accepted ([010.0.0.001]). *)
Theorem ipv4_re_spec s :
  regex_match IPV4_RE s = true <->
  exists o1 o2 o3 o4,
    list_ascii_of_string s = o1 ++ "."%char :: o2 ++ "."%char :: o3 ++ "."%char :: o4 /\
    octet_ok o1 = true /\ octet_ok o2 = true /\ octet_ok o3 = true /\ octet_ok o4 = true.
Proof.
  change (regex_match IPV4_RE s) with (full IPV4_RE (list_ascii_of_string s)).
  rewrite full_spec. split.
  - intros Hl. apply lang_seq_inv in Hl as (a & o4 & -> & Ha & H4).
    apply lang_rep_inv in Ha as (x1 & a1 & -> & Hx1 & Ha1).
    apply lang_rep_inv in Ha1 as (x2 & a2 & -> & Hx2 & Ha2).
    apply lang_rep_inv in Ha2 as (x3 & a3 & -> & Hx3 & Ha3).
    apply lang_rep0_inv in Ha3 as ->.
    apply lang_seq_inv in Hx1 as (o1 & d1 & -> & H1 & ->%lang_char_inv).
    apply lang_seq_inv in Hx2 as (o2 & d2 & -> & H2 & ->%lang_char_inv).
    apply lang_seq_inv in Hx3 as (o3 & d3 & -> & H3 & ->%lang_char_inv).
    exists o1, o2, o3, o4. rewrite <- !octet_lang. split; [|auto].
    by rewrite app_nil_r, <- !app_assoc.
  - intros (o1 & o2 & o3 & o4 & -> & H1 & H2 & H3 & H4). rewrite <- octet_lang in H1, H2, H3, H4.
    replace (o1 ++ "."%char :: o2 ++ "."%char :: o3 ++ "."%char :: o4) with
      (((o1 ++ ["."%char]) ++ (o2 ++ ["."%char]) ++ (o3 ++ ["."%char]) ++ []) ++ o4)
      by (by rewrite app_nil_r, <- !app_assoc).
    apply LSeq; [|exact H4].
    apply LRepS; [apply LSeq; [exact H1 | apply LChar]|].
    apply LRepS; [apply LSeq; [exact H2 | apply LChar]|].
    apply LRepS; [apply LSeq; [exact H3 | apply LChar]|].
    apply LRep0.
Qed.

End Regex.
