(* ===== verification/Worker.v ===== *)
(** * The per-message task: [post_anomaly] and [process_message] (main.cpp)

    [process_message] is the closure each pool worker runs for one stream
    entry.  It parses the payload, extracts the features, scores them,
    posts the result to the sink when the score is positive, and sends
    [XACK] on the shared acknowledge connection under the mutex [mtx]; a
    [json::exception] anywhere in parsing or extraction is caught, logged,
    and the entry is acknowledged as well.

    - The sink is an abstract transport ([Sink]): the function [send] gives
      the outcome of [curl_easy_perform] and [CURLINFO_RESPONSE_CODE] for a
      request, or the failure of [curl_easy_init].  [post_anomaly] builds
      the request the code builds (URL, JSON body, the two headers, the
      5-second timeout) and returns the code's success test.
    - The JSON text parser is the [JsonParser] class: the library's
      [json::parse], which throws [parse_error].
    - [process_message] returns the trace of its externally visible
      effects, in order (the POST, the log lines on [std::cerr], the [XACK]
      command), and which of the three exits of the function it took.
      The [XACK] is one atomic effect: it is issued while [mtx] is held,
      and the mutex is released when the command returns. *)

From Stdlib Require Import ZArith Lia Floats Ascii String.
From stdpp Require Import base list strings.
From S2P Require Import Prelude CNum Json Entropy PacketParser.

Set Warnings "-inexact-float".

(** [json::parse]: a document or [parse_error]. *)
Class JsonParser := { json_parse : string -> res json_exception json }.

Module Sink.
Open Scope string_scope.

(** What the code configures on the curl handle. *)
Record request := mkRequest {
  url : string;
  body : json;
  headers : list string;
  timeout_s : Z
}.

(** What the transport reports: [curl_easy_init] failed, or
    [curl_easy_perform] failed with a [CURLcode], or it completed with an
    HTTP status. *)
Inductive curl_outcome :=
| CurlInitFailed
| CurlFailed (rc : Z)
| CurlDone (http_code : Z).

(** The JSON body of the POST. *)
Definition anomaly_body (r : Anomaly.AnomalyResult) : json :=
  JObject [("anomaly", JObject [
    ("source_ip", JString (Anomaly.source_ip r));
    ("destination_ip", JString (Anomaly.destination_ip r));
    ("protocol", JString (Anomaly.protocol r));
    ("severity", JString (Anomaly.severity r));
    ("score", JFloat (Anomaly.score r));
    ("description", JString (Anomaly.description r))])].

Definition anomaly_request (r : Anomaly.AnomalyResult) (api_url token : string) : request :=
  {| url := api_url;
     body := anomaly_body r;
     headers := ["Content-Type: application/json"; "X-Worker-Token: " ++ token];
     timeout_s := 5 |}.

(** [post_anomaly]: success only on a completed transfer with status
    201. *)
Definition post_anomaly (send : request -> curl_outcome) (r : Anomaly.AnomalyResult)
    (api_url token : string) : bool :=
  match send (anomaly_request r api_url token) with
  | CurlDone code => (code =? 201)%Z
  | _ => false
  end.
End Sink.

Module Worker.
Import Sink.
Open Scope string_scope.

(** The effects of a task that another component can observe. *)
Inductive effect :=
| EPost (req : request) (ok : bool)
| ELog (line : string)
| ELogJsonError (stream_id : string) (e : json_exception)
| EAck (stream group id : string).

(** The three exits of [process_message]: the normal end after [XACK],
    the [return] after a failed POST, and the [catch] after [XACK]. *)
Inductive outcome :=
| Acknowledge
| LeaveUnacknowledged
| AcknowledgeAfterParseFailure.

#[export] Instance outcome_eq_dec : EqDecision outcome.
Proof. solve_decision. Defined.

(** The task's configuration, bound by [pool.enqueue]. *)
Record config := mkConfig {
  api_url : string;
  worker_token : string;
  stream_name : string;
  consumer_group : string
}.

(** The line feed that ends a log line. *)
Definition nl : string := String (Ascii.ascii_of_nat 10) EmptyString.

Section Task.
Context `{LM : Libm} `{JP : JsonParser}.

Definition xack (c : config) (stream_id : string) : effect :=
  EAck (stream_name c) (consumer_group c) stream_id.

(** [process_message]. *)
Definition process_message (send : request -> curl_outcome) (c : config)
    (stream_id payload : string) : list effect * outcome :=
  match (let! pkt := json_parse payload in PacketParser.extract_features pkt) with
  | Err e => ([ELogJsonError stream_id e; xack c stream_id], AcknowledgeAfterParseFailure)
  | Ok features =>
      let result := PacketParser.score features in
      if (0 <? Anomaly.score result)%float then
        let ok := post_anomaly send result (api_url c) (worker_token c) in
        let post := EPost (anomaly_request result (api_url c) (worker_token c)) ok in
        if ok then ([post; xack c stream_id], Acknowledge)
        else ([post; ELog ("[worker] POST failed for stream_id=" ++ stream_id ++ nl)],
              LeaveUnacknowledged)
      else ([xack c stream_id], Acknowledge)
  end.
End Task.
End Worker.

(** ** Properties of the task *)

Module WorkerSpec.
Import Sink Worker Packet ScoreSpec ExtractSpec.

Definition is_ack (e : effect) : bool := if e is EAck _ _ _ then true else false.

Section S.
Context `{LM : Libm} `{JP : JsonParser}.

(** The four traces of [process_message]. *)
Lemma process_message_cases send c sid payload :
  (exists e, process_message send c sid payload =
             ([ELogJsonError sid e; xack c sid], AcknowledgeAfterParseFailure)) \/
  (exists req, process_message send c sid payload = ([EPost req true; xack c sid], Acknowledge)) \/
  (exists req line, process_message send c sid payload =
                    ([EPost req false; ELog line], LeaveUnacknowledged)) \/
  process_message send c sid payload = ([xack c sid], Acknowledge).
Proof.
  unfold process_message.
  destruct (let! pkt := json_parse payload in PacketParser.extract_features pkt) as [f|e].
  - destruct (0 <? _)%float; [|auto].
    destruct (post_anomaly _ _ _ _); eauto 6.
  - eauto.
Qed.

(** With a sink that completes every request with 201, every task ends
    with the [XACK] of its own entry, after effects that acknowledge
    nothing. *)
Lemma process_message_sink_up send c sid payload :
  (forall req, send req = CurlDone 201) ->
  exists pre, (process_message send c sid payload).1 = (pre ++ [xack c sid])%list /\
              Forall (fun e => is_ack e = false) pre.
Proof.
  intros Hup. unfold process_message.
  destruct (let! pkt := json_parse payload in PacketParser.extract_features pkt) as [f|e].
  - destruct (0 <? _)%float; [|by exists []].
    unfold post_anomaly. rewrite Hup. cbn. eexists [_]. split; [reflexivity|by repeat constructor].
  - eexists [_]. split; [reflexivity|by repeat constructor].
Qed.

(** C1. Each task acknowledges its own entry exactly once, except when
    its POST to the sink failed, where it acknowledges nothing; and it
    leaves the entry unacknowledged exactly when a POST failed. *)
Theorem process_message_acks_once send c sid payload :
  let '(tr, o) := process_message send c sid payload in
  count_if is_ack tr = (if decide (o = LeaveUnacknowledged) then 0%nat else 1%nat) /\
  Forall (fun e => is_ack e = true -> e = xack c sid) tr /\
  (o = LeaveUnacknowledged <-> exists req, In (EPost req false) tr).
Proof.
  destruct (process_message_cases send c sid payload)
    as [[e ->]|[[req ->]|[(req & line & ->)| ->]]];
    (split; [reflexivity|]); (split; [repeat constructor; intros Hk; first [discriminate Hk | reflexivity]|]);
    split; intros Ho.
  all: try discriminate Ho; try reflexivity; try (exists req; left; reflexivity).
  all: destruct Ho as [r Hr]; unfold xack in Hr; simpl in Hr; intuition congruence.
Qed.

(** C26. Within a task, a POST always precedes the acknowledgement:
    the entry is never acknowledged before its anomaly was delivered. *)
Theorem process_message_post_before_ack send c sid payload i j req ok st g m :
  (process_message send c sid payload).1 !! i = Some (EPost req ok) ->
  (process_message send c sid payload).1 !! j = Some (EAck st g m) ->
  (i < j)%nat.
Proof.
  destruct (process_message_cases send c sid payload)
    as [[e ->]|[[r ->]|[(r & line & ->)| ->]]]; cbn [fst]; unfold xack;
    intros Hi Hj;
    repeat (destruct i as [|i]; simpl in Hi; try discriminate);
    repeat (destruct j as [|j]; simpl in Hj; try discriminate); lia.
Qed.

(** A record on which no rule fires is acknowledged without any
    call to the sink. *)
Theorem process_message_benign send c sid payload pkt f :
  json_parse payload = Ok pkt -> PacketParser.extract_features pkt = Ok f ->
  existsb id (fired f) = false ->
  process_message send c sid payload = ([xack c sid], Acknowledge).
Proof.
  intros Hp Hx Hf. unfold process_message. rewrite Hp. cbn [res_bind]. rewrite Hx.
  by rewrite score_positive_fired, Hf.
Qed.

(** C8. For a record on which some rule fires, the task POSTs the
    anomaly (the six fields, the token header, a 5-second timeout) to
    the configured URL, and acknowledges the entry exactly when the sink
    completed the request with status 201. *)
Theorem process_message_sink send c sid payload pkt f :
  json_parse payload = Ok pkt -> PacketParser.extract_features pkt = Ok f ->
  existsb id (fired f) = true ->
  let req := anomaly_request (PacketParser.score f) (api_url c) (worker_token c) in
  (exists ok, In (EPost req ok) (process_message send c sid payload).1) /\
  ((process_message send c sid payload).2 = Acknowledge <-> send req = CurlDone 201).
Proof.
  intros Hp Hx Hf req. unfold process_message. rewrite Hp. cbn [res_bind]. rewrite Hx.
  rewrite score_positive_fired, Hf. unfold post_anomaly. fold req.
  destruct (send req) as [|rc|code]; cbn [fst snd];
    try (split; [eexists; left; reflexivity | split; discriminate]).
  destruct (Z.eqb_spec code 201) as [->|Hne]; cbn [fst snd];
    (split; [eexists; left; reflexivity|]); split; congruence.
Qed.

(** A message whose record has a member of the wrong type is
    treated as malformed: it is logged and acknowledged, and never
    reaches the sink (the specification says such a field takes its
    default). *)
Theorem process_message_bad_field send c sid payload kvs k v :
  json_parse payload = Ok (JObject kvs) ->
  Json.find_key k kvs = Some v -> field_ok k v = false ->
  process_message send c sid payload =
    ([ELogJsonError sid (TypeError 302); xack c sid], AcknowledgeAfterParseFailure).
Proof.
  intros Hp Hv Hbad. unfold process_message. rewrite Hp. cbn [res_bind].
  by rewrite (extract_features_bad_field_302 _ _ _ Hv Hbad).
Qed.
End S.
End WorkerSpec.

(** ** Witnesses *)

Module WorkerWitness.
Import Sink Worker Packet ScoreSpec ExtractSpec Scenarios WorkerSpec.
Open Scope string_scope.

(** A parser that returns a fixed document, standing for [json::parse]
    on the text of that document. *)
Definition parser_of (doc : json) : JsonParser := {| json_parse := fun _ => Ok doc |}.

Definition cfg : config :=
  {| api_url := "http://localhost:3000/api/v1/anomalies"; worker_token := "dev-secret-change-me";
     stream_name := "anomaly:raw"; consumer_group := "analyzers" |}.

Definition sink_201 (_ : request) : curl_outcome := CurlDone 201.

Lemma process_message_post_before_ack_witness :
  let pm := @process_message pow2_libm (parser_of syn_scan_pkt) sink_201 cfg "1-0" "{}" in
  (exists req, pm.1 !! 0%nat = Some (EPost req true)) /\
  pm.1 !! 1%nat = Some (EAck "anomaly:raw" "analyzers" "1-0") /\ (0 < 1)%nat.
Proof.
  split; [eexists; vm_compute; reflexivity | split; [vm_compute; reflexivity|]].
  eapply (@process_message_post_before_ack pow2_libm (parser_of syn_scan_pkt) sink_201 cfg "1-0" "{}");
    vm_compute; reflexivity.
Defined.

Lemma process_message_benign_witness :
  @json_parse (parser_of (JObject [])) "{}" = Ok (JObject []) /\
  @PacketParser.extract_features pow2_libm (JObject []) = Ok default_features /\
  existsb id (fired default_features) = false /\
  @process_message pow2_libm (parser_of (JObject [])) sink_201 cfg "1-0" "{}" =
    ([xack cfg "1-0"], Acknowledge).
Proof.
  split; [reflexivity | split; [by_eval | split; [by_eval|]]].
  apply (process_message_benign _ _ _ _ (JObject []) default_features); by_eval.
Defined.

Lemma process_message_sink_witness :
  @json_parse (parser_of syn_scan_pkt) "{}" = Ok syn_scan_pkt /\
  @PacketParser.extract_features pow2_libm syn_scan_pkt = Ok syn_scan_features /\
  existsb id (fired syn_scan_features) = true /\
  (@process_message pow2_libm (parser_of syn_scan_pkt) sink_201 cfg "1-0" "{}").2 = Acknowledge.
Proof.
  split; [reflexivity | split; [by_eval | split; [by_eval|]]].
  destruct (@process_message_sink pow2_libm (parser_of syn_scan_pkt) sink_201 cfg "1-0" "{}"
              syn_scan_pkt syn_scan_features) as [_ Hiff]; [by_eval | by_eval | by_eval |].
  apply Hiff. reflexivity.
Defined.

Lemma process_message_bad_field_witness :
  @json_parse (parser_of (JObject [("ttl", JString "x")])) "{}" = Ok (JObject [("ttl", JString "x")]) /\
  Json.find_key "ttl" [("ttl", JString "x")] = Some (JString "x") /\
  field_ok "ttl" (JString "x") = false /\
  @process_message pow2_libm (parser_of (JObject [("ttl", JString "x")])) sink_201 cfg "1-0" "{}" =
    ([ELogJsonError "1-0" (TypeError 302); xack cfg "1-0"], AcknowledgeAfterParseFailure).
Proof.
  split; [reflexivity | split; [reflexivity | split; [reflexivity|]]].
  apply (process_message_bad_field _ _ _ _ [("ttl", JString "x")] "ttl" (JString "x"));
    reflexivity.
Defined.
End WorkerWitness.
