(* ===== verification/Redis.v ===== *)
(** * The stream store at its boundary: Redis streams and consumer groups

    The analyzer reaches Redis through hiredis: [redisCommand] sends a
    command and returns a [redisReply] tree, or [NULL] when the connection
    is broken.  The store is an external collaborator (spec.md section 1),
    so this file is written from the documented behaviour of the commands
    the analyzer issues, for the one stream and the one consumer group it
    uses:

    - [Resp]: the [redisReply] tree ([type], [str], [elements],
      [element]) with hiredis's conventions for the fields a reply of
      another type does not set: [elements] is 0 and [str] is [NULL];
    - [StreamId]: entry ids [<ms>-<seq>], their order, their decimal
      rendering and the parser the server applies to the ids it is given;
    - [Store]: the stream (its entries in id order and the last generated
      id), the group (its last-delivered id and its pending entries list,
      PEL) and the clock, with [XADD *], [XGROUP CREATE ... $ MKSTREAM],
      [XREADGROUP ... >] (with its [BLOCK] argument in
      [xreadgroup_block]), [XAUTOCLAIM] and [XACK].  Two ghost histories,
      [delivered] (every id [XREADGROUP] handed out, in order) and
      [ack_log] (every id argument of [XACK]), record what the consumer
      side's theorems talk about. *)

From Stdlib Require Import ZArith NArith Lia Ascii String Decimal DecimalN DecimalPos Sorted.
From stdpp Require Import base list strings.
From S2P Require Import Prelude CNum.

Module Resp.

(** [redisReply]: the reply types the analyzer can receive. *)
#[warnings="-register-all"]
Inductive reply :=
| RString (s : string)
| RStatus (s : string)
| RError (s : string)
| RInteger (n : Z)
| RNil
| RArray (elems : list reply).

(** [r->elements] and [r->element[..]]: empty unless [r] is an array. *)
Definition elements (r : reply) : list reply :=
  match r with RArray l => l | _ => [] end.

(** [r->str]: [None] stands for the [NULL] pointer. *)
Definition str (r : reply) : option string :=
  match r with RString s | RStatus s | RError s => Some s | _ => None end.
End Resp.

Module StreamId.
Open Scope N_scope.

(** An entry id [<ms>-<seq>]. *)
Definition id : Type := N * N.

Definition ltb (a b : id) : bool := (a.1 <? b.1) || ((a.1 =? b.1) && (a.2 <? b.2)).

Definition lt (a b : id) : Prop := ltb a b = true.

(** The decimal form the server prints. *)
Definition render (i : id) : string :=
  Fmt.uint_to_string (N.to_uint i.1) ++ "-" ++ Fmt.uint_to_string (N.to_uint i.2).

Definition digit_of (c : ascii) : option (uint -> uint) :=
  if Ascii.eqb c "0" then Some D0 else if Ascii.eqb c "1" then Some D1
  else if Ascii.eqb c "2" then Some D2 else if Ascii.eqb c "3" then Some D3
  else if Ascii.eqb c "4" then Some D4 else if Ascii.eqb c "5" then Some D5
  else if Ascii.eqb c "6" then Some D6 else if Ascii.eqb c "7" then Some D7
  else if Ascii.eqb c "8" then Some D8 else if Ascii.eqb c "9" then Some D9
  else None.

Fixpoint parse_uint (s : string) : option uint :=
  match s with
  | EmptyString => Some Nil
  | String c r => d ← digit_of c; u ← parse_uint r; Some (d u)
  end.

(** A non-empty run of decimal digits. *)
Definition parse_N (s : string) : option N :=
  match s with
  | EmptyString => None
  | _ => N.of_uint <$> parse_uint s
  end.

(** The text before the first [-], and what follows it if there is one. *)
Fixpoint split_dash (s : string) : string * option string :=
  match s with
  | EmptyString => (EmptyString, None)
  | String c r =>
      if Ascii.eqb c "-" then (EmptyString, Some r)
      else let '(a, b) := split_dash r in (String c a, b)
  end.

(** The server's parser of an explicit id: [<ms>-<seq>], or [<ms>] for
    [<ms>-0]. *)
Definition parse (s : string) : option id :=
  let '(a, b) := split_dash s in
  ms ← parse_N a;
  match b with
  | None => Some (ms, 0)
  | Some b => sq ← parse_N b; Some (ms, sq)
  end.

(** ** Printing and parsing ids *)

Lemma parse_uint_to_string u : parse_uint (Fmt.uint_to_string u) = Some u.
Proof. induction u; simpl; rewrite ?IHu; reflexivity. Qed.

Lemma uint_to_string_N_nonempty n : Fmt.uint_to_string (N.to_uint n) <> EmptyString.
Proof.
  destruct n as [|p]; [discriminate|]. simpl.
  pose proof (DecimalPos.Unsigned.to_uint_nonnil p) as H.
  destruct (Pos.to_uint p); simpl; congruence.
Qed.

Lemma parse_N_to_uint n : parse_N (Fmt.uint_to_string (N.to_uint n)) = Some n.
Proof.
  unfold parse_N. pose proof (uint_to_string_N_nonempty n) as Hne.
  destruct (Fmt.uint_to_string (N.to_uint n)) eqn:E; [congruence|].
  rewrite <- E, parse_uint_to_string. simpl. by rewrite DecimalN.Unsigned.of_to.
Qed.

Lemma split_dash_uint u rest :
  split_dash (Fmt.uint_to_string u ++ "-" ++ rest) = (Fmt.uint_to_string u, Some rest).
Proof. induction u; simpl; rewrite ?IHu; reflexivity. Qed.

(** The server reads back exactly the id it printed. *)
Lemma parse_render i : parse (render i) = Some i.
Proof.
  destruct i as [ms sq]. unfold parse, render. cbn [fst snd].
  rewrite split_dash_uint, parse_N_to_uint. simpl. by rewrite parse_N_to_uint.
Qed.

Lemma render_inj i j : render i = render j -> i = j.
Proof. intros H. apply (f_equal parse) in H. rewrite !parse_render in H. congruence. Qed.

(** ** The order of ids *)

Lemma lt_spec a b : lt a b <-> (a.1 < b.1 \/ (a.1 = b.1 /\ a.2 < b.2)).
Proof.
  unfold lt, ltb. rewrite orb_true_iff, andb_true_iff, N.ltb_lt, N.eqb_eq, N.ltb_lt. tauto.
Qed.

Lemma lt_irrefl a : ~ lt a a.
Proof. rewrite lt_spec. lia. Qed.

Lemma lt_trans a b c : lt a b -> lt b c -> lt a c.
Proof. rewrite !lt_spec. lia. Qed.

Lemma lt_total a b : lt a b \/ a = b \/ lt b a.
Proof.
  destruct a as [a1 a2], b as [b1 b2]. rewrite !lt_spec. cbn [fst snd].
  destruct (N.lt_trichotomy a1 b1) as [|[->|]]; [tauto| |tauto].
  destruct (N.lt_trichotomy a2 b2) as [|[->|]]; tauto.
Qed.
End StreamId.

Module Store.
Import Resp.

Record entry := mkEntry { eid : StreamId.id; efields : list (string * string) }.

(** A PEL record: the consumer owning the entry, when it was last
    delivered, how many times. *)
Record pending := mkPending {
  pid : StreamId.id;
  owner : string;
  delivered_at : N;
  deliveries : nat
}.

Record group_state := mkGroup {
  gname : string;
  last_id : StreamId.id;
  pel : list pending;
  delivered : list (StreamId.id * string);
  ack_log : list string
}.

Record server := mkServer {
  skey : string;
  entries : list entry;
  last_gen : StreamId.id;
  group : option group_state;
  now : N
}.

Definition set_group (srv : server) (g : group_state) : server :=
  mkServer (skey srv) (entries srv) (last_gen srv) (Some g) (now srv).

(** An empty stream with no group, at time [t]. *)
Definition empty (key : string) (t : N) : server := mkServer key [] (0, 0)%N None t.

(** The clock moves forward. *)
Definition tick (d : N) (srv : server) : server :=
  mkServer (skey srv) (entries srv) (last_gen srv) (group srv) (now srv + d).

(** [XADD key * f v ...]: the next id after the last one, at the current
    millisecond if the clock has passed it. *)
Definition next_id (last : StreamId.id) (t : N) : StreamId.id :=
  if (last.1 <? t)%N then (t, 0%N) else (last.1, (last.2 + 1)%N).

Definition xadd (fields : list (string * string)) (srv : server) : server :=
  let i := next_id (last_gen srv) (now srv) in
  mkServer (skey srv) (entries srv ++ [mkEntry i fields]) i (group srv) (now srv).

(** [XGROUP CREATE key g $ MKSTREAM]: the group starts after the last id. *)
Definition xgroup_create (key g : string) (srv : server) : reply * server :=
  if negb (String.eqb key (skey srv)) then (RError "ERR stream other than the modelled one", srv)
  else match group srv with
  | Some _ => (RError "BUSYGROUP Consumer Group name already exists", srv)
  | None => (RStatus "OK", set_group srv (mkGroup g (last_gen srv) [] [] []))
  end.

Definition entry_reply (e : entry) : reply :=
  RArray [RString (StreamId.render (eid e));
          RArray (concat (map (fun kv => [RString kv.1; RString kv.2]) (efields e)))].

Definition new_pending (c : string) (t : N) (e : entry) : pending := mkPending (eid e) c t 1.

Definition nogroup : reply := RError "NOGROUP No such key or consumer group".

(** The group of [key], if it exists under the name [g]. *)
Definition group_of (key g : string) (srv : server) : option group_state :=
  match group srv with
  | Some gr => if String.eqb key (skey srv) && String.eqb (gname gr) g then Some gr else None
  | None => None
  end.

(** The entries [XREADGROUP ... COUNT n ... >] hands out. *)
Definition batch_of (gr : group_state) (count : Z) (srv : server) : list entry :=
  let fresh := List.filter (fun e => StreamId.ltb (last_id gr) (eid e)) (entries srv) in
  if (0 <? count)%Z then take (Z.to_nat count) fresh else fresh.

(** [XREADGROUP GROUP g c COUNT n BLOCK b STREAMS key >]: the entries
    after the group's last-delivered id, at most [n] of them when [n > 0];
    they join the PEL as owned by [c].  With none, the call blocks and
    returns a nil reply ([NULL] array) when the block expires. *)
Definition xreadgroup (key g c : string) (count : Z) (srv : server) : reply * server :=
  match group_of key g srv with
  | Some gr =>
      let batch := batch_of gr count srv in
      match last batch with
      | None => (RNil, srv)
      | Some e =>
          (RArray [RArray [RString (skey srv); RArray (map entry_reply batch)]],
           set_group srv (mkGroup (gname gr) (eid e)
                            (pel gr ++ map (new_pending c (now srv)) batch)
                            (delivered gr ++ map (fun e => (eid e, c)) batch) (ack_log gr)))
      end
  | None => (nogroup, srv)
  end.

(** The same command with its [BLOCK b] argument, as a client sees it: a
    negative timeout is rejected while the arguments are parsed; when
    nothing is there to hand out, [BLOCK 0] waits until an [XADD] wakes
    the client ([None]: no reply yet), and [BLOCK b] with [b > 0] returns
    the nil reply once [b] milliseconds have passed. *)
Definition xreadgroup_block (key g c : string) (count block : Z) (srv : server)
    : option (reply * server) :=
  if (block <? 0)%Z then Some (RError "ERR timeout is negative", srv)
  else match xreadgroup key g c count srv with
       | (RNil, sv) => if (block =? 0)%Z then None else Some (RNil, sv)
       | res => Some res
       end.

(** The scan of [XAUTOCLAIM key g c min_idle 0-0 COUNT n]: at most
    [10 n] PEL records examined in id order, at most [n] of them, idle
    for [min_idle] ms or more, given to [c] with their delivery time and
    count updated. *)
Fixpoint claim_scan (c : string) (t min_idle : N) (attempts count : nat)
    (ps : list pending) : list pending * list StreamId.id :=
  match attempts, count, ps with
  | S a, S n, p :: ps' =>
      if (min_idle <=? t - delivered_at p)%N then
        let '(rest, ids) := claim_scan c t min_idle a n ps' in
        (mkPending (pid p) c t (S (deliveries p)) :: rest, pid p :: ids)
      else
        let '(rest, ids) := claim_scan c t min_idle a (S n) ps' in (p :: rest, ids)
  | _, _, _ => (ps, [])
  end.

Definition xautoclaim (key g c : string) (min_idle : N) (count : Z) (srv : server)
    : reply * server :=
  match group_of key g srv with
  | Some gr =>
      if (count <=? 0)%Z then (RError "ERR COUNT must be > 0", srv)
      else
        let n := Z.to_nat count in
        let '(ps, ids) := claim_scan c (now srv) min_idle (10 * n) n (pel gr) in
        (RArray [RString "0-0"; RArray (map (fun i => RString (StreamId.render i)) ids);
                 RArray []],
         set_group srv (mkGroup (gname gr) (last_id gr) ps (delivered gr) (ack_log gr)))
  | None => (nogroup, srv)
  end.

(** [XACK key g id]: the record leaves the PEL; the reply counts it. *)
Definition xack (key g sid : string) (srv : server) : reply * server :=
  match group_of key g srv with
  | Some gr =>
      match StreamId.parse sid with
      | None => (RError "ERR Invalid stream ID specified as stream command argument", srv)
      | Some i =>
          let hit := List.existsb (fun p => bool_decide (pid p = i)) (pel gr) in
          (RInteger (if hit then 1 else 0),
           set_group srv (mkGroup (gname gr) (last_id gr)
                            (List.filter (fun p => negb (bool_decide (pid p = i))) (pel gr))
                            (delivered gr) (ack_log gr ++ [sid])))
      end
  | None => (nogroup, srv)
  end.
End Store.

(** ** Well-formed stores *)

Module StoreSpec.
Import Resp Store StreamId.

Definition le (a b : id) : Prop := lt a b \/ a = b.

Lemma lt_le_trans a b c : lt a b -> le b c -> lt a c.
Proof. intros H [H'| <-]; [exact (lt_trans _ _ _ H H') | exact H]. Qed.

Lemma le_lt_trans a b c : le a b -> lt b c -> lt a c.
Proof. intros [H| ->] H'; [exact (lt_trans _ _ _ H H') | exact H']. Qed.

Lemma last_map {A B} (f : A -> B) l : last (map f l) = option_map f (last l).
Proof. induction l as [|x [|y l] IH]; [done|done|]. exact IH. Qed.

(** In a strictly increasing list, everything is at most the last element. *)
Lemma SSorted_last l x :
  StronglySorted lt l -> last l = Some x -> Forall (fun y => le y x) l.
Proof.
  induction 1 as [|y l Hs IH Hf]; [discriminate|]. intros Hl.
  destruct l as [|z l]; simpl in Hl.
  - injection Hl as ->. constructor; [by right | constructor].
  - constructor; [|exact (IH Hl)]. left.
    apply Forall_inv_tail in Hf as Hf'. pose proof (IH Hl) as Hx.
    apply Forall_inv in Hf. apply Forall_inv in Hx. exact (lt_le_trans _ _ _ Hf Hx).
Qed.

Lemma next_id_gt last t : lt last (next_id last t).
Proof.
  apply lt_spec. unfold next_id. destruct (N.ltb_spec last.1 t); simpl; lia.
Qed.

Definition wf_group (gr : group_state) : Prop :=
  StronglySorted lt (map fst (delivered gr)) /\
  Forall (fun d => le d.1 (last_id gr)) (delivered gr).

Definition wf (srv : server) : Prop :=
  StronglySorted lt (map eid (entries srv)) /\
  Forall (fun e => le (eid e) (last_gen srv)) (entries srv) /\
  (forall gr, group srv = Some gr -> wf_group gr).

Lemma wf_empty key t : wf (empty key t).
Proof. split; [constructor | split; [constructor | discriminate]]. Qed.

Lemma wf_tick d srv : wf srv -> wf (tick d srv).
Proof. done. Qed.

Lemma wf_xadd fields srv : wf srv -> wf (xadd fields srv).
Proof.
  intros (Hs & Hb & Hg). pose proof (next_id_gt (last_gen srv) (now srv)) as Hn.
  split; [|split]; cbn [entries last_gen group xadd]; [| |exact Hg].
  - rewrite map_app. apply SSorted_app. repeat split; [done|repeat constructor|].
    rewrite Forall_map. eapply Forall_impl; [exact Hb|]. intros e He.
    repeat constructor. exact (le_lt_trans _ _ _ He Hn).
  - apply Forall_app. split; [|repeat constructor; by right].
    eapply Forall_impl; [exact Hb|]. intros e He. left. exact (le_lt_trans _ _ _ He Hn).
Qed.

Lemma wf_set_group srv gr : wf srv -> wf_group gr -> wf (set_group srv gr).
Proof. intros (Hs & Hb & _) Hg. split; [done | split; [done|]]. by intros ? [= <-]. Qed.

Lemma wf_xgroup_create key g srv : wf srv -> wf (xgroup_create key g srv).2.
Proof.
  intros Hw. unfold xgroup_create. destruct (negb _); [done|].
  destruct (group srv); [done|]. apply wf_set_group; [done|]. split; constructor.
Qed.

Lemma group_of_Some key g srv gr : group_of key g srv = Some gr -> group srv = Some gr.
Proof.
  unfold group_of. destruct (group srv); [|done]. by destruct (_ && _); [intros [= ->]|].
Qed.

(** The batch of [XREADGROUP] is increasing and lies after [last_id]. *)
Lemma batch_of_sorted gr count srv :
  wf srv -> StronglySorted lt (map eid (batch_of gr count srv)) /\
            Forall (fun e => lt (last_id gr) (eid e)) (batch_of gr count srv).
Proof.
  intros (Hs & _ & _). unfold batch_of.
  assert (Hsub : sublist (batch_of gr count srv) (entries srv) /\
                 Forall (fun e => lt (last_id gr) (eid e)) (batch_of gr count srv)).
  { unfold batch_of. set (fresh := List.filter _ _).
    assert (Hf : Forall (fun e => lt (last_id gr) (eid e)) fresh).
    { apply Forall_forall. intros e He%list_elem_of_In. by apply filter_In in He as [_ ?]. }
    assert (Hfs : sublist fresh (entries srv)) by apply sublist_List_filter.
    destruct (0 <? count)%Z; [|done]. split.
    - etrans; [apply sublist_take|exact Hfs].
    - eapply Forall_sublist; [apply sublist_take|exact Hf]. }
  destruct Hsub as [Hsub Hf]. split; [|exact Hf].
  eapply SSorted_sublist; [|exact Hs]. by apply sublist_map.
Qed.

(** Progress of [XREADGROUP ... >]: an entry after the group's
    last-delivered id is either in the batch, or the batch is not empty
    and ends strictly between the last-delivered id and that entry. *)
Lemma batch_progress gr count srv e :
  wf srv -> In e (entries srv) -> lt (last_id gr) (eid e) ->
  In e (batch_of gr count srv) \/
  exists b, last (batch_of gr count srv) = Some b /\ In b (entries srv) /\
            lt (last_id gr) (eid b) /\ lt (eid b) (eid e).
Proof.
  intros (Hs & _ & _) Hin Hlt. unfold batch_of.
  set (fresh := List.filter (fun x => ltb (last_id gr) (eid x)) (entries srv)).
  assert (He : In e fresh) by (apply filter_In; auto).
  assert (Hfs : StronglySorted lt (map eid fresh)).
  { eapply SSorted_sublist; [apply sublist_map, sublist_List_filter | exact Hs]. }
  destruct (0 <? count)%Z eqn:Hc; [|by left].
  set (k := Z.to_nat count). assert (Hk : (0 < k)%nat) by (apply Z.ltb_lt in Hc; lia).
  rewrite <- (take_drop k fresh) in He, Hfs. apply in_app_or in He as [He|He]; [by left|right].
  destruct (last (take k fresh)) as [b|] eqn:Hb.
  - exists b. split; [done|].
    assert (Hbin : In b (take k fresh)) by (apply list_elem_of_In; by apply last_Some_elem_of).
    assert (Hbf : In b fresh) by (rewrite <- (take_drop k fresh); apply in_or_app; auto).
    apply filter_In in Hbf as [Hbe Hbl]. split; [exact Hbe|]. split.
    + exact Hbl.
    + rewrite map_app in Hfs. apply SSorted_app in Hfs as (_ & _ & Hf).
      rewrite Forall_map, Forall_forall in Hf.
      specialize (Hf b (proj2 (list_elem_of_In _ _) Hbin)).
      rewrite Forall_map, Forall_forall in Hf. apply Hf. by apply list_elem_of_In.
  - apply last_None in Hb. clearbody fresh k. destruct k as [|k]; [lia|].
    destruct fresh as [|f fr]; [done | discriminate].
Qed.

Lemma wf_xreadgroup key g c count srv : wf srv -> wf (xreadgroup key g c count srv).2.
Proof.
  intros Hw. unfold xreadgroup. destruct (group_of key g srv) as [gr|] eqn:Hgo; [|done].
  destruct (batch_of_sorted gr count srv Hw) as [Hbs Hbf].
  destruct (last (batch_of gr count srv)) as [e|] eqn:Hl; [|done].
  apply wf_set_group; [done|]. destruct Hw as (_ & _ & Hg).
  destruct (Hg gr (group_of_Some _ _ _ _ Hgo)) as [Hds Hdl].
  unfold wf_group; cbn [delivered last_id].
  assert (Hle : Forall (fun e' => le (eid e') (eid e)) (batch_of gr count srv)).
  { apply (Forall_map eid (fun y => le y (eid e))).
    apply SSorted_last; [done|]. by rewrite last_map, Hl. }
  assert (Hlt : lt (last_id gr) (eid e)).
  { apply last_Some_elem_of in Hl. rewrite Forall_forall in Hbf. by apply Hbf. }
  split.
  - rewrite map_app, map_map. cbn [fst]. apply SSorted_app. repeat split; [done|done|].
    eapply Forall_impl; [apply (Forall_map fst (fun y => le y (last_id gr))); exact Hdl|].
    intros d Hd.
    rewrite Forall_map. eapply Forall_impl; [exact Hbf|]. intros e' He'.
    exact (le_lt_trans _ _ _ Hd He').
  - apply Forall_app. split.
    + eapply Forall_impl; [exact Hdl|]. intros d Hd. left. exact (le_lt_trans _ _ _ Hd Hlt).
    + rewrite Forall_map. exact Hle.
Qed.

Lemma wf_xautoclaim key g c min_idle count srv :
  wf srv -> wf (xautoclaim key g c min_idle count srv).2.
Proof.
  intros Hw. unfold xautoclaim. destruct (group_of key g srv) as [gr|] eqn:Hgo; [|done].
  destruct (_ <=? _)%Z; [done|]. destruct (claim_scan _ _ _ _ _ _). apply wf_set_group; [done|].
  destruct Hw as (_ & _ & Hg). exact (Hg gr (group_of_Some _ _ _ _ Hgo)).
Qed.

Lemma wf_xack key g sid srv : wf srv -> wf (xack key g sid srv).2.
Proof.
  intros Hw. unfold xack. destruct (group_of key g srv) as [gr|] eqn:Hgo; [|done].
  destruct (parse sid); [|done]. apply wf_set_group; [done|].
  destruct Hw as (_ & _ & Hg). exact (Hg gr (group_of_Some _ _ _ _ Hgo)).
Qed.
(** The three outcomes of [XREADGROUP]. *)
Lemma xreadgroup_cases key g c n srv :
  (group_of key g srv = None /\ xreadgroup key g c n srv = (nogroup, srv)) \/
  (exists gr, group_of key g srv = Some gr /\ batch_of gr n srv = [] /\
              xreadgroup key g c n srv = (RNil, srv)) \/
  (exists gr e, group_of key g srv = Some gr /\ last (batch_of gr n srv) = Some e /\
     xreadgroup key g c n srv =
       (RArray [RArray [RString (skey srv); RArray (map entry_reply (batch_of gr n srv))]],
        set_group srv (mkGroup (gname gr) (eid e)
                         (pel gr ++ map (new_pending c (now srv)) (batch_of gr n srv))
                         (delivered gr ++ map (fun e => (eid e, c)) (batch_of gr n srv))
                         (ack_log gr)))).
Proof.
  unfold xreadgroup. destruct (group_of key g srv) as [gr|]; [|by left].
  right. destruct (last (batch_of gr n srv)) as [e|] eqn:Hl; [right; eauto|left].
  exists gr. repeat split. destruct (batch_of gr n srv) as [|x l]; [done|].
  rewrite last_cons in Hl. by destruct (last l).
Qed.

(** [XAUTOCLAIM] and [XACK] change only the PEL and the acknowledgement
    history of the group. *)
Lemma xautoclaim_group key g c min_idle count srv :
  (xautoclaim key g c min_idle count srv).2 = srv \/
  exists gr ps, group srv = Some gr /\ map pid ps = map pid (pel gr) /\
    (xautoclaim key g c min_idle count srv).2 =
      set_group srv (mkGroup (gname gr) (last_id gr) ps (delivered gr) (ack_log gr)).
Proof.
  unfold xautoclaim. destruct (group_of key g srv) as [gr|] eqn:Hgo; [|by left].
  destruct (_ <=? _)%Z; [by left|]. right.
  assert (Hs : forall a n ps, map pid (claim_scan c (now srv) min_idle a n ps).1 = map pid ps).
  { induction a as [|a IH]; intros [|n] [|p ps]; try done; simpl;
      destruct (_ <=? _)%N; [destruct (claim_scan _ _ _ a n ps) eqn:E
                             |destruct (claim_scan _ _ _ a (S n) ps) eqn:E];
      simpl; f_equal; [specialize (IH n ps) | specialize (IH (S n) ps)];
      rewrite E in IH; exact IH. }
  destruct (claim_scan _ _ _ _ _ _) as [ps ids] eqn:E. exists gr, ps.
  split; [exact (group_of_Some _ _ _ _ Hgo)|]. split; [|done].
  specialize (Hs (10 * Z.to_nat count)%nat (Z.to_nat count) (pel gr)). by rewrite E in Hs.
Qed.

Lemma xack_group key g sid srv :
  (xack key g sid srv).2 = srv \/
  exists gr i, group srv = Some gr /\ parse sid = Some i /\
    (xack key g sid srv).2 =
      set_group srv (mkGroup (gname gr) (last_id gr)
                       (List.filter (fun p => negb (bool_decide (pid p = i))) (pel gr))
                       (delivered gr) (ack_log gr ++ [sid])).
Proof.
  unfold xack. destruct (group_of key g srv) as [gr|] eqn:Hgo; [|by left].
  destruct (parse sid) as [i|]; [right|by left].
  exists gr, i. split; [exact (group_of_Some _ _ _ _ Hgo)|done].
Qed.
(** ** What the loop's two reads leave of the group *)

Lemma group_of_set_group key g sv gr gr' :
  group_of key g sv = Some gr -> gname gr' = gname gr -> group_of key g (set_group sv gr') = Some gr'.
Proof.
  unfold group_of. cbn [set_group group skey]. destruct (group sv) as [gr0|]; [|done].
  destruct (String.eqb key (skey sv) && String.eqb (gname gr0) g) eqn:E; [|done].
  intros [= <-] ->. by rewrite E.
Qed.

(** Only [XADD] changes the entries of the stream. *)
Lemma entries_xautoclaim key g c mi n sv : entries (xautoclaim key g c mi n sv).2 = entries sv.
Proof. by destruct (xautoclaim_group key g c mi n sv) as [->|(gr & ps & _ & _ & ->)]. Qed.

Lemma entries_xreadgroup key g c n sv : entries (xreadgroup key g c n sv).2 = entries sv.
Proof.
  by destruct (xreadgroup_cases key g c n sv)
    as [[_ ->]|[(gr & _ & _ & ->)|(gr & e & _ & _ & ->)]].
Qed.

Lemma entries_xack key g sid sv : entries (xack key g sid sv).2 = entries sv.
Proof. by destruct (xack_group key g sid sv) as [->|(gr & i & _ & _ & ->)]. Qed.

Lemma batch_of_sublist gr count sv : sublist (batch_of gr count sv) (entries sv).
Proof.
  unfold batch_of. destruct (0 <? count)%Z; [etrans; [apply sublist_take|]|];
    apply sublist_List_filter.
Qed.

(** In a well-formed stream an id names one entry. *)
Lemma wf_entry_unique sv e e' :
  wf sv -> In e (entries sv) -> In e' (entries sv) -> eid e = eid e' -> e = e'.
Proof.
  intros (Hs & _ & _). induction (entries sv) as [|x l IH]; [done|]. simpl in Hs |- *.
  apply StronglySorted_inv in Hs as [Hs Hf]. rewrite Forall_forall in Hf.
  assert (Hx : forall y, In y l -> eid y <> eid x).
  { intros y Hy Heq. apply (lt_irrefl (eid x)). rewrite <- Heq at 2.
    apply Hf, list_elem_of_In, in_map, Hy. }
  intros [<-|He] [<-|He'] Hid; auto; [by destruct (Hx _ He') | by destruct (Hx _ He)].
Qed.

(** [XACK] of a valid id on an existing group records it in the ack log
    and keeps the group. *)
Lemma xack_logs key g sid sv gr i :
  group_of key g sv = Some gr -> parse sid = Some i ->
  exists gr', group_of key g (xack key g sid sv).2 = Some gr' /\ ack_log gr' = ack_log gr ++ [sid].
Proof.
  intros Hg Hp. unfold xack. rewrite Hg, Hp. cbn [snd].
  eexists. split; [apply (group_of_set_group _ _ _ gr); [exact Hg|reflexivity] | reflexivity].
Qed.

(** Any [XACK] keeps every group that exists. *)
Lemma group_of_xack key g key' g' sid sv :
  is_Some (group_of key g sv) -> is_Some (group_of key g (xack key' g' sid sv).2).
Proof.
  intros [gr0 Hg]. destruct (xack_group key' g' sid sv) as [->|(gr & i & Hgr & _ & ->)]; [by eexists|].
  pose proof (group_of_Some _ _ _ _ Hg) as Hg'. rewrite Hgr in Hg'. injection Hg' as <-.
  eexists. apply (group_of_set_group _ _ _ gr); [exact Hg | reflexivity].
Qed.

Lemma xautoclaim_keeps key g c mi n sv gr :
  group_of key g sv = Some gr ->
  entries (xautoclaim key g c mi n sv).2 = entries sv /\
  exists gr', group_of key g (xautoclaim key g c mi n sv).2 = Some gr' /\ last_id gr' = last_id gr.
Proof.
  intros Hg. unfold xautoclaim. rewrite Hg. destruct (_ <=? _)%Z; [eauto|].
  destruct (claim_scan _ _ _ _ _ _). split; [done|].
  eexists. split; [apply (group_of_set_group _ _ _ gr); done | done].
Qed.

Lemma xreadgroup_last key g c n sv gr b :
  group_of key g sv = Some gr -> last (batch_of gr n sv) = Some b ->
  entries (xreadgroup key g c n sv).2 = entries sv /\
  exists gr', group_of key g (xreadgroup key g c n sv).2 = Some gr' /\ last_id gr' = eid b.
Proof.
  intros Hg Hl. unfold xreadgroup. rewrite Hg. cbv zeta. rewrite Hl. split; [done|].
  eexists. split; [apply (group_of_set_group _ _ _ gr); done | done].
Qed.
(** The three outcomes of a blocking read. *)
Lemma xreadgroup_block_Some key g c n b srv r sv :
  xreadgroup_block key g c n b srv = Some (r, sv) ->
  (r = RError "ERR timeout is negative" /\ sv = srv /\ (b < 0)%Z) \/
  ((0 <= b)%Z /\ (r, sv) = xreadgroup key g c n srv).
Proof.
  unfold xreadgroup_block. destruct (Z.ltb_spec b 0); [intros [= <- <-]; by left|].
  destruct (xreadgroup key g c n srv) as [[] sv0]; try (intros [= <- <-]; by right).
  destruct (b =? 0)%Z; [discriminate | intros [= <- <-]; by right].
Qed.

Lemma xreadgroup_block_None key g c n b srv :
  xreadgroup_block key g c n b srv = None ->
  b = 0%Z /\ (xreadgroup key g c n srv).1 = RNil.
Proof.
  unfold xreadgroup_block. destruct (Z.ltb_spec b 0); [discriminate|].
  destruct (xreadgroup key g c n srv) as [[] sv0]; try discriminate.
  destruct (Z.eqb_spec b 0); [done | discriminate].
Qed.

(** A read with a non-negative [BLOCK] that has something to hand out
    replies at once. *)
Lemma xreadgroup_block_ready key g c n b srv gr :
  (0 <= b)%Z -> group_of key g srv = Some gr -> last (batch_of gr n srv) <> None ->
  xreadgroup_block key g c n b srv = Some (xreadgroup key g c n srv).
Proof.
  intros Hb Hg Hl. unfold xreadgroup_block. destruct (Z.ltb_spec b 0); [lia|].
  unfold xreadgroup. rewrite Hg. cbv zeta. by destruct (last (batch_of gr n srv)).
Qed.

Lemma xreadgroup_block_wait key g c n srv :
  (xreadgroup key g c n srv).1 = RNil -> xreadgroup_block key g c n 0 srv = None.
Proof.
  intros H. unfold xreadgroup_block. simpl. destruct (xreadgroup key g c n srv) as [r sv].
  simpl in H. by subst r.
Qed.

Lemma xreadgroup_block_negative key g c n b srv :
  (b < 0)%Z -> xreadgroup_block key g c n b srv = Some (RError "ERR timeout is negative", srv).
Proof. intros Hb. unfold xreadgroup_block. by destruct (Z.ltb_spec b 0); [|lia]. Qed.

(** An [XACK] changes nothing that [XREADGROUP ... >] replies. *)
Lemma xreadgroup_reply_xack key g c n key' g' sid sv :
  (xreadgroup key g c n (xack key' g' sid sv).2).1 = (xreadgroup key g c n sv).1.
Proof.
  destruct (xack_group key' g' sid sv) as [->|(gr & i & Hg & _ & ->)]; [done|].
  unfold xreadgroup, group_of, batch_of. cbn [set_group group skey gname last_id entries].
  rewrite Hg. destruct (String.eqb key (skey sv) && String.eqb (gname gr) g); [|reflexivity].
  cbv zeta. destruct (last _); reflexivity.
Qed.

(** ** Pending entries *)

(** The entry printed [sid] is in the group's PEL. *)
Definition pending_id (sid : string) (srv : server) : Prop :=
  exists gr p, group srv = Some gr /\ In p (pel gr) /\ render (pid p) = sid.

Lemma pending_xautoclaim sid key g c min_idle count srv :
  pending_id sid srv -> pending_id sid (xautoclaim key g c min_idle count srv).2.
Proof.
  intros (gr & p & Hg & Hp & Hs).
  destruct (xautoclaim_group key g c min_idle count srv) as [->|(gr' & ps & Hg' & Hm & ->)].
  - by exists gr, p.
  - rewrite Hg in Hg'. injection Hg' as <-.
    assert (Hin : In (pid p) (map pid ps)) by (rewrite Hm; by apply in_map).
    apply in_map_iff in Hin as (p' & Hp' & Hin).
    exists (mkGroup (gname gr) (last_id gr) ps (delivered gr) (ack_log gr)), p'.
    split; [done|]. split; [done|]. by rewrite Hp'.
Qed.

Lemma pending_xreadgroup sid key g c n srv :
  pending_id sid srv -> pending_id sid (xreadgroup key g c n srv).2.
Proof.
  intros (gr & p & Hg & Hp & Hs).
  destruct (xreadgroup_cases key g c n srv)
    as [[_ ->]|[(gr' & _ & _ & ->)|(gr' & e & Hgo & _ & ->)]]; try by exists gr, p.
  apply group_of_Some in Hgo. rewrite Hg in Hgo. injection Hgo as <-.
  eexists _, p. split; [reflexivity|]. split; [|done]. cbn [pel]. apply in_or_app. by left.
Qed.

Lemma pending_xack sid key g sid' srv :
  pending_id sid srv -> (forall j, parse sid' = Some j -> render j <> sid) ->
  pending_id sid (xack key g sid' srv).2.
Proof.
  intros (gr & p & Hg & Hp & Hs) Hne.
  destruct (xack_group key g sid' srv) as [->|(gr' & i & Hg' & Hi & ->)]; [by exists gr, p|].
  rewrite Hg in Hg'. injection Hg' as <-. eexists _, p. split; [reflexivity|].
  split; [|done]. cbn [pel]. apply filter_In. split; [done|].
  apply negb_true_iff, bool_decide_eq_false. intros Hpi. apply (Hne i Hi). by rewrite <- Hpi.
Qed.
End StoreSpec.
