(* ===== verification/Executor.v ===== *)
(** * The contract of the worker pool: a bounded FIFO executor

    What [ThreadPool] promises its client ([main], which hands it one
    [process_message] per stream entry), stated without threads, locks or
    condition variables: an executor with a capacity [cap] keeps

    - [pending]: the accepted tasks not yet started, in acceptance order;
    - [active]: the tasks started and not yet finished, at most [cap] of
      them;
    - [done]: the finished tasks, in finishing order;
    - [closed]: whether it still accepts tasks.

    Its steps: a task is accepted only while the executor is open and goes
    to the back of [pending]; only the front of [pending] may start, and
    only while fewer than [cap] tasks are active; any active task may
    finish; the executor may close once.  [ThreadPool.v] proves that the
    pool of thread_pool.h refines this executor, with [cap] its number of
    threads. *)

From stdpp Require Import base list relations.
From S2P Require Import Prelude.

Module Executor.
Section Spec.
Context {task : Type} (cap : nat).

Record exec := mkExec {
  pending : list task;
  active : list task;
  done : list task;
  closed : bool
}.

Definition exec_init : exec := mkExec [] [] [] false.

Inductive exec_step : exec -> exec -> Prop :=
| ExecSubmit t e :
    closed e = false ->
    exec_step e (mkExec (pending e ++ [t]) (active e) (done e) (closed e))
| ExecStart t q e :
    pending e = t :: q -> length (active e) < cap ->
    exec_step e (mkExec q (active e ++ [t]) (done e) (closed e))
| ExecFinish l1 t l2 e :
    active e = l1 ++ t :: l2 ->
    exec_step e (mkExec (pending e) (l1 ++ l2) (done e ++ [t]) (closed e))
| ExecClose e :
    closed e = false ->
    exec_step e (mkExec (pending e) (active e) (done e) true).

(** The tasks the executor has accepted, in the state [e]: the ones
    finished, running or waiting. *)
Definition accepted (e : exec) : list task := done e ++ active e ++ pending e.

(** ** What every run of the executor guarantees *)

Lemma exec_step_bounded e e' :
  length (active e) <= cap -> exec_step e e' -> length (active e') <= cap.
Proof.
  intros Hb Hs. destruct Hs as [t e He|t q e Hp Hlt|l1 t l2 e Ha|e He]; simpl; auto.
  - rewrite length_app. simpl. lia.
  - rewrite Ha, !length_app in Hb. simpl in Hb. rewrite length_app. lia.
Qed.

(** Acceptance only extends the set of accepted tasks, and nothing is
    accepted once the executor is closed. *)
Lemma exec_step_accepted e e' :
  exec_step e e' ->
  (closed e = false /\ exists t, accepted e' ≡ₚ accepted e ++ [t]) \/
  (accepted e' ≡ₚ accepted e /\ (closed e = true -> closed e' = true)).
Proof.
  unfold accepted. intros Hs.
  destruct Hs as [t e He|t q e Hp Hlt|l1 t l2 e Ha|e He]; simpl.
  - left. split; [done|]. exists t. by rewrite !app_assoc.
  - right. rewrite Hp. split; [solve_Permutation | auto].
  - right. rewrite Ha. split; [solve_Permutation | auto].
  - right. split; [done | auto].
Qed.

Lemma exec_rtc_closed e e' :
  rtc exec_step e e' -> closed e = true ->
  closed e' = true /\ accepted e' ≡ₚ accepted e.
Proof.
  induction 1 as [e|e e1 e' Hs _ IH]; intros Hc; [done|].
  destruct (exec_step_accepted _ _ Hs) as [[Hc' _]|[Hp Hcl]]; [congruence|].
  destruct (IH (Hcl Hc)) as [? ->]. auto.
Qed.

(** The capacity bound holds along every run. *)
Lemma exec_rtc_bounded e e' :
  rtc exec_step e e' -> length (active e) <= cap -> length (active e') <= cap.
Proof. induction 1; eauto using exec_step_bounded. Qed.
End Spec.
Arguments exec : clear implicits.
End Executor.
