(* ===== verification/ThreadPool.v ===== *)
(** * The worker pool: [class ThreadPool] (thread_pool.h)

    The pool owns a FIFO queue [tasks_], a flag [stop_] and N threads that
    run [worker_loop].  Every access to the queue and the flag happens under
    [queue_mutex_], so the pool's behaviour is an interleaving of the
    following atomic sections, which are the operations of this file:

    - [create n], the constructor: [invalid_argument] for [n = 0], else N
      workers waiting on an empty queue;
    - [enqueue t]: [runtime_error] ([PoolStopped]) once [stop_] is set,
      else the task goes to the back of the queue;
    - [request_stop], the destructor's section [stop_ = true];
    - [worker_step i], one pass of worker [i] through its critical section:
      a waiting worker whose predicate [stop_ || !tasks_.empty()] holds
      either returns (stop set and queue empty) or pops the front task and
      runs it; a running worker finishes its task and goes back to waiting.

    A worker whose predicate is false is blocked in [condition_.wait] and
    has no step.  The model assumes the notifications wake waiting workers
    eventually (the predicate form of [wait] and the [notify_one] /
    [notify_all] calls of the code), and that each task returns (the task
    of this program is [process_message], whose blocking calls are bounded
    by curl's 5-second timeout and the Redis command).

    The state also carries three history lists that the code does not
    store: the accepted tasks, the tasks started and the tasks finished,
    each in order.  They exist to state what the pool does with the tasks.

    The theorems: the pool invariant [pool_inv] holds in every reachable
    state (tasks start in FIFO order, each accepted task is started at most
    once and finished at most once, no worker exits before [stop_]); after
    the destructor's [stop_ = true], every run terminates ([Acc]), and every
    run that cannot continue has joined all workers with every accepted
    task finished exactly once; stopped or not, the workers alone take
    every queued task to a worker that runs it (no task starves); and the
    pool refines the bounded FIFO executor of [Executor.v]. *)

From stdpp Require Import base list relations.
From S2P Require Import Prelude Executor.

Module ThreadPool.
Section Pool.
Context {task : Type}.

(** The state of one [std::thread] running [worker_loop]. *)
Inductive wstate :=
| Waiting
| Running (t : task)
| Exited.

Record pool := mkPool {
  queue : list task;
  stop : bool;
  workers : list wstate;
  submitted : list task;
  started : list task;
  finished : list task
}.

Inductive pool_error := InvalidArgument | PoolStopped.

(** [ThreadPool(num_threads)]. *)
Definition create (n : nat) : res pool_error pool :=
  if decide (n = 0) then Err InvalidArgument
  else Ok (mkPool [] false (replicate n Waiting) [] [] []).

(** [enqueue]: the section under [queue_mutex_]. *)
Definition enqueue (t : task) (st : pool) : res pool_error pool :=
  if stop st then Err PoolStopped
  else Ok (mkPool (queue st ++ [t]) (stop st) (workers st)
                  (submitted st ++ [t]) (started st) (finished st)).

(** [thread_count()] and [pending_tasks()]. *)
Definition thread_count (st : pool) : nat := length (workers st).
Definition pending_tasks (st : pool) : nat := length (queue st).

(** The destructor's section [stop_ = true]. *)
Definition request_stop (st : pool) : pool :=
  mkPool (queue st) true (workers st) (submitted st) (started st) (finished st).

(** One step of worker [i] in [worker_loop]. *)
Definition worker_step (i : nat) (st : pool) : option pool :=
  match workers st !! i with
  | Some Waiting =>
      match queue st with
      | t :: q =>
          Some (mkPool q (stop st) (<[i := Running t]> (workers st))
                       (submitted st) (started st ++ [t]) (finished st))
      | [] =>
          if stop st
          then Some (mkPool [] (stop st) (<[i := Exited]> (workers st))
                            (submitted st) (started st) (finished st))
          else None
      end
  | Some (Running t) =>
      Some (mkPool (queue st) (stop st) (<[i := Waiting]> (workers st))
                   (submitted st) (started st) (finished st ++ [t]))
  | _ => None
  end.

(** The destructor returns once every thread is joined. *)
Definition is_exited (w : wstate) : bool := if w is Exited then true else false.
Definition joined (st : pool) : Prop := Forall (fun w => is_exited w = true) (workers st).

(** The interleavings of the atomic sections.  The destructor sets
    [stop_] once. *)
Inductive step : pool -> pool -> Prop :=
| StepWorker i st st' : worker_step i st = Some st' -> step st st'
| StepEnqueue t st st' : enqueue t st = Ok st' -> step st st'
| StepStop st : stop st = false -> step st (request_stop st).

Definition reachable (n : nat) (st : pool) : Prop :=
  exists st0, create n = Ok st0 /\ rtc step st0 st.

(** ** The invariant *)

Fixpoint running (ws : list wstate) : list task :=
  match ws with
  | [] => []
  | Running t :: ws => t :: running ws
  | _ :: ws => running ws
  end.

Record pool_inv (n : nat) (st : pool) : Prop := {
  inv_count : length (workers st) = n;
  inv_fifo : started st ++ queue st = submitted st;
  inv_run : finished st ++ running (workers st) ≡ₚ started st;
  inv_exit : Exited ∈ workers st -> stop st = true /\ queue st = []
}.

Lemma running_app ws1 ws2 : running (ws1 ++ ws2) = running ws1 ++ running ws2.
Proof. induction ws1 as [|[] ws1 IH]; simpl; by rewrite ?IH. Qed.

(** Replacing the state of one worker. *)
Lemma insert_split (ws : list wstate) i w0 w :
  ws !! i = Some w0 ->
  exists l r, ws = l ++ w0 :: r /\ <[i := w]> ws = l ++ w :: r.
Proof.
  intros Hi. exists (take i ws), (drop (S i) ws). split.
  - by rewrite take_drop_middle.
  - apply insert_take_drop. by apply lookup_lt_Some in Hi.
Qed.

Lemma running_insert ws i w0 w :
  ws !! i = Some w0 -> running (<[i := w]> ws) ++ running [w0] ≡ₚ running ws ++ running [w].
Proof.
  intros Hi. destruct (insert_split ws i w0 w Hi) as (l & r & -> & ->).
  rewrite !running_app. change (w0 :: r) with ([w0] ++ r). change (w :: r) with ([w] ++ r).
  rewrite !running_app. solve_Permutation.
Qed.

Lemma elem_of_insert_split (ws : list wstate) i w0 w x :
  ws !! i = Some w0 -> x ∈ <[i := w]> ws -> x = w \/ x ∈ ws.
Proof.
  intros Hi. destruct (insert_split ws i w0 w Hi) as (l & r & -> & ->).
  rewrite !elem_of_app, !elem_of_cons. intros [Hx|[Hx|Hx]]; auto.
Qed.

Lemma running_lookup (ws : list wstate) i t : ws !! i = Some (Running t) -> t ∈ running ws.
Proof.
  intros Hi. destruct (insert_split ws i _ Waiting Hi) as (l & r & -> & _).
  rewrite running_app. simpl. apply elem_of_app. right. apply elem_of_cons. by left.
Qed.

Lemma running_replicate_waiting n : running (replicate n Waiting) = [].
Proof. induction n; simpl; auto. Qed.

Lemma pool_inv_create n st : create n = Ok st -> pool_inv n st.
Proof.
  unfold create. case_decide; [discriminate|]. intros [= <-]. split; cbn [workers queue
    started submitted finished stop].
  - apply length_replicate.
  - reflexivity.
  - by rewrite running_replicate_waiting.
  - intros Hx. apply elem_of_replicate in Hx as [Hx _]. discriminate.
Qed.

Lemma pool_inv_step n st st' : pool_inv n st -> step st st' -> pool_inv n st'.
Proof.
  intros [Hc Hf Hr He] Hs. destruct Hs as [i st st' Hw | t st st' Hq | st Hstop].
  - unfold worker_step in Hw.
    destruct (workers st !! i) as [[|t|]|] eqn:Hi; try discriminate.
    + pose proof (running_insert _ _ _ Exited Hi) as PE.
      destruct (queue st) as [|t q] eqn:Hq.
      * destruct (stop st) eqn:Hst; [|discriminate]. injection Hw as <-.
        simpl in PE. rewrite !app_nil_r in PE.
        split; cbn [workers queue started submitted finished stop].
        -- by rewrite length_insert.
        -- exact Hf.
        -- by rewrite PE.
        -- auto.
      * injection Hw as <-.
        pose proof (running_insert _ _ _ (Running t) Hi) as P. simpl in P.
        rewrite app_nil_r in P.
        split; cbn [workers queue started submitted finished stop].
        -- by rewrite length_insert.
        -- by rewrite <- Hf, <- app_assoc.
        -- by rewrite P, app_assoc, Hr.
        -- intros Hx. destruct (elem_of_insert_split _ _ _ _ _ Hi Hx) as [Hx'|Hx'];
             [discriminate | destruct (He Hx') as [_ Hq']; congruence].
    + injection Hw as <-.
      pose proof (running_insert _ _ _ Waiting Hi) as P. simpl in P.
      rewrite app_nil_r in P.
      split; cbn [workers queue started submitted finished stop].
      * by rewrite length_insert.
      * exact Hf.
      * by rewrite <- app_assoc, (Permutation_app_comm [t]), P.
      * intros Hx. destruct (elem_of_insert_split _ _ _ _ _ Hi Hx) as [Hx'|Hx'];
          [discriminate | auto].
  - unfold enqueue in Hq. destruct (stop st) eqn:Hst; [discriminate|].
    injection Hq as <-. split; cbn [workers queue started submitted finished stop].
    + exact Hc.
    + by rewrite app_assoc, Hf.
    + exact Hr.
    + intros Hx. destruct (He Hx) as [? _]. congruence.
  - split; cbn [workers queue started submitted finished stop request_stop]; auto.
    intros Hx. destruct (He Hx) as [? _]. congruence.
Qed.

Lemma reachable_pool_inv n st : reachable n st -> pool_inv n st.
Proof.
  intros (st0 & Hc & Hr). apply pool_inv_create in Hc.
  induction Hr; eauto using pool_inv_step.
Qed.

(** ** Draining after the destructor sets [stop_] *)

Definition weight (w : wstate) : nat :=
  match w with Waiting => 1 | Running _ => 2 | Exited => 0 end.

(** Every step of a stopped pool decreases this measure. *)
Definition measure (st : pool) : nat :=
  3 * length (queue st) + sum_list_with weight (workers st).

Lemma weight_insert ws i w0 w :
  ws !! i = Some w0 ->
  sum_list_with weight (<[i := w]> ws) + weight w0 = sum_list_with weight ws + weight w.
Proof.
  intros Hi. destruct (insert_split ws i w0 w Hi) as (l & r & -> & ->).
  rewrite !sum_list_with_app. simpl. lia.
Qed.

(** Every step of a worker, stopped pool or not, decreases the measure. *)
Lemma worker_step_measure i st st' :
  worker_step i st = Some st' ->
  measure st' < measure st /\ stop st' = stop st /\ submitted st' = submitted st.
Proof.
  intros Hw. unfold worker_step in Hw. unfold measure.
  destruct (workers st !! i) as [[|t|]|] eqn:Hi; try discriminate.
  - destruct (queue st) as [|t q] eqn:Hq.
    + destruct (stop st); [|discriminate]. injection Hw as <-. cbn [stop submitted queue workers].
      split; [|done]. pose proof (weight_insert _ _ _ Exited Hi). simpl in *. lia.
    + injection Hw as <-. cbn [stop submitted queue workers].
      split; [|done]. pose proof (weight_insert _ _ _ (Running t) Hi). simpl in *. lia.
  - injection Hw as <-. cbn [stop submitted queue workers].
    split; [|done]. pose proof (weight_insert _ _ _ Waiting Hi). simpl in *. lia.
Qed.

Lemma step_stopped st st' :
  stop st = true -> step st st' ->
  stop st' = true /\ submitted st' = submitted st /\ measure st' < measure st.
Proof.
  intros Hst Hs. destruct Hs as [i st st' Hw | t st st' Hq | st Hstop]; [| |congruence].
  - destruct (worker_step_measure _ _ _ Hw) as (? & -> & ->). auto.
  - unfold enqueue in Hq. by rewrite Hst in Hq.
Qed.

Lemma stopped_acc st : stop st = true -> Acc (fun b a => step a b) st.
Proof.
  remember (measure st) as m eqn:Hm. revert st Hm.
  induction m as [m IH] using lt_wf_ind. intros st -> Hst.
  constructor. intros st' Hs. destruct (step_stopped _ _ Hst Hs) as (Hst' & _ & Hlt).
  exact (IH _ Hlt st' eq_refl Hst').
Qed.

Lemma stopped_progress st : stop st = true -> ~ joined st -> exists st', step st st'.
Proof.
  intros Hst Hj. unfold joined in Hj. apply not_Forall_Exists in Hj; [|intros ?; apply _].
  apply Exists_exists in Hj as (w & Hin & Hne).
  apply list_elem_of_lookup in Hin as [i Hi].
  destruct w as [|t|]; [| |by destruct Hne].
  - destruct (queue st) as [|t q] eqn:Hq; eexists; apply (StepWorker i);
      unfold worker_step; rewrite Hi, Hq, ?Hst; reflexivity.
  - eexists. apply (StepWorker i). unfold worker_step. by rewrite Hi.
Qed.

Lemma joined_stuck st : stop st = true -> joined st -> forall st', ~ step st st'.
Proof.
  intros Hst Hj st' Hs. destruct Hs as [i st st' Hw | t st st' Hq | st Hstop]; [| |congruence].
  - unfold worker_step in Hw. destruct (workers st !! i) as [w|] eqn:Hi; [|discriminate].
    apply list_elem_of_lookup_2 in Hi. unfold joined in Hj.
    rewrite Forall_forall in Hj. specialize (Hj w Hi). by destruct w.
  - unfold enqueue in Hq. by rewrite Hst in Hq.
Qed.

Lemma running_joined ws : Forall (fun w => is_exited w = true) ws -> running ws = [].
Proof. induction 1 as [|[] ws Hw _ IH]; simpl in *; congruence. Qed.

Lemma rtc_stopped st st' :
  stop st = true -> rtc step st st' -> stop st' = true /\ submitted st' = submitted st.
Proof.
  intros Hst Hr. induction Hr as [st|st st1 st' Hs _ IH]; [auto|].
  destruct (step_stopped _ _ Hst Hs) as (Hst1 & Hsub & _).
  destruct (IH Hst1) as [? ->]. auto.
Qed.

Lemma reachable_rtc n st st' : reachable n st -> rtc step st st' -> reachable n st'.
Proof. intros (st0 & Hc & Hr) Hr'. exists st0. split; [done | by etrans]. Qed.

(** A joined pool with at least one thread has an empty queue and has
    finished every task it accepted. *)
Lemma pool_inv_joined n st :
  pool_inv n st -> joined st -> workers st <> [] ->
  queue st = [] /\ finished st ≡ₚ submitted st.
Proof.
  intros [Hc Hf Hrun He] Hj Hne.
  destruct (workers st) as [|w ws] eqn:Hw; [done|].
  unfold joined in Hj. rewrite Hw in Hj.
  assert (Hx : Exited ∈ w :: ws).
  { apply Forall_cons in Hj as [Hw0 _].
    destruct w; try discriminate Hw0. apply elem_of_cons. by left. }
  destruct (He Hx) as [_ Hq]. rewrite Hq, app_nil_r in Hf.
  rewrite (running_joined _ Hj), app_nil_r in Hrun. split; [done|].
  by rewrite Hrun, Hf.
Qed.

Lemma joined_complete n st :
  reachable n st -> joined st -> queue st = [] /\ finished st ≡ₚ submitted st.
Proof.
  intros Hr Hj. pose proof (reachable_pool_inv _ _ Hr) as Hinv.
  apply (pool_inv_joined n); [done|done|]. destruct Hinv as [Hc _ _ _].
  destruct Hr as (st0 & Hcr & _). unfold create in Hcr. case_decide; [discriminate|].
  intros Hw. rewrite Hw in Hc. simpl in Hc. lia.
Qed.

(** ** No accepted task starves

    Stopped or not, the workers alone can take every task of the queue to
    a worker that runs it: worker 0 either pops the front of the queue or
    finishes its task, and it cannot have exited while the queue is not
    empty.  The measure decreases on the way. *)

Definition worker_rel (st st' : pool) : Prop := exists i, worker_step i st = Some st'.

Lemma running_lookup_inv (ws : list wstate) t :
  t ∈ running ws -> exists i, ws !! i = Some (Running t).
Proof.
  induction ws as [|w ws IH]; simpl; [by intros ?%elem_of_nil|].
  assert (Hs : t ∈ running ws -> exists i, (w :: ws) !! i = Some (Running t)).
  { intros (i & Hi)%IH. by exists (S i). }
  destruct w as [|t'|]; try exact Hs.
  intros [->|Ht]%elem_of_cons; [by exists 0|auto].
Qed.

Lemma queued_task_runs n st t :
  pool_inv n st -> 0 < n -> t ∈ queue st ++ running (workers st) ->
  exists st' i, rtc worker_rel st st' /\ workers st' !! i = Some (Running t).
Proof.
  remember (measure st) as m eqn:Hm. revert st Hm.
  induction m as [m IH] using lt_wf_ind. intros st -> Hinv Hn Ht.
  apply elem_of_app in Ht as [Ht|Ht];
    [|destruct (running_lookup_inv _ _ Ht) as [i Hi]; by exists st, i].
  destruct (workers st !! 0) as [w|] eqn:H0;
    [|apply lookup_ge_None in H0; rewrite (inv_count _ _ Hinv) in H0; lia].
  assert (Hstep : exists st', worker_step 0 st = Some st' /\ t ∈ queue st' ++ running (workers st')).
  { unfold worker_step. rewrite H0. destruct w as [|t'|].
    - destruct (queue st) as [|t0 q] eqn:Hq; [by apply elem_of_nil in Ht|].
      eexists. split; [reflexivity|]. cbn [queue workers]. apply elem_of_app.
      apply elem_of_cons in Ht as [->|Ht]; [|by left]. right.
      apply (running_lookup _ 0). apply list_lookup_insert_eq. by apply lookup_lt_Some in H0.
    - eexists. split; [reflexivity|]. cbn [queue]. by apply elem_of_app; left.
    - destruct (inv_exit _ _ Hinv) as [_ Hq]; [exact (list_elem_of_lookup_2 _ _ _ H0)|].
      rewrite Hq in Ht. by apply elem_of_nil in Ht. }
  destruct Hstep as (st1 & Hw & Ht1).
  destruct (IH _ (proj1 (worker_step_measure _ _ _ Hw)) st1 eq_refl
              (pool_inv_step _ _ _ Hinv (StepWorker _ _ _ Hw)) Hn Ht1) as (st' & i & Hr & Hi).
  exists st', i. split; [|exact Hi]. eapply rtc_l; [by exists 0|exact Hr].
Qed.

(** ** Refinement of the executor contract

    The abstraction keeps the queue as the pending tasks, the tasks of the
    running workers as the active ones (as a multiset: which thread runs a
    task is not observable), the finished history and [stop_].  A worker
    that returns is a step the contract does not see. *)

Definition abs_rel (n : nat) (st : pool) (e : Executor.exec task) : Prop :=
  pool_inv n st /\ Executor.pending e = queue st /\
  Executor.active e ≡ₚ running (workers st) /\
  Executor.done e = finished st /\ Executor.closed e = stop st.

Lemma running_length_waiting ws i :
  ws !! i = Some Waiting -> length (running ws) < length ws.
Proof.
  intros Hi. destruct (insert_split ws i _ Waiting Hi) as (l & r & -> & _).
  assert (Hle : forall l', length (running l') <= length l').
  { induction l' as [|[] l' IH]; simpl; lia. }
  rewrite running_app, !length_app. simpl. pose proof (Hle l). pose proof (Hle r). lia.
Qed.

Lemma abs_rel_init n st : create n = Ok st -> abs_rel n st Executor.exec_init.
Proof.
  intros Hc. split; [exact (pool_inv_create _ _ Hc)|].
  unfold create in Hc. case_decide; [discriminate|]. injection Hc as <-.
  repeat split; simpl; rewrite ?running_replicate_waiting; auto.
Qed.

Lemma worker_step_refines n st st' e i :
  worker_step i st = Some st' -> abs_rel n st e ->
  exists e', rtc (Executor.exec_step n) e e' /\ abs_rel n st' e'.
Proof.
  intros Hw (Hinv & Hp & Ha & Hd & Hc).
  pose proof (pool_inv_step _ _ _ Hinv (StepWorker _ _ _ Hw)) as Hinv'.
  unfold worker_step in Hw.
  destruct (workers st !! i) as [[|t|]|] eqn:Hi; try discriminate.
  - destruct (queue st) as [|t q] eqn:Hq.
    + destruct (stop st) eqn:Hst; [|discriminate]. injection Hw as <-.
      exists e. split; [reflexivity|]. pose proof (running_insert _ _ _ Exited Hi) as P.
      simpl in P. rewrite !app_nil_r in P. split; [done|]. repeat split; simpl; try congruence.
      by rewrite P.
    + injection Hw as <-.
      exists (Executor.mkExec q (Executor.active e ++ [t]) (Executor.done e) (Executor.closed e)).
      split.
      * apply rtc_once. apply (Executor.ExecStart n t q e Hp).
        rewrite Ha. destruct Hinv as [Hn _ _ _]. rewrite <- Hn.
        exact (running_length_waiting _ _ Hi).
      * pose proof (running_insert _ _ _ (Running t) Hi) as P. simpl in P.
        rewrite app_nil_r in P. split; [done|]. repeat split; simpl; try congruence.
        by rewrite P, Ha.
  - injection Hw as <-. pose proof (running_lookup _ _ _ Hi) as Ht.
    rewrite <- Ha in Ht. apply list_elem_of_split in Ht as (l1 & l2 & Hl).
    exists (Executor.mkExec (Executor.pending e) (l1 ++ l2) (Executor.done e ++ [t])
                            (Executor.closed e)).
    split; [apply rtc_once; exact (Executor.ExecFinish n l1 t l2 e Hl)|].
    pose proof (running_insert _ _ _ Waiting Hi) as P. simpl in P. rewrite app_nil_r in P.
    split; [done|]. repeat split; simpl; try congruence.
    apply (Permutation_app_inv_r [t]). rewrite P, <- Ha, Hl. solve_Permutation.
Qed.

Lemma step_refines n st st' e :
  step st st' -> abs_rel n st e ->
  exists e', rtc (Executor.exec_step n) e e' /\ abs_rel n st' e'.
Proof.
  intros Hs Hr. destruct Hs as [i st st' Hw | t st st' Hq | st Hstop];
    [exact (worker_step_refines _ _ _ _ _ Hw Hr)| |].
  - pose proof (pool_inv_step _ _ _ (proj1 Hr) (StepEnqueue _ _ _ Hq)) as Hinv'.
    destruct Hr as (_ & Hp & Ha & Hd & Hc). unfold enqueue in Hq.
    destruct (stop st) eqn:Hst; [discriminate|]. injection Hq as <-.
    eexists. split; [apply rtc_once; apply (Executor.ExecSubmit n t e); congruence|].
    split; [done|]. repeat split; simpl; congruence.
  - pose proof (pool_inv_step _ _ _ (proj1 Hr) (StepStop _ Hstop)) as Hinv'.
    destruct Hr as (_ & Hp & Ha & Hd & Hc).
    eexists. split; [apply rtc_once; apply (Executor.ExecClose n e); congruence|].
    split; [done|]. repeat split; simpl; congruence.
Qed.
End Pool.
Arguments wstate : clear implicits.
Arguments pool : clear implicits.
Arguments pool_error : clear implicits.

Section PoolProps.
Context {task : Type}.

(** C5. In every state reachable from the constructor, the tasks start
    in the order [enqueue] accepted them (the started tasks followed by
    the queue are the accepted ones), each started task is either
    finished or running on exactly one worker, the number of threads is
    the one given, and no worker has exited unless [stop_] is set. *)
Theorem pool_invariant n (st : pool task) :
  reachable n st ->
  started st ++ queue st = submitted st /\
  finished st ++ running (workers st) ≡ₚ started st /\
  thread_count st = n /\
  (Exited ∈ workers st -> stop st = true).
Proof.
  intros Hr. destruct (reachable_pool_inv _ _ Hr) as [Hc Hf Hrun He].
  repeat split; auto. intros Hx. by destruct (He Hx).
Qed.

(** C7. Once the destructor has set [stop_], every interleaving of the
    workers terminates: there is no infinite run. *)
Theorem drain_terminates (st : pool task) :
  stop st = true -> Acc (fun b a => step a b) st.
Proof. exact (stopped_acc st). Qed.

(** C2. Once [stop_] is set, a run that cannot continue has joined every
    thread, emptied the queue, accepted no new task, and finished every
    accepted task exactly once. *)
Theorem drain_complete n (st st' : pool task) :
  reachable n st -> stop st = true -> rtc step st st' ->
  (forall st'', ~ step st' st'') ->
  joined st' /\ queue st' = [] /\ submitted st' = submitted st /\
  finished st' ≡ₚ submitted st.
Proof.
  intros Hr Hst Hrtc Hstuck.
  destruct (rtc_stopped _ _ Hst Hrtc) as [Hst' Hsub].
  assert (Hj : joined st').
  { destruct (decide (joined st')) as [Hj|Hj]; [done|].
    destruct (stopped_progress _ Hst' Hj) as [st'' Hs]. by destruct (Hstuck st''). }
  destruct (joined_complete n st' (reachable_rtc _ _ _ Hr Hrtc) Hj) as [Hq Hfin].
  rewrite Hsub in Hfin. auto.
Qed.

(** C6. Once [stop_] is set, the workers can always run to the state in
    which the destructor's joins return, with every accepted task
    finished. *)
Theorem drain_reaches_joined n (st : pool task) :
  reachable n st -> stop st = true ->
  exists st', rtc step st st' /\ joined st' /\ finished st' ≡ₚ submitted st.
Proof.
  intros Hr Hst. induction (stopped_acc st Hst) as [st _ IH].
  destruct (decide (joined st)) as [Hj|Hj].
  - exists st. split; [reflexivity|]. split; [done|].
    exact (proj2 (joined_complete n st Hr Hj)).
  - destruct (stopped_progress _ Hst Hj) as [st1 Hs].
    destruct (step_stopped _ _ Hst Hs) as (Hst1 & Hsub & _).
    destruct (IH st1 Hs (reachable_rtc _ _ _ Hr (rtc_once _ _ Hs)) Hst1)
      as (st' & Hrtc & Hj' & Hfin).
    exists st'. split; [by eapply rtc_l|]. rewrite <- Hsub. auto.
Qed.
(** C15. Refinement: every state reachable from [ThreadPool(n)] is the
    image of a run of the executor contract with capacity [n]: the queue
    is the contract's pending list (so tasks start in acceptance order,
    one at a time from the front), the tasks of the running workers are
    its active tasks (so at most [n] run at once), the finished tasks are
    its done list, and [stop_] is its closed flag (so nothing is accepted
    after the destructor started). *)
Theorem pool_refines_executor n (st : pool task) :
  reachable n st ->
  exists e, rtc (Executor.exec_step n) Executor.exec_init e /\
    Executor.pending e = queue st /\ Executor.active e ≡ₚ running (workers st) /\
    Executor.done e = finished st /\ Executor.closed e = stop st.
Proof.
  intros (st0 & Hc & Hr).
  destruct (simulation_rtc step (Executor.exec_step n) (abs_rel n) (step_refines n)
              _ _ _ Hr (abs_rel_init _ _ Hc)) as (e & He & _ & H).
  eauto.
Qed.
(** C16. No accepted task starves: in every state reachable from
    [ThreadPool(n)], with [stop_] set or not, every accepted task still
    in the queue or running is, after steps of the workers alone (no
    further [enqueue], no destructor), run by some worker: a queued task
    is popped once the tasks ahead of it are, since a worker never exits
    while the queue is not empty. *)
Theorem accepted_task_runs n (st : pool task) t :
  reachable n st -> t ∈ queue st ++ running (workers st) ->
  exists st' i, rtc worker_rel st st' /\ workers st' !! i = Some (Running t).
Proof.
  intros Hr Ht. apply (queued_task_runs n st t (reachable_pool_inv _ _ Hr)); [|exact Ht].
  destruct Hr as (st0 & Hc & _). unfold create in Hc. case_decide; [discriminate|lia].
Qed.
End PoolProps.
End ThreadPool.

(** ** Witnesses: two threads, two tasks, then the destructor *)

Module ThreadPoolWitness.
Import ThreadPool.

Definition wp0 : pool nat := mkPool [] false [Waiting; Waiting] [] [] [].
Definition wp1 : pool nat := mkPool [7] false [Waiting; Waiting] [7] [] [].
Definition wp2 : pool nat := mkPool [7; 8] false [Waiting; Waiting] [7; 8] [] [].
Definition wp3 : pool nat := mkPool [7; 8] true [Waiting; Waiting] [7; 8] [] [].
Definition wp4 : pool nat := mkPool [8] true [Running 7; Waiting] [7; 8] [7] [].
Definition wp5 : pool nat := mkPool [] true [Running 7; Running 8] [7; 8] [7; 8] [].
Definition wp6 : pool nat := mkPool [] true [Waiting; Running 8] [7; 8] [7; 8] [7].
Definition wp7 : pool nat := mkPool [] true [Waiting; Waiting] [7; 8] [7; 8] [7; 8].
Definition wp8 : pool nat := mkPool [] true [Exited; Waiting] [7; 8] [7; 8] [7; 8].
Definition wp9 : pool nat := mkPool [] true [Exited; Exited] [7; 8] [7; 8] [7; 8].

Lemma wp_reachable : reachable 2 wp3.
Proof.
  exists wp0. split; [reflexivity|].
  eapply rtc_l; [apply (StepEnqueue 7); reflexivity|].
  eapply rtc_l; [apply (StepEnqueue 8); reflexivity|].
  eapply rtc_l; [apply (StepStop wp2); reflexivity|]. reflexivity.
Defined.

Lemma wp_drain : rtc step wp3 wp9.
Proof.
  eapply rtc_l; [apply (StepWorker 0); reflexivity|].
  eapply rtc_l; [apply (StepWorker 1); reflexivity|].
  eapply rtc_l; [apply (StepWorker 0); reflexivity|].
  eapply rtc_l; [apply (StepWorker 1); reflexivity|].
  eapply rtc_l; [apply (StepWorker 0); reflexivity|].
  eapply rtc_l; [apply (StepWorker 1); reflexivity|]. reflexivity.
Defined.

Lemma wp9_joined : joined wp9.
Proof. repeat constructor. Defined.

Lemma wp9_stuck : forall st'', ~ step wp9 st''.
Proof. apply joined_stuck; [reflexivity | exact wp9_joined]. Defined.

Lemma pool_invariant_witness :
  reachable 2 wp3 /\ started wp3 ++ queue wp3 = submitted wp3 /\ thread_count wp3 = 2.
Proof.
  split; [exact wp_reachable|].
  destruct (pool_invariant 2 wp3 wp_reachable) as (Hf & _ & Hc & _). auto.
Defined.

Lemma drain_terminates_witness : stop wp3 = true /\ Acc (fun b a => step a b) wp3.
Proof. split; [reflexivity | apply drain_terminates; reflexivity]. Defined.

Lemma drain_complete_witness :
  reachable 2 wp3 /\ stop wp3 = true /\ rtc step wp3 wp9 /\ (forall st'', ~ step wp9 st'') /\
  (joined wp9 /\ queue wp9 = [] /\ submitted wp9 = submitted wp3 /\
   finished wp9 ≡ₚ submitted wp3).
Proof.
  split; [exact wp_reachable | split; [reflexivity | split; [exact wp_drain | split; [exact wp9_stuck|]]]].
  exact (drain_complete 2 wp3 wp9 wp_reachable eq_refl wp_drain wp9_stuck).
Defined.

Lemma drain_reaches_joined_witness :
  reachable 2 wp3 /\ stop wp3 = true /\
  exists st', rtc step wp3 st' /\ joined st' /\ finished st' ≡ₚ submitted wp3.
Proof.
  split; [exact wp_reachable | split; [reflexivity|]].
  exact (drain_reaches_joined 2 wp3 wp_reachable eq_refl).
Defined.
Lemma wp5_reachable : reachable 2 wp5.
Proof.
  eapply reachable_rtc; [exact wp_reachable|].
  eapply rtc_l; [apply (StepWorker 0); reflexivity|].
  eapply rtc_l; [apply (StepWorker 1); reflexivity|]. reflexivity.
Defined.

Lemma pool_refines_executor_witness :
  reachable 2 wp5 /\
  exists e, rtc (Executor.exec_step 2) Executor.exec_init e /\
    Executor.pending e = queue wp5 /\ Executor.active e ≡ₚ running (workers wp5) /\
    Executor.done e = finished wp5 /\ Executor.closed e = stop wp5.
Proof. split; [exact wp5_reachable | exact (pool_refines_executor 2 wp5 wp5_reachable)]. Defined.
Lemma wp2_reachable : reachable 2 wp2.
Proof.
  exists wp0. split; [reflexivity|].
  eapply rtc_l; [apply (StepEnqueue 7); reflexivity|].
  eapply rtc_l; [apply (StepEnqueue 8); reflexivity|]. reflexivity.
Defined.

Lemma accepted_task_runs_witness :
  reachable 2 wp2 /\ stop wp2 = false /\ 8 ∈ queue wp2 ++ running (workers wp2) /\
  exists st' i, rtc worker_rel wp2 st' /\ workers st' !! i = Some (Running 8).
Proof.
  assert (H8 : 8 ∈ queue wp2 ++ running (workers wp2)) by (simpl; set_solver).
  split; [exact wp2_reachable | split; [reflexivity | split; [exact H8|]]].
  exact (accepted_task_runs 2 wp2 8 wp2_reachable H8).
Defined.
End ThreadPoolWitness.
