(* ===== verification/Consumer.v ===== *)
(** * The analyzer process: configuration, consumer loop, system (main.cpp)

    [main] reads its settings from the environment (lines 132-142),
    connects twice to Redis (lines 151-161), creates the consumer group
    (lines 163-165), builds the [ThreadPool] (line 171) and loops until
    [g_shutdown] is set (lines 173-219): [XAUTOCLAIM] (reply freed
    unread), [XREADGROUP ... BLOCK block_ms ... >], then one
    [pool.enqueue(process_message, ...)] per message with a non-empty
    payload.  The read is [Store.xreadgroup_block]: with [BLOCK 0] and
    nothing to hand out the main thread has no step until a producer adds
    an entry; a negative [BLOCK] gets an error reply, which the walk
    treats as empty.  Leaving the block runs
    [~ThreadPool], which sets [stop_] and joins the workers (line 220).

    - [Config]: [env], [atoi]/[atol] (glibc: [strtol] base 10, clamped to
      the range of [long]; [atoi] keeps the low 32 bits), the settings and
      the [thread_count] expression.
    - [Loop]: the walk over the [redisReply] of [XREADGROUP] (lines
      188-216) with C-string semantics ([->str] is read up to its first
      NUL; a [NULL] [->str] turned into a [std::string] throws
      [std::logic_error], which nothing catches: the process aborts), the
      main thread as a program counter, and the system: the main thread,
      the pool's workers running [process_message], the Redis store, and
      the environment (signals, producers, the clock, broken connections,
      and the other consumers of the group, which run this same program).
      The environment's moves are the constructors of [env_step].  A
      task's effects (its POST and its XACK under [mtx]) happen in the
      step in which its worker finishes it; [AckMutex] splits that step
      into the lock, the XACK and the unlock and proves it refines this
      one. *)

From Stdlib Require Import ZArith NArith Lia Ascii String.
From stdpp Require Import base list strings relations.
From S2P Require Import Prelude CNum Json Entropy PacketParser Worker Redis ThreadPool.

Module Config.
Open Scope Z_scope.

(** The process environment, as [getenv] sees it. *)
Definition environ : Type := string -> option string.

(** [env(key, fallback)]. *)
Definition env (e : environ) (key fallback : string) : string :=
  match e key with Some v => v | None => fallback end.

Definition dec_digit (c : ascii) : option Z :=
  let n := Stoul.code c in if (48 <=? n) && (n <=? 57) then Some (n - 48) else None.

(** The longest run of decimal digits, as a value. *)
Fixpoint dec_run (s : string) (acc : Z) : Z :=
  match s with
  | String c r => match dec_digit c with Some d => dec_run r (acc * 10 + d) | None => acc end
  | EmptyString => acc
  end.

Definition LONG_MIN : Z := - 2 ^ 63.
Definition LONG_MAX : Z := 2 ^ 63 - 1.

(** glibc's [strtol(s, NULL, 10)]: white space, a sign, digits; 0 when
    there is no digit; [LONG_MIN]/[LONG_MAX] on overflow. *)
Definition strtol10 (s : string) : Z :=
  let '(neg, s1) := Stoul.take_sign (Stoul.skip_spaces s) in
  let v := dec_run s1 0 in
  if neg then Z.max LONG_MIN (- v) else Z.min LONG_MAX v.

Definition atol (s : string) : Z := strtol10 s.

(** glibc's [atoi]: [(int) strtol(s, NULL, 10)]. *)
Definition atoi (s : string) : Z := Int.to_int32 (strtol10 s).

Record settings := mkSettings {
  redis_url : string;
  stream_name : string;
  consumer_group : string;
  consumer_name : string;
  api_url : string;
  worker_token : string;
  thread_count : Z;
  batch_size : Z;
  block_ms : Z
}.

(** [thread_count]: [std::max(1, atoi(T) ? atoi(T) :
    static_cast<int>(std::thread::hardware_concurrency()))], for the
    value [hw] of [hardware_concurrency()], an [unsigned]. *)
Definition thread_count_of (e : environ) (hw : Z) : Z :=
  let a := atoi (env e "THREAD_COUNT" "0") in
  Z.max 1 (if a =? 0 then Int.to_int32 hw else a).

(** Lines 132-142. *)
Definition settings_of (e : environ) (hw : Z) : settings :=
  {| redis_url := env e "REDIS_URL" "redis://localhost:6379";
     stream_name := env e "REDIS_STREAM" "anomaly:raw";
     consumer_group := env e "CONSUMER_GROUP" "analyzers";
     consumer_name := env e "CONSUMER_NAME" "worker-0";
     api_url := env e "RAILS_API_URL" "http://localhost:3000/api/v1/anomalies";
     worker_token := env e "WORKER_TOKEN" "dev-secret-change-me";
     thread_count := thread_count_of e hw;
     batch_size := atol (env e "BATCH_SIZE" "64");
     block_ms := atol (env e "BLOCK_MS" "500") |}.

(** The arguments [process_message] receives besides the message. *)
Definition worker_config (s : settings) : Worker.config :=
  {| Worker.api_url := api_url s; Worker.worker_token := worker_token s;
     Worker.stream_name := stream_name s; Worker.consumer_group := consumer_group s |}.
End Config.

Module Loop.
Import Resp Config.

(** A task: the [stream_id] and [payload] that [pool.enqueue] binds. *)
Definition task : Type := string * string.

(** [std::string(p)] for a [char*] [p]: the characters before the first
    NUL. *)
Fixpoint c_str (s : string) : string :=
  match s with
  | String c r => if Ascii.eqb c (ascii_of_nat 0) then EmptyString else String c (c_str r)
  | EmptyString => EmptyString
  end.

(** [std::string(r->str)]; [None] when [r->str] is [NULL]. *)
Definition cstr (r : reply) : option string := c_str <$> Resp.str r.

(** The inner loop of lines 201-206 over [fields->element]: the value of
    the first [payload] key, [""] if there is none; [None] when a [NULL]
    string is read. *)
Fixpoint find_payload (fs : list reply) : option string :=
  match fs with
  | k :: v :: rest =>
      ks ← cstr k;
      if String.eqb ks "payload" then cstr v else find_payload rest
  | _ => Some ""
  end.

(** The loop of lines 194-215 over [messages->element]: the tasks it
    enqueues, in order, and whether it then aborts on a [NULL] string. *)
Fixpoint collect (msgs : list reply) : list task * bool :=
  match msgs with
  | [] => ([], false)
  | m :: rest =>
      match Resp.elements m with
      | idr :: fields :: _ =>
          match cstr idr with
          | None => ([], true)
          | Some sid =>
              match find_payload (Resp.elements fields) with
              | None => ([], true)
              | Some p =>
                  let '(ts, f) := collect rest in
                  (if String.eqb p "" then ts else (sid, p) :: ts, f)
              end
          end
      | _ => collect rest
      end
  end.

(** Lines 190-193: the first stream of an array reply, its messages. *)
Definition read_tasks (r : reply) : list task * bool :=
  match r with
  | RArray (se :: _) =>
      match Resp.elements se with
      | _ :: msgs :: _ => collect (Resp.elements msgs)
      | _ => ([], false)
      end
  | _ => ([], false)
  end.

(** Where the main thread is. *)
Inductive location :=
| Check                                        (* [while (!g_shutdown)] *)
| Claim                                        (* [XAUTOCLAIM] *)
| Read                                         (* [XREADGROUP] *)
| Dispatch (todo : list task) (fault : bool)   (* the [enqueue] calls *)
| Joining                                      (* [~ThreadPool] joins *)
| Done                                         (* [return 0] *)
| Failed                                       (* [return 1] before the loop *)
| Aborted.                                     (* [std::terminate] *)

Record sys := mkSys {
  srv : Store.server;
  pool : ThreadPool.pool task;
  loc : location;
  shutdown : bool;         (* [g_shutdown] *)
  main_ok : bool;          (* [redis_main] has no error *)
  ack_ok : bool;           (* [redis_ack] has no error *)
  trace : list Worker.effect
}.

Definition set_loc (l : location) (st : sys) : sys :=
  mkSys (srv st) (pool st) l (shutdown st) (main_ok st) (ack_ok st) (trace st).

Definition set_srv (sv : Store.server) (st : sys) : sys :=
  mkSys sv (pool st) (loc st) (shutdown st) (main_ok st) (ack_ok st) (trace st).

Definition empty_pool : ThreadPool.pool task := ThreadPool.mkPool [] false [] [] [] [].

(** [main] up to the loop: with both connections up, [XGROUP CREATE]
    (its error ignored) and [ThreadPool pool(thread_count)], whose
    [std::invalid_argument] would terminate the process. *)
Definition boot (s : settings) (connected : bool) (srv0 : Store.server) : sys :=
  if connected then
    let srv1 := (Store.xgroup_create (stream_name s) (consumer_group s) srv0).2 in
    match ThreadPool.create (Z.to_nat (thread_count s)) with
    | Ok p => mkSys srv1 p Check false true true []
    | Err _ => mkSys srv1 empty_pool Aborted false true true []
    end
  else mkSys srv0 empty_pool Failed false false false [].

Definition all_exited (ws : list (ThreadPool.wstate task)) : bool :=
  forallb ThreadPool.is_exited ws.

(** One step of the main thread. *)
Definition main_step (s : settings) (st : sys) : option sys :=
  match loc st with
  | Check =>
      if shutdown st
      then Some (mkSys (srv st) (ThreadPool.request_stop (pool st)) Joining
                       (shutdown st) (main_ok st) (ack_ok st) (trace st))
      else Some (set_loc Claim st)
  | Claim =>
      let sv := if main_ok st
                then (Store.xautoclaim (stream_name s) (consumer_group s) (consumer_name s)
                                       30000 (batch_size s) (srv st)).2
                else srv st in
      Some (set_loc Read (set_srv sv st))
  | Read =>
      if main_ok st then
        match Store.xreadgroup_block (stream_name s) (consumer_group s) (consumer_name s)
                                     (batch_size s) (block_ms s) (srv st) with
        | Some (r, sv) =>
            let '(todo, f) := read_tasks r in
            Some (set_loc (Dispatch todo f) (set_srv sv st))
        | None => None
        end
      else Some (set_loc Check st)
  | Dispatch (t :: todo) f =>
      match ThreadPool.enqueue t (pool st) with
      | Ok p => Some (mkSys (srv st) p (Dispatch todo f) (shutdown st) (main_ok st)
                            (ack_ok st) (trace st))
      | Err _ => Some (set_loc Aborted st)
      end
  | Dispatch [] f => Some (set_loc (if f then Aborted else Check) st)
  | Joining =>
      if all_exited (ThreadPool.workers (pool st)) then Some (set_loc Done st) else None
  | Done | Failed | Aborted => None
  end.

(** An [XACK] a task sends on [redis_ack]; nothing reaches the server
    when the connection is broken. *)
Definition apply_effect (ok : bool) (sv : Store.server) (e : Worker.effect) : Store.server :=
  match e with
  | Worker.EAck key g sid => if ok then (Store.xack key g sid sv).2 else sv
  | _ => sv
  end.

Definition running (l : location) : bool :=
  match l with Done | Failed | Aborted => false | _ => true end.

Section System.
Context `{LM : Libm} `{JP : JsonParser}.

(** One step of worker [i]; when it finishes a task, that task's effects
    under the sink's answers [send]. *)
Definition run_worker (s : settings) (send : Sink.request -> Sink.curl_outcome) (i : nat)
    (st : sys) : option sys :=
  if running (loc st) then
    p ← ThreadPool.worker_step i (pool st);
    match ThreadPool.workers (pool st) !! i with
    | Some (ThreadPool.Running t) =>
        let effs := (Worker.process_message send (worker_config s) t.1 t.2).1 in
        Some (mkSys (fold_left (apply_effect (ack_ok st)) effs (srv st)) p (loc st)
                    (shutdown st) (main_ok st) (ack_ok st) (trace st ++ effs))
    | _ => Some (mkSys (srv st) p (loc st) (shutdown st) (main_ok st) (ack_ok st) (trace st))
    end
  else None.

(** What the other consumers of the group, instances of this program,
    do to the store: read new entries, reclaim idle ones (reply
    discarded), acknowledge an entry delivered to them. *)
Inductive other_step (s : settings) : Store.server -> Store.server -> Prop :=
| OtherRead c n sv :
    c <> consumer_name s ->
    other_step s sv (Store.xreadgroup (stream_name s) (consumer_group s) c n sv).2
| OtherClaim c n sv :
    c <> consumer_name s ->
    other_step s sv (Store.xautoclaim (stream_name s) (consumer_group s) c 30000 n sv).2
| OtherAck c i gr sv :
    c <> consumer_name s -> Store.group sv = Some gr -> (i, c) ∈ Store.delivered gr ->
    other_step s sv (Store.xack (stream_name s) (consumer_group s) (StreamId.render i) sv).2.

(** What the environment does: a signal, a producer, the clock, the other
    consumers, and a connection that breaks. *)
Inductive env_step (s : settings) : sys -> sys -> Prop :=
| EnvSignal st :
    env_step s st (mkSys (srv st) (pool st) (loc st) true (main_ok st) (ack_ok st) (trace st))
| EnvProduce fields st : env_step s st (set_srv (Store.xadd fields (srv st)) st)
| EnvTick d st : env_step s st (set_srv (Store.tick d (srv st)) st)
| EnvOther st sv : other_step s (srv st) sv -> env_step s st (set_srv sv st)
| EnvMainFail st :
    env_step s st (mkSys (srv st) (pool st) (loc st) (shutdown st) false (ack_ok st) (trace st))
| EnvAckFail st :
    env_step s st (mkSys (srv st) (pool st) (loc st) (shutdown st) (main_ok st) false (trace st)).

Inductive sys_step (s : settings) : sys -> sys -> Prop :=
| SysMain st st' : main_step s st = Some st' -> sys_step s st st'
| SysWorker send i st st' : run_worker s send i st = Some st' -> sys_step s st st'
| SysEnv st st' : env_step s st st' -> sys_step s st st'.

(** The steps of the process itself: its main thread and its workers. *)
Inductive prog_step (s : settings) : sys -> sys -> Prop :=
| ProgMain st st' : main_step s st = Some st' -> prog_step s st st'
| ProgWorker send i st st' : run_worker s send i st = Some st' -> prog_step s st st'.

Definition reachable (s : settings) (st : sys) : Prop :=
  exists connected srv0, StoreSpec.wf srv0 /\ rtc (sys_step s) (boot s connected srv0) st.
End System.
End Loop.
