(* ===== verification/ConsumerProps.v ===== *)
(** * Properties of the consumer loop and of the analyzer process

    - [ReplySpec]: the walk of lines 188-216 over the reply that
      [XREADGROUP] builds yields exactly the handed-out entries with a
      non-empty payload, in order, with their ids, and never aborts.
    - [ConfigSpec]: the thread count is between 1 and [INT_MAX], so the
      pool is always built.
    - [SystemSpec]: the invariant of the whole process (store well formed,
      pool invariant, every dispatched id delivered to this consumer and
      dispatched once) and what follows from it: no entry is dispatched
      twice, no entry is acknowledged twice, an entry whose POST failed is
      never dispatched again and stays pending, a broken read connection
      stops all dispatching, after the shutdown signal the process stops
      (when [BLOCK_MS] is not 0), every undelivered entry with a payload
      is eventually dispatched (when [BLOCK_MS] is not negative), with
      [BLOCK_MS] 0 an idle read never returns to the shutdown test, and
      with a negative [BLOCK_MS] nothing is ever dispatched; an entry
      without a payload is never dispatched nor acknowledged; and, composing
      the loop, the pool ([ThreadPool.queued_task_runs]) and the task
      ([WorkerSpec.process_message_sink_up]), with both connections up and
      a sink that answers 201 every undelivered entry with a payload is
      eventually acknowledged.
    - [ConsumerWitness]: concrete runs of the process, evaluated, on which
      the theorems are applied. *)

From Stdlib Require Import ZArith NArith Lia Ascii String Sorted.
From stdpp Require Import base list strings relations.
From S2P Require Import Prelude CNum Json Entropy PacketParser Worker Redis ThreadPool Consumer.

Module ReplySpec.
Import Resp Store Loop.

(** The payload [find_payload] reads from the field list of an entry. *)
Fixpoint payload_of (fields : list (string * string)) : string :=
  match fields with
  | [] => ""
  | (k, v) :: rest => if String.eqb (c_str k) "payload" then c_str v else payload_of rest
  end.

(** The tasks the loop should enqueue for a batch of entries. *)
Fixpoint dispatchable (batch : list entry) : list task :=
  match batch with
  | [] => []
  | e :: rest =>
      let p := payload_of (efields e) in
      if String.eqb p "" then dispatchable rest
      else (StreamId.render (eid e), p) :: dispatchable rest
  end.

Lemma c_str_uint u : c_str (Fmt.uint_to_string u) = Fmt.uint_to_string u.
Proof. induction u; simpl; rewrite ?IHu; reflexivity. Qed.

Lemma c_str_uint_app u rest :
  c_str (Fmt.uint_to_string u ++ rest)%string = (Fmt.uint_to_string u ++ c_str rest)%string.
Proof. induction u; simpl; rewrite ?IHu; reflexivity. Qed.

(** Ids contain no NUL: [std::string(msg->element[0]->str)] is the id. *)
Lemma c_str_render i : c_str (StreamId.render i) = StreamId.render i.
Proof.
  unfold StreamId.render. rewrite c_str_uint_app.
  change (c_str ("-" ++ ?x)%string) with (String "-" (c_str x)). by rewrite c_str_uint.
Qed.

Lemma find_payload_fields fields :
  find_payload (concat (map (fun kv => [RString kv.1; RString kv.2]) fields)) =
  Some (payload_of fields).
Proof. induction fields as [|[k v] fields IH]; [done|]. simpl. by destruct (String.eqb _ _). Qed.

Lemma collect_entries batch : collect (map entry_reply batch) = (dispatchable batch, false).
Proof.
  induction batch as [|e batch IH]; [done|]. simpl.
  unfold cstr. simpl. rewrite c_str_render, find_payload_fields, IH.
  by destruct (String.eqb _ _).
Qed.

(** The ids of the dispatched tasks are ids of the batch, in order. *)
Lemma dispatchable_ids batch :
  exists L, sublist L (map eid batch) /\ map fst (dispatchable batch) = map StreamId.render L.
Proof.
  induction batch as [|e batch (L & HL & Hm)]; [by exists []|]. simpl.
  destruct (String.eqb _ _).
  - exists L. split; [by apply sublist_cons | done].
  - exists (eid e :: L). split; [by apply sublist_skip | simpl; by rewrite Hm].
Qed.

(** An entry of the batch with a non-empty payload is dispatched. *)
Lemma dispatchable_In batch e :
  In e batch -> payload_of (efields e) <> "" ->
  (StreamId.render (eid e), payload_of (efields e)) ∈ dispatchable batch.
Proof.
  induction batch as [|x batch IH]; [done|]. intros [->|Hin] Hp; simpl.
  - destruct (String.eqb_spec (payload_of (efields e)) ""); [done|]. apply elem_of_cons. by left.
  - destruct (String.eqb _ _); [auto|]. apply elem_of_cons. right. auto.
Qed.

(** Every task of a batch is an entry of it with a non-empty payload. *)
Lemma dispatchable_inv batch t :
  t ∈ dispatchable batch ->
  exists e, In e batch /\ t = (StreamId.render (eid e), payload_of (efields e)) /\
            payload_of (efields e) <> "".
Proof.
  induction batch as [|x batch IH]; simpl; [by intros ?%elem_of_nil|].
  destruct (String.eqb_spec (payload_of (efields x)) "") as [Hx|Hx].
  - intros (e & ? & ? & ?)%IH. eauto.
  - intros [->|(e & ? & ? & ?)%IH]%elem_of_cons; eauto.
Qed.

(** The batch [XREADGROUP] hands out. *)
Definition handed_out (key g : string) (n : Z) (sv : server) : list entry :=
  match group_of key g sv with Some gr => batch_of gr n sv | None => [] end.

Lemma handed_out_entries key g n sv e : In e (handed_out key g n sv) -> In e (entries sv).
Proof.
  unfold handed_out. destruct (group_of key g sv) as [gr|]; [|done].
  intros He. apply list_elem_of_In. apply list_elem_of_In in He.
  exact (elem_of_sublist _ _ _ He (StoreSpec.batch_of_sublist gr n sv)).
Qed.

(** The walk over the reply of [XREADGROUP ... >]. *)
Lemma read_tasks_xreadgroup key g c n sv :
  read_tasks (xreadgroup key g c n sv).1 = (dispatchable (handed_out key g n sv), false).
Proof.
  unfold handed_out.
  destruct (StoreSpec.xreadgroup_cases key g c n sv)
    as [[-> ->]|[(gr & -> & Hb & ->)|(gr & e & -> & _ & ->)]]; simpl.
  - done.
  - by rewrite Hb.
  - exact (collect_entries _).
Qed.
(** What the loop takes from a read with its [BLOCK] argument: nothing,
    after the error of a negative timeout, or the tasks of the batch. *)
Lemma read_block_effect key g c n b sv r sv' :
  xreadgroup_block key g c n b sv = Some (r, sv') ->
  (read_tasks r = ([], false) /\ sv' = sv) \/
  (read_tasks r = (dispatchable (handed_out key g n sv), false) /\ sv' = (xreadgroup key g c n sv).2).
Proof.
  intros Hb. destruct (StoreSpec.xreadgroup_block_Some _ _ _ _ _ _ _ _ Hb) as [(-> & -> & _)|[_ E]].
  - by left.
  - right. pose proof (read_tasks_xreadgroup key g c n sv) as H. rewrite <- E in H. by rewrite <- E.
Qed.
End ReplySpec.

Module ConfigSpec.
Import Config Loop.

Lemma atoi_range str : Int.INT_MIN <= atoi str <= Int.INT_MAX.
Proof.
  unfold atoi, Int.to_int32. pose proof (Int.swrap_range 32 (strtol10 str)) as H.
  unfold Int.INT_MIN, Int.INT_MAX. simpl in *. lia.
Qed.

(** C39. Whatever the environment and the hardware report, the thread
    count is between 1 and [INT_MAX]: [ThreadPool pool(thread_count)]
    never throws, and the loop starts with that many workers. *)
Theorem thread_count_range e hw srv0 :
  1 <= thread_count_of e hw <= Int.INT_MAX /\
  loc (boot (settings_of e hw) true srv0) = Check /\
  ThreadPool.thread_count (pool (boot (settings_of e hw) true srv0)) =
    Z.to_nat (thread_count_of e hw).
Proof.
  assert (Hr : 1 <= thread_count_of e hw <= Int.INT_MAX).
  { unfold thread_count_of. pose proof (atoi_range (env e "THREAD_COUNT" "0")) as Ha.
    pose proof (Int.swrap_range 32 hw) as Hh. unfold Int.to_int32, Int.INT_MAX, Int.INT_MIN in *.
    simpl in *. destruct (_ =? 0); lia. }
  split; [exact Hr|]. unfold boot. cbn [thread_count settings_of].
  unfold ThreadPool.create. rewrite decide_False by lia. cbn.
  split; [done|]. apply length_replicate.
Qed.
End ConfigSpec.

Module SystemSpec.
Import Resp Store StoreSpec Config Loop ReplySpec.

Definition todo_of (l : location) : list task :=
  match l with Dispatch todo _ => todo | _ => [] end.

Definition fault_of (l : location) : bool :=
  match l with Dispatch _ f => f | _ => false end.

(** The ids of the [XACK]s of a trace of task effects. *)
Definition acks_of (tr : list Worker.effect) : list string :=
  flat_map (fun e => match e with Worker.EAck _ _ sid => [sid] | _ => [] end) tr.

Lemma acks_of_app tr1 tr2 : acks_of (tr1 ++ tr2) = acks_of tr1 ++ acks_of tr2.
Proof. apply flat_map_app. Qed.

Section Inv.
Context `{LM : Libm} `{JP : JsonParser}.
Variable s : settings.

(** The ids [XREADGROUP] handed to this consumer, in order. *)
Definition mine (sv : server) : list StreamId.id :=
  match group sv with
  | Some gr => map fst (List.filter (fun d => String.eqb d.2 (consumer_name s)) (delivered gr))
  | None => []
  end.

(** The tasks given to the pool, then those the loop is about to give. *)
Definition dispatched (st : sys) : list task :=
  ThreadPool.submitted (pool st) ++ todo_of (loc st).

Record sys_inv (st : sys) : Prop := {
  inv_wf : wf (srv st);
  inv_pool : ThreadPool.pool_inv (length (ThreadPool.workers (pool st))) (pool st);
  inv_ids : exists L, map fst (dispatched st) = map StreamId.render L /\ sublist L (mine (srv st));
  inv_fault : fault_of (loc st) = false;
  inv_acks : sublist (acks_of (trace st)) (map fst (ThreadPool.finished (pool st)));
  inv_workers : running (loc st) = true \/ loc st = Done -> ThreadPool.workers (pool st) <> [];
  inv_stop : ThreadPool.stop (pool st) = true <-> loc st = Joining \/ loc st = Done;
  inv_done : loc st = Done -> all_exited (ThreadPool.workers (pool st)) = true
}.

(** ** How the store operations move [mine] *)

Lemma mine_set_group sv gr gr' :
  group sv = Some gr -> delivered gr' = delivered gr -> mine (set_group sv gr') = mine sv.
Proof. intros Hg Hd. unfold mine. cbn [group set_group]. by rewrite Hg, Hd. Qed.

Lemma mine_xautoclaim key g c mi n sv : mine (xautoclaim key g c mi n sv).2 = mine sv.
Proof.
  destruct (xautoclaim_group key g c mi n sv) as [->|(gr & ps & Hg & _ & ->)]; [done|].
  by apply (mine_set_group _ gr).
Qed.

Lemma mine_xack key g sid sv : mine (xack key g sid sv).2 = mine sv.
Proof.
  destruct (xack_group key g sid sv) as [->|(gr & i & Hg & _ & ->)]; [done|].
  by apply (mine_set_group _ gr).
Qed.

Lemma filter_mine_tag {A} (c : string) (f : A -> StreamId.id) (l : list A) :
  map fst (List.filter (fun d => String.eqb d.2 (consumer_name s)) (map (fun x => (f x, c)) l)) =
  if String.eqb c (consumer_name s) then map f l else [].
Proof.
  destruct (String.eqb c (consumer_name s)) eqn:E;
    induction l as [|x l IH]; simpl; rewrite ?E; simpl; by rewrite ?IH.
Qed.

Lemma mine_xreadgroup key g c n sv :
  mine (xreadgroup key g c n sv).2 =
  mine sv ++ (if String.eqb c (consumer_name s) then map eid (handed_out key g n sv) else []).
Proof.
  unfold handed_out.
  destruct (xreadgroup_cases key g c n sv)
    as [[-> ->]|[(gr & -> & Hb & ->)|(gr & e & Hgo & _ & ->)]].
  - destruct (String.eqb _ _); simpl; by rewrite app_nil_r.
  - rewrite Hb. destruct (String.eqb _ _); simpl; by rewrite app_nil_r.
  - rewrite Hgo. unfold mine. cbn [snd group set_group delivered].
    rewrite (group_of_Some _ _ _ _ Hgo), List.filter_app, map_app.
    by rewrite (filter_mine_tag c eid).
Qed.

(** A task's [XACK]s leave the store well formed and [mine] unchanged. *)
Lemma apply_effects_wf ok effs sv :
  wf sv -> wf (fold_left (apply_effect ok) effs sv) /\
           mine (fold_left (apply_effect ok) effs sv) = mine sv.
Proof.
  revert sv. induction effs as [|e effs IH]; intros sv Hw; [done|]. simpl.
  assert (H1 : wf (apply_effect ok sv e) /\ mine (apply_effect ok sv e) = mine sv).
  { destruct e as [| | |key g sid]; simpl; try done.
    destruct ok; [|done]. split; [by apply wf_xack | apply mine_xack]. }
  destruct H1 as [Hw1 Hm1]. destruct (IH _ Hw1) as [? Hm]. rewrite Hm, Hm1. done.
Qed.

(** The [XACK]s of one task: its own entry, or none. *)
Lemma acks_process_message send c sid payload :
  acks_of (Worker.process_message send c sid payload).1 = [sid] \/
  acks_of (Worker.process_message send c sid payload).1 = [].
Proof.
  destruct (WorkerSpec.process_message_cases send c sid payload)
    as [[e ->]|[[r ->]|[(r & line & ->)| ->]]]; simpl; auto.
Qed.

Lemma pool_inv_length n (p p' : ThreadPool.pool task) :
  ThreadPool.pool_inv n p -> ThreadPool.step p p' ->
  ThreadPool.pool_inv (length (ThreadPool.workers p')) p' /\
  length (ThreadPool.workers p') = length (ThreadPool.workers p).
Proof.
  intros Hi Hs. pose proof (ThreadPool.pool_inv_step _ _ _ Hi Hs) as Hi'.
  pose proof (ThreadPool.inv_count _ _ Hi) as Hc. pose proof (ThreadPool.inv_count _ _ Hi') as Hc'.
  rewrite Hc'. split; [done|congruence].
Qed.

(** What one step of a worker does to the system. *)
Lemma run_worker_inv send i st st' :
  run_worker s send i st = Some st' ->
  running (loc st) = true /\ ThreadPool.worker_step i (pool st) = Some (pool st') /\
  loc st' = loc st /\ shutdown st' = shutdown st /\ ack_ok st' = ack_ok st /\
  ((exists t, ThreadPool.workers (pool st) !! i = Some (ThreadPool.Running t) /\
     srv st' = fold_left (apply_effect (ack_ok st))
                 (Worker.process_message send (worker_config s) t.1 t.2).1 (srv st) /\
     trace st' = trace st ++ (Worker.process_message send (worker_config s) t.1 t.2).1 /\
     ThreadPool.finished (pool st') = ThreadPool.finished (pool st) ++ [t]) \/
   (srv st' = srv st /\ trace st' = trace st /\
    ThreadPool.finished (pool st') = ThreadPool.finished (pool st))).
Proof.
  unfold run_worker. destruct (running (loc st)) eqn:Hr; [|discriminate].
  destruct (ThreadPool.worker_step i (pool st)) as [p|] eqn:Hw; [|discriminate]. simpl.
  pose proof Hw as Hw'. unfold ThreadPool.worker_step in Hw'.
  destruct (ThreadPool.workers (pool st) !! i) as [[|t|]|] eqn:Hi; try discriminate Hw';
    intros [= <-]; cbn [srv pool loc shutdown ack_ok trace]; do 5 (split; [done|]).
  - right. repeat split. destruct (ThreadPool.queue (pool st)); [|by injection Hw' as <-].
    destruct (ThreadPool.stop (pool st)); [by injection Hw' as <-|discriminate].
  - left. exists t. repeat split. by injection Hw' as <-.
Qed.
Lemma sys_inv_set_srv st sv :
  sys_inv st -> wf sv -> mine sv = mine (srv st) -> sys_inv (set_srv sv st).
Proof.
  intros [Hwf Hp Hids Hf Ha Hwk Hst Hd] Hw Hm. split; cbn [srv pool loc trace set_srv]; auto.
  by rewrite Hm.
Qed.

Lemma sys_inv_worker send i st st' :
  sys_inv st -> run_worker s send i st = Some st' -> sys_inv st'.
Proof.
  intros [Hwf Hp Hids Hf Ha Hwk Hst Hd] Hr.
  destruct (run_worker_inv _ _ _ _ Hr) as (Hrun & Hw & Hl & Hsd & Hok & Hcase).
  destruct (ThreadPool.worker_step_measure _ _ _ Hw) as (_ & Hstop & Hsub).
  destruct (pool_inv_length _ _ _ Hp (ThreadPool.StepWorker _ _ _ Hw)) as [Hp' Hlen].
  assert (Hsrv : wf (srv st') /\ mine (srv st') = mine (srv st)).
  { destruct Hcase as [(t & _ & -> & _ & _)|(-> & _ & _)]; [by apply apply_effects_wf | done]. }
  destruct Hsrv as [Hwf' Hm]. split.
  - exact Hwf'.
  - exact Hp'.
  - unfold dispatched. by rewrite Hsub, Hl, Hm.
  - by rewrite Hl.
  - destruct Hcase as [(t & Hi & _ & -> & ->)|(_ & -> & ->)]; [|exact Ha].
    rewrite acks_of_app, map_app. apply sublist_app; [exact Ha|].
    destruct (acks_process_message send (worker_config s) t.1 t.2) as [->| ->];
      [reflexivity | apply sublist_nil_l].
  - rewrite Hl. intros Hr' Hnil. apply (Hwk Hr'). apply nil_length_inv. by rewrite <- Hlen, Hnil.
  - by rewrite Hstop, Hl.
  - rewrite Hl. intros Hdn. rewrite Hdn in Hrun. discriminate.
Qed.

(** The invariant after a step that leaves the pool and the store alone
    and moves the main thread to a location that is neither [Joining] nor
    [Done] and has nothing to dispatch. *)
Lemma sys_inv_set_loc st l :
  sys_inv st -> loc st <> Joining -> loc st <> Done -> todo_of (loc st) = [] ->
  todo_of l = [] -> fault_of l = false -> l <> Joining -> l <> Done ->
  (running l = true -> running (loc st) = true) -> sys_inv (set_loc l st).
Proof.
  intros [Hwf Hp Hids Hf Ha Hwk Hst Hd] H1 H2 Ht Ht' Hf' H1' H2' Hr.
  split; cbn [srv pool loc trace set_loc]; auto.
  - unfold dispatched in *. cbn [pool loc set_loc]. by rewrite Ht', <- Ht.
  - intros [Hr'|?]; [|done]. apply Hwk. left. by apply Hr.
  - rewrite Hst. tauto.
Qed.

Lemma sys_inv_main st st' : sys_inv st -> main_step s st = Some st' -> sys_inv st'.
Proof.
  intros Hi Hm. pose proof Hi as [Hwf Hp Hids Hf Ha Hwk Hst Hd].
  assert (Hstop0 : loc st <> Joining -> loc st <> Done -> ThreadPool.stop (pool st) = false).
  { intros H1 H2. destruct (ThreadPool.stop (pool st)); [|done].
    destruct (proj1 Hst eq_refl); congruence. }
  unfold main_step in Hm. destruct (loc st) as [| | |todo f| | | |] eqn:Hl; try discriminate Hm.
  - specialize (Hstop0 ltac:(discriminate) ltac:(discriminate)).
    destruct (shutdown st); injection Hm as <-.
    + destruct (pool_inv_length _ _ _ Hp (ThreadPool.StepStop _ Hstop0)) as [Hp' Hlen].
      constructor; [exact Hwf | exact Hp' | | reflexivity | exact Ha | | |discriminate].
      * unfold dispatched in *. rewrite Hl in Hids. exact Hids.
      * intros _ Hnil. apply (Hwk (or_introl (eq_refl : running Check = true))).
        apply nil_length_inv. rewrite <- Hlen. cbn [pool] in Hnil. by rewrite Hnil.
      * split; [auto|done].
    + apply sys_inv_set_loc; rewrite ?Hl; done.
  - injection Hm as <-.
    assert (Hs : wf (if main_ok st then (xautoclaim (stream_name s) (consumer_group s)
                   (consumer_name s) 30000 (batch_size s) (srv st)).2 else srv st) /\
                 mine (if main_ok st then (xautoclaim (stream_name s) (consumer_group s)
                   (consumer_name s) 30000 (batch_size s) (srv st)).2 else srv st) = mine (srv st)).
    { destruct (main_ok st); [split; [by apply wf_xautoclaim | apply mine_xautoclaim] | done]. }
    destruct Hs as [Hw' Hm']. apply sys_inv_set_loc; cbn [loc set_srv]; rewrite ?Hl; try done.
    by apply sys_inv_set_srv.
  - destruct (main_ok st); [|injection Hm as <-; apply sys_inv_set_loc; rewrite ?Hl; done].
    destruct (xreadgroup_block _ _ _ _ _ _) as [[r sv]|] eqn:Eb; [|discriminate].
    destruct (read_block_effect _ _ _ _ _ _ _ _ Eb) as [[Hrt ->]|[Hrt ->]]; rewrite Hrt in Hm;
      injection Hm as <-.
    + apply sys_inv_set_loc; cbn [loc set_srv]; rewrite ?Hl; try done.
      by apply sys_inv_set_srv.
    + pose proof (mine_xreadgroup (stream_name s) (consumer_group s) (consumer_name s)
                    (batch_size s) (srv st)) as Hmx.
      pose proof (wf_xreadgroup (stream_name s) (consumer_group s) (consumer_name s)
                    (batch_size s) (srv st) Hwf) as Hwx.
      rewrite String.eqb_refl in Hmx.
      constructor; [exact Hwx | exact Hp | | reflexivity | exact Ha
                   | exact (fun _ => Hwk (or_introl eq_refl)) | | discriminate].
      * destruct Hids as (L & HL & Hsub). unfold dispatched in HL. rewrite Hl in HL.
        change (todo_of Read) with (@nil task) in HL. rewrite app_nil_r in HL.
        destruct (dispatchable_ids (handed_out (stream_name s) (consumer_group s)
                                      (batch_size s) (srv st))) as (Lb & HLb & HmLb).
        exists (L ++ Lb). unfold dispatched. cbn [loc set_loc set_srv todo_of srv pool].
        rewrite !map_app. split; [f_equal; [exact HL | exact HmLb]|].
        rewrite Hmx. by apply sublist_app.
      * cbn [pool loc set_loc set_srv]. rewrite Hst. split; intros [?|?]; discriminate.
  - specialize (Hstop0 ltac:(discriminate) ltac:(discriminate)).
    destruct todo as [|t todo].
    + simpl in Hf. subst f. injection Hm as <-. apply sys_inv_set_loc; rewrite ?Hl; done.
    + destruct (ThreadPool.enqueue t (pool st)) as [p|e] eqn:Hq;
        [|unfold ThreadPool.enqueue in Hq; by rewrite Hstop0 in Hq].
      injection Hm as <-.
      destruct (pool_inv_length _ _ _ Hp (ThreadPool.StepEnqueue _ _ _ Hq)) as [Hp' Hlen].
      unfold ThreadPool.enqueue in Hq. rewrite Hstop0 in Hq. injection Hq as <-.
      constructor; [exact Hwf | exact Hp' | | | exact Ha | | | discriminate].
      * unfold dispatched in *. rewrite Hl in Hids. cbn [pool loc ThreadPool.submitted todo_of].
        by rewrite <- app_assoc.
      * exact Hf.
      * intros _ Hnil. cbn [pool ThreadPool.workers] in Hnil.
        apply (Hwk (or_introl eq_refl)). exact Hnil.
      * cbn [pool ThreadPool.stop loc]. split; [discriminate | intros [?|?]; discriminate].
  - destruct (all_exited _) eqn:Hex; [|discriminate]. injection Hm as <-.
    constructor; [exact Hwf | exact Hp | | reflexivity | exact Ha | | | intros _; exact Hex].
    + unfold dispatched in *. rewrite Hl in Hids. exact Hids.
    + intros _. exact (Hwk (or_introl eq_refl)).
    + cbn [pool loc set_loc]. rewrite Hst. split; [intros _; by right | intros _; by left].
Qed.
Lemma other_step_wf sv sv' : other_step s sv sv' -> wf sv -> wf sv' /\ mine sv' = mine sv.
Proof.
  intros Ho Hw. destruct Ho as [c n sv Hc | c n sv Hc | c i gr sv Hc Hg Hd].
  - split; [by apply wf_xreadgroup|]. rewrite mine_xreadgroup.
    apply String.eqb_neq in Hc. rewrite Hc. apply app_nil_r.
  - split; [by apply wf_xautoclaim | apply mine_xautoclaim].
  - split; [by apply wf_xack | apply mine_xack].
Qed.

Lemma sys_inv_step st st' : sys_inv st -> sys_step s st st' -> sys_inv st'.
Proof.
  intros Hi Hs.
  destruct Hs as [st st' Hm|send i st st' Hw|st0 st0' [st|fields st|d st|st sv Ho|st|st]].
  - exact (sys_inv_main _ _ Hi Hm).
  - exact (sys_inv_worker _ _ _ _ Hi Hw).
  - destruct Hi as [Hwf Hp Hids Hf Ha Hwk Hst Hd]. by split.
  - apply sys_inv_set_srv; [done | apply wf_xadd, (inv_wf _ Hi) | reflexivity].
  - apply sys_inv_set_srv; [done | apply wf_tick, (inv_wf _ Hi) | reflexivity].
  - destruct (other_step_wf _ _ Ho (inv_wf _ Hi)). by apply sys_inv_set_srv.
  - destruct Hi as [Hwf Hp Hids Hf Ha Hwk Hst Hd]. by split.
  - destruct Hi as [Hwf Hp Hids Hf Ha Hwk Hst Hd]. by split.
Qed.

Lemma pool_inv_empty : ThreadPool.pool_inv 0 empty_pool.
Proof. split; try done. intros Hx. by apply not_elem_of_nil in Hx. Qed.

Lemma sys_inv_boot connected srv0 : wf srv0 -> sys_inv (boot s connected srv0).
Proof.
  intros Hw. unfold boot. destruct connected.
  - pose proof (wf_xgroup_create (stream_name s) (consumer_group s) srv0 Hw) as Hw1.
    destruct (ThreadPool.create (Z.to_nat (thread_count s))) as [p|e] eqn:Hc.
    + pose proof (ThreadPool.pool_inv_create _ _ Hc) as Hp. unfold ThreadPool.create in Hc.
      case_decide as Hn; [discriminate|]. injection Hc as <-.
      constructor; cbn [srv pool loc trace fault_of ThreadPool.workers ThreadPool.stop].
      * exact Hw1.
      * by rewrite length_replicate.
      * exists []. split; [done | apply sublist_nil_l].
      * done.
      * apply sublist_nil_l.
      * intros _ Hr. apply Hn. apply (f_equal length) in Hr.
        by rewrite length_replicate in Hr.
      * split; [discriminate | intros [?|?]; discriminate].
      * discriminate.
    + constructor; cbn [srv pool loc trace fault_of].
      * exact Hw1.
      * exact pool_inv_empty.
      * exists []. split; [done | apply sublist_nil_l].
      * done.
      * apply sublist_nil_l.
      * intros [?|?]; discriminate.
      * split; [discriminate | intros [?|?]; discriminate].
      * discriminate.
  - constructor; cbn [srv pool loc trace fault_of].
    + exact Hw.
    + exact pool_inv_empty.
    + exists []. split; [done | apply sublist_nil_l].
    + done.
    + apply sublist_nil_l.
    + intros [?|?]; discriminate.
    + split; [discriminate | intros [?|?]; discriminate].
    + discriminate.
Qed.

Lemma rtc_sys_inv st st' : sys_inv st -> rtc (sys_step s) st st' -> sys_inv st'.
Proof.
  intros Hi Hr. revert Hi. induction Hr as [x|x y z Hxy _ IH]; intros Hx; [done|].
  apply IH. exact (sys_inv_step _ _ Hx Hxy).
Qed.

Lemma reachable_inv st : reachable s st -> sys_inv st.
Proof. intros (c & srv0 & Hw & Hr). exact (rtc_sys_inv _ _ (sys_inv_boot c srv0 Hw) Hr). Qed.
(** ** Consequences of the invariant *)

Lemma mine_NoDup sv : wf sv -> NoDup (mine sv).
Proof.
  intros (_ & _ & Hg). unfold mine. destruct (group sv) as [gr|] eqn:E; [|constructor].
  destruct (Hg gr eq_refl) as [Hs _].
  apply (sublist_NoDup _ (map fst (delivered gr))).
  - exact (SSorted_NoDup _ _ StreamId.lt_irrefl Hs).
  - apply sublist_map, sublist_List_filter.
Qed.

(** The ids of the dispatched tasks: distinct, each handed to this
    consumer. *)
Lemma dispatched_ids st :
  sys_inv st ->
  NoDup (map fst (dispatched st)) /\
  Forall (fun sid => exists i, sid = StreamId.render i /\ i ∈ mine (srv st)) (map fst (dispatched st)).
Proof.
  intros Hi. destruct (inv_ids _ Hi) as (L & HL & Hsub). rewrite HL. split.
  - apply NoDup_map_inj; [exact StreamId.render_inj|].
    exact (sublist_NoDup _ _ (mine_NoDup _ (inv_wf _ Hi)) Hsub).
  - apply Forall_forall. intros sid (i & <- & Hin)%list_elem_of_In%in_map_iff.
    exists i. split; [done|]. apply (elem_of_sublist L); [by apply list_elem_of_In | exact Hsub].
Qed.

(** The finished tasks, the running ones, the queue and the loop's
    pending dispatches are the dispatched tasks, rearranged. *)
Lemma dispatched_split st :
  sys_inv st ->
  map fst (ThreadPool.finished (pool st) ++ ThreadPool.running (ThreadPool.workers (pool st)) ++
           ThreadPool.queue (pool st) ++ todo_of (loc st)) ≡ₚ map fst (dispatched st).
Proof.
  intros Hi. destruct (inv_pool _ Hi) as [_ Hf Hr _]. unfold dispatched. rewrite <- Hf.
  apply Permutation_map. rewrite !app_assoc. by rewrite Hr.
Qed.

Lemma finished_NoDup st : sys_inv st -> NoDup (map fst (ThreadPool.finished (pool st))).
Proof.
  intros Hi. destruct (dispatched_ids st Hi) as [Hn _].
  rewrite <- (dispatched_split st Hi), map_app in Hn. by apply NoDup_app in Hn as [? _].
Qed.

(** C11. In every reachable state of the process, the tasks given to the
    pool have pairwise distinct stream ids, each the id of an entry that
    [XREADGROUP] handed to this consumer: the process never processes an
    entry twice. *)
Theorem dispatch_once st :
  reachable s st ->
  NoDup (map fst (ThreadPool.submitted (pool st))) /\
  Forall (fun sid => exists i, sid = StreamId.render i /\ i ∈ mine (srv st))
         (map fst (ThreadPool.submitted (pool st))).
Proof.
  intros Hr. destruct (dispatched_ids st (reachable_inv st Hr)) as [Hn Hf].
  unfold dispatched in Hn, Hf. rewrite map_app in Hn, Hf.
  split; [by apply NoDup_app in Hn as [? _] | by apply Forall_app in Hf as [? _]].
Qed.

(** C12. In every reachable state, the [XACK]s the workers have sent name
    pairwise distinct ids, each the id of a task the pool has finished:
    no entry is acknowledged twice. *)
Theorem acks_once st :
  reachable s st ->
  NoDup (acks_of (trace st)) /\
  Forall (fun sid => sid ∈ map fst (ThreadPool.finished (pool st))) (acks_of (trace st)).
Proof.
  intros Hr. pose proof (reachable_inv st Hr) as Hi. split.
  - exact (sublist_NoDup _ _ (finished_NoDup st Hi) (inv_acks _ Hi)).
  - apply Forall_forall. intros x Hx.
    exact (elem_of_sublist _ _ _ Hx (inv_acks _ Hi)).
Qed.

(** ** An entry left unacknowledged stays so *)

(** What a step of the main thread does to the store and to the finished
    tasks. *)
Lemma main_step_shape st st' :
  main_step s st = Some st' ->
  ThreadPool.finished (pool st') = ThreadPool.finished (pool st) /\
  (srv st' = srv st \/
   srv st' = (xautoclaim (stream_name s) (consumer_group s) (consumer_name s) 30000
                (batch_size s) (srv st)).2 \/
   srv st' = (xreadgroup (stream_name s) (consumer_group s) (consumer_name s)
                (batch_size s) (srv st)).2).
Proof.
  unfold main_step. destruct (loc st) as [| | |[|t todo] f| | | |]; try discriminate.
  - destruct (shutdown st); intros [= <-]; auto.
  - intros [= <-]. cbn [srv pool set_loc set_srv]. split; [done|].
    destruct (main_ok st); auto.
  - destruct (main_ok st); [|intros [= <-]; auto].
    destruct (xreadgroup_block _ _ _ _ _ _) as [[r sv]|] eqn:Eb; [|discriminate].
    destruct (read_block_effect _ _ _ _ _ _ _ _ Eb) as [[-> ->]|[-> ->]];
      intros [= <-]; cbn [srv pool set_loc set_srv]; split; auto.
  - intros [= <-]. auto.
  - destruct (ThreadPool.enqueue t (pool st)) as [p|] eqn:Hq; intros [= <-]; [|auto].
    unfold ThreadPool.enqueue in Hq. destruct (ThreadPool.stop _); [discriminate|].
    injection Hq as <-. auto.
  - destruct (all_exited _); intros [= <-]; auto.
Qed.

Lemma pending_effects sid ok effs sv :
  pending_id sid sv ->
  Forall (fun sid' => forall j, StreamId.parse sid' = Some j -> StreamId.render j <> sid)
         (acks_of effs) ->
  pending_id sid (fold_left (apply_effect ok) effs sv).
Proof.
  revert sv. induction effs as [|e effs IH]; intros sv Hp Hf; [done|]. simpl.
  destruct e as [| | |key g sid']; simpl in Hf; try by apply IH.
  apply Forall_cons in Hf as [Hne Hf]. apply IH; [|done].
  destruct ok; [by apply pending_xack|done].
Qed.

(** The ids of finished tasks were handed to this consumer. *)
Lemma finished_id st sid :
  sys_inv st -> sid ∈ map fst (ThreadPool.finished (pool st)) ->
  exists i, sid = StreamId.render i /\ i ∈ mine (srv st).
Proof.
  intros Hi Hs. destruct (dispatched_ids st Hi) as [_ Hf]. rewrite Forall_forall in Hf.
  apply Hf. rewrite <- (dispatched_split st Hi), map_app. apply elem_of_app. by left.
Qed.

(** A worker finishing a task other than the one of [sid] does not
    acknowledge [sid]. *)
Lemma worker_acks_other st sid i t send :
  sys_inv st -> sid ∈ map fst (ThreadPool.finished (pool st)) ->
  ThreadPool.workers (pool st) !! i = Some (ThreadPool.Running t) ->
  Forall (fun sid' => forall j, StreamId.parse sid' = Some j -> StreamId.render j <> sid)
    (acks_of (Worker.process_message send (worker_config s) t.1 t.2).1).
Proof.
  intros Hi Hsid Hti.
  assert (Hrun : t.1 ∈ map fst (ThreadPool.running (ThreadPool.workers (pool st)))).
  { apply list_elem_of_In, in_map, list_elem_of_In. exact (ThreadPool.running_lookup _ _ _ Hti). }
  pose proof (dispatched_ids st Hi) as [Hn Hf].
  rewrite <- (dispatched_split st Hi), !map_app in Hn, Hf.
  apply NoDup_app in Hn as (_ & Hdis & _).
  apply Forall_app in Hf as [_ Hf]. apply Forall_app in Hf as [Hf _].
  rewrite Forall_forall in Hf. destruct (Hf _ Hrun) as (j0 & Hj0 & _).
  assert (Hne : t.1 <> sid) by (intros Heq; apply (Hdis sid Hsid); rewrite <- Heq;
                                apply elem_of_app; by left).
  destruct (acks_process_message send (worker_config s) t.1 t.2) as [->| ->]; [|constructor].
  constructor; [|constructor]. intros j Hj. rewrite Hj0, StreamId.parse_render in Hj.
  injection Hj as <-. by rewrite <- Hj0.
Qed.

(** Another consumer never acknowledges an entry handed to this one. *)
Lemma other_acks_other st sid c i gr :
  sys_inv st -> sid ∈ map fst (ThreadPool.finished (pool st)) -> c <> consumer_name s ->
  group (srv st) = Some gr -> (i, c) ∈ delivered gr ->
  forall j, StreamId.parse (StreamId.render i) = Some j -> StreamId.render j <> sid.
Proof.
  intros Hi Hsid Hc Hg Hd j Hj. rewrite StreamId.parse_render in Hj. injection Hj as <-.
  intros Heq. destruct (finished_id st sid Hi Hsid) as (i0 & -> & Hi0).
  apply StreamId.render_inj in Heq as <-.
  unfold mine in Hi0. rewrite Hg in Hi0.
  apply list_elem_of_In, in_map_iff in Hi0 as ([i' c'] & Hi' & Hin). cbn in Hi'. subst i'.
  apply filter_In in Hin as [Hin Hc']. cbn in Hc'. apply String.eqb_eq in Hc'. subst c'.
  destruct (inv_wf _ Hi) as (_ & _ & Hwg). destruct (Hwg gr Hg) as [Hss _].
  apply Hc. apply (NoDup_fst_unique (delivered gr) i); [|by apply list_elem_of_In|exact Hin].
  exact (SSorted_NoDup _ _ StreamId.lt_irrefl Hss).
Qed.

Lemma pending_step sid st st' :
  sys_inv st -> sid ∈ map fst (ThreadPool.finished (pool st)) -> pending_id sid (srv st) ->
  sys_step s st st' ->
  sid ∈ map fst (ThreadPool.finished (pool st')) /\ pending_id sid (srv st').
Proof.
  intros Hi Hsid Hp Hs.
  destruct Hs as [st st' Hm|send i st st' Hw|st0 st0' [st|fields st|d st|st sv Ho|st|st]];
    try (split; [exact Hsid | exact Hp]).
  - destruct (main_step_shape _ _ Hm) as (-> & [->|[->| ->]]); split; try done.
    + by apply pending_xautoclaim.
    + by apply pending_xreadgroup.
  - destruct (run_worker_inv _ _ _ _ Hw) as (_ & _ & _ & _ & _ &
      [(t & Hti & -> & _ & ->)|(-> & _ & ->)]); [|done]. split.
    + rewrite map_app. apply elem_of_app. by left.
    + apply pending_effects; [done|]. exact (worker_acks_other st sid i t send Hi Hsid Hti).
  - split; [exact Hsid|]. cbn [srv set_srv]. remember (srv st) as sv0 eqn:E.
    destruct Ho as [c n sv Hc | c n sv Hc | c i gr sv Hc Hg Hd].
    + by apply pending_xreadgroup.
    + by apply pending_xautoclaim.
    + apply pending_xack; [done|]. rewrite E in Hg.
      exact (other_acks_other st sid c i gr Hi Hsid Hc Hg Hd).
Qed.

(** C10. Once a task has finished and its entry is still pending (its
    POST failed, or its [XACK] was lost on a broken connection), the entry
    stays in the group's pending list forever and this process never
    queues, runs or dispatches it again: neither the loop (which discards
    the [XAUTOCLAIM] reply and reads only new entries) nor another
    consumer ever retries it, contrary to the specification's
    reclaim-and-retry. *)
Theorem unacked_entry_never_retried sid st st' :
  reachable s st -> sid ∈ map fst (ThreadPool.finished (pool st)) -> pending_id sid (srv st) ->
  rtc (sys_step s) st st' ->
  pending_id sid (srv st') /\
  sid ∉ map fst (ThreadPool.running (ThreadPool.workers (pool st')) ++
                 ThreadPool.queue (pool st') ++ todo_of (loc st')).
Proof.
  intros Hr Hsid Hp Hrtc. pose proof (reachable_inv st Hr) as Hi.
  assert (H : sys_inv st' /\ sid ∈ map fst (ThreadPool.finished (pool st')) /\
              pending_id sid (srv st')).
  { clear Hr. revert Hi Hsid Hp. induction Hrtc as [x|x y z Hxy _ IH]; intros Hx Hs Hp; [done|].
    destruct (pending_step sid x y Hx Hs Hp Hxy) as [Hs' Hp'].
    exact (IH (sys_inv_step _ _ Hx Hxy) Hs' Hp'). }
  destruct H as (Hi' & Hs' & Hp'). split; [done|]. intros Hin.
  pose proof (dispatched_ids st' Hi') as [Hn _].
  rewrite <- (dispatched_split st' Hi'), map_app in Hn. apply NoDup_app in Hn as (_ & Hdis & _).
  exact (Hdis sid Hs' Hin).
Qed.

(** ** A broken read connection *)

Lemma frozen_step st st' :
  sys_inv st -> main_ok st = false -> sys_step s st st' ->
  main_ok st' = false /\ dispatched st' = dispatched st /\ mine (srv st') = mine (srv st).
Proof.
  intros Hi Hok Hs. pose proof Hi as [Hwf Hp Hids Hf Ha Hwk Hst Hd].
  destruct Hs as [st st' Hm|send i st st' Hw|st0 st0' [st|fields st|d st|st sv Ho|st|st]]; try done.
  - unfold main_step in Hm. unfold dispatched.
    destruct (loc st) as [| | |[|t todo] f| | | |] eqn:Hl; try discriminate Hm.
    + destruct (shutdown st); injection Hm as <-; by rewrite ?Hl.
    + injection Hm as <-. cbn. by rewrite ?Hok, ?Hl.
    + rewrite Hok in Hm. injection Hm as <-. cbn. by rewrite ?Hl.
    + simpl in Hf. subst f. injection Hm as <-. cbn. by rewrite ?Hl.
    + assert (Hs0 : ThreadPool.stop (pool st) = false).
      { destruct (ThreadPool.stop (pool st)); [|done]. destruct (proj1 Hst eq_refl); discriminate. }
      unfold ThreadPool.enqueue in Hm. rewrite Hs0 in Hm. injection Hm as <-.
      cbn. rewrite ?Hl. by rewrite <- app_assoc.
    + destruct (all_exited _); [|discriminate]. injection Hm as <-. cbn. by rewrite ?Hl.
  - destruct (run_worker_inv _ _ _ _ Hw) as (_ & Hw' & Hl & _ & _ & Hcase).
    destruct (ThreadPool.worker_step_measure _ _ _ Hw') as (_ & _ & Hsub).
    unfold dispatched. rewrite Hsub, Hl. split; [|split; [done|]].
    + unfold run_worker in Hw. destruct (running _); [|discriminate].
      destruct (ThreadPool.worker_step _ _); [|discriminate]. simpl in Hw.
      by destruct (ThreadPool.workers (pool st) !! i) as [[]|]; injection Hw as <-.
    + destruct Hcase as [(t & _ & -> & _ & _)|(-> & _ & _)]; [|done].
      exact (proj2 (apply_effects_wf _ _ _ Hwf)).
  - split; [done|]. split; [done|]. exact (proj2 (other_step_wf _ _ Ho Hwf)).
Qed.

(** C24. Once the read connection [redis_main] has failed, the process
    never dispatches another task and no entry is ever again handed to
    this consumer: a hiredis context never recovers from an error, the
    loop never reconnects, and [if (!read_reply) continue;] spins without
    blocking; only the signal ends it. *)
Theorem read_failure_stops_dispatch st st' :
  reachable s st -> main_ok st = false -> rtc (sys_step s) st st' ->
  dispatched st' = dispatched st /\ mine (srv st') = mine (srv st).
Proof.
  intros Hr Hok Hrtc. pose proof (reachable_inv st Hr) as Hi. clear Hr.
  induction Hrtc as [x|x y z Hxy _ IH]; [done|].
  destruct (frozen_step x y Hi Hok Hxy) as (Hok' & Hd & Hm).
  destruct (IH Hok' (sys_inv_step _ _ Hi Hxy)) as [Hd' Hm']. by rewrite Hd', Hm'.
Qed.

(** ** After the signal *)

Definition main_rank (l : location) : nat :=
  match l with
  | Check => 2
  | Dispatch todo _ => 4 * length todo + 3
  | Joining => 1
  | _ => 0
  end%nat.

(** The main thread will not read again: it is past [Claim] and [Read]. *)
Definition post_read (l : location) : bool :=
  match l with Claim | Read => false | _ => true end.

Definition drain_measure (st : sys) : nat :=
  (ThreadPool.measure (pool st) + main_rank (loc st))%nat.

Lemma prog_step_shutdown st st' : prog_step s st st' -> shutdown st' = shutdown st.
Proof.
  destruct 1 as [st st' Hm|send i st st' Hw].
  - unfold main_step in Hm. destruct (loc st) as [| | |[|t todo] f| | | |]; try discriminate.
    + destruct (shutdown st) eqn:E; injection Hm as <-; [reflexivity | exact E].
    + by injection Hm as <-.
    + destruct (main_ok st); [destruct (xreadgroup_block _ _ _ _ _ _) as [[? ?]|];
        [destruct (read_tasks _)|discriminate]|]; by injection Hm as <-.
    + by injection Hm as <-.
    + destruct (ThreadPool.enqueue _ _); by injection Hm as <-.
    + destruct (all_exited _); [by injection Hm as <-|discriminate].
  - by destruct (run_worker_inv _ _ _ _ Hw) as (_ & _ & _ & -> & _).
Qed.

Lemma worker_drain st st' send i :
  run_worker s send i st = Some st' ->
  loc st' = loc st /\ (ThreadPool.measure (pool st') < ThreadPool.measure (pool st))%nat.
Proof.
  intros Hw. destruct (run_worker_inv _ _ _ _ Hw) as (_ & Hw' & Hl & _).
  split; [done|]. exact (proj1 (ThreadPool.worker_step_measure _ _ _ Hw')).
Qed.

Lemma post_step st st' :
  shutdown st = true -> post_read (loc st) = true -> prog_step s st st' ->
  post_read (loc st') = true /\ (drain_measure st' < drain_measure st)%nat.
Proof.
  intros Hsd Hpost Hs. unfold drain_measure.
  destruct Hs as [st st' Hm|send i st st' Hw].
  - unfold main_step in Hm. destruct (loc st) as [| | |[|t todo] f| | | |]; try discriminate.
    + rewrite Hsd in Hm. injection Hm as <-. cbn. unfold ThreadPool.measure. cbn. lia.
    + injection Hm as <-. destruct f; cbn; lia.
    + destruct (ThreadPool.enqueue t (pool st)) as [p|] eqn:Hq; injection Hm as <-; cbn; [|lia].
      unfold ThreadPool.enqueue in Hq. destruct (ThreadPool.stop _); [discriminate|].
      injection Hq as <-. unfold ThreadPool.measure. cbn. rewrite length_app. simpl. lia.
    + destruct (all_exited _); [|discriminate]. injection Hm as <-. cbn. lia.
  - destruct (worker_drain _ _ _ _ Hw) as [-> Hlt]. split; [done|lia].
Qed.

Lemma acc_post st :
  shutdown st = true -> post_read (loc st) = true -> Acc (fun b a => prog_step s a b) st.
Proof.
  remember (drain_measure st) as m eqn:Hm. revert st Hm.
  induction m as [m IH] using lt_wf_ind. intros st -> Hsd Hp.
  constructor. intros st' Hs. destruct (post_step _ _ Hsd Hp Hs) as [Hp' Hlt].
  exact (IH _ Hlt st' eq_refl (eq_trans (prog_step_shutdown _ _ Hs) Hsd) Hp').
Qed.

(** From [Read] (resp. [Claim]), workers run until the main thread steps
    to a location from which the previous lemma applies. *)
Lemma acc_before (l next : location) st :
  (forall st st', loc st = l -> main_step s st = Some st' ->
     shutdown st = true -> Acc (fun b a => prog_step s a b) st') ->
  shutdown st = true -> loc st = l -> Acc (fun b a => prog_step s a b) st.
Proof.
  intros Hnext. remember (ThreadPool.measure (pool st)) as m eqn:Hm. revert st Hm.
  induction m as [m IH] using lt_wf_ind. intros st -> Hsd Hl.
  constructor. intros st' Hs. pose proof (prog_step_shutdown _ _ Hs) as Hsd'.
  destruct Hs as [st st' Hm|send i st st' Hw].
  - exact (Hnext st st' Hl Hm Hsd).
  - destruct (worker_drain _ _ _ _ Hw) as [Hl' Hlt].
    exact (IH _ Hlt st' eq_refl (eq_trans Hsd' Hsd) (eq_trans Hl' Hl)).
Qed.

Lemma acc_read st : shutdown st = true -> loc st = Read -> Acc (fun b a => prog_step s a b) st.
Proof.
  apply (acc_before Read Read). intros st0 st1 Hl Hm Hsd.
  apply acc_post; [by rewrite (prog_step_shutdown _ _ (ProgMain _ _ _ Hm))|].
  unfold main_step in Hm. rewrite Hl in Hm.
  destruct (main_ok st0); [destruct (xreadgroup_block _ _ _ _ _ _) as [[? ?]|];
    [destruct (read_tasks _)|discriminate]|]; by injection Hm as <-.
Qed.

Lemma acc_claim st : shutdown st = true -> loc st = Claim -> Acc (fun b a => prog_step s a b) st.
Proof.
  apply (acc_before Claim Read). intros st0 st1 Hl Hm Hsd.
  apply acc_read; [by rewrite (prog_step_shutdown _ _ (ProgMain _ _ _ Hm))|].
  unfold main_step in Hm. rewrite Hl in Hm. by injection Hm as <-.
Qed.

(** Every run of the process's own steps from [st] is finite. *)
Definition finite_runs (st : sys) : Prop := Acc (fun b a => prog_step s a b) st.

(** C21. Once [g_shutdown] is set, every interleaving of the main thread
    and the workers is finite: the loop finishes its cycle, leaves, and
    [~ThreadPool] joins workers that drain the queue. *)
Theorem shutdown_terminates st :
  shutdown st = true -> finite_runs st.
Proof.
  intros Hsd. unfold finite_runs. destruct (loc st) eqn:Hl.
  all: try (apply acc_post; [done | by rewrite Hl]).
  - exact (acc_claim st Hsd Hl).
  - exact (acc_read st Hsd Hl).
Qed.

Lemma all_exited_joined (p : ThreadPool.pool task) :
  all_exited (ThreadPool.workers p) = true <-> ThreadPool.joined p.
Proof.
  unfold all_exited, ThreadPool.joined. rewrite forallb_forall, Forall_forall.
  setoid_rewrite list_elem_of_In. done.
Qed.

Lemma prog_sys st st' : prog_step s st st' -> sys_step s st st'.
Proof. destruct 1; [by apply SysMain | by eapply SysWorker]. Qed.

(** A process that is still running can always take a step, unless its
    main thread waits in [XREADGROUP ... BLOCK 0]. *)
Lemma prog_progress st :
  sys_inv st -> running (loc st) = true -> block_ms s <> 0%Z -> exists st', prog_step s st st'.
Proof.
  intros Hi Hr Hb.
  assert (Hmain : main_step s st <> None -> exists st', prog_step s st st').
  { destruct (main_step s st) as [st'|] eqn:E; [intros _; exists st'; by apply ProgMain|done]. }
  unfold main_step in Hmain. destruct (loc st) eqn:Hl; try discriminate Hr.
  - apply Hmain. by destruct (shutdown st).
  - by apply Hmain.
  - destruct (main_ok st); [|by apply Hmain].
    destruct (xreadgroup_block _ _ _ _ _ _) as [[? ?]|] eqn:Eb.
    + apply Hmain. by destruct (read_tasks _).
    + by apply xreadgroup_block_None in Eb as [? _].
  - apply Hmain. destruct todo; [done|]. by destruct (ThreadPool.enqueue _ _).
  - destruct (all_exited (ThreadPool.workers (pool st))) eqn:Hx; [by apply Hmain|].
    assert (Hst : ThreadPool.stop (pool st) = true) by (apply (inv_stop _ Hi); by left).
    assert (Hj : ~ ThreadPool.joined (pool st)) by (rewrite <- all_exited_joined; congruence).
    destruct (ThreadPool.stopped_progress _ Hst Hj) as [p' Hs].
    inversion Hs as [i p p'' Hw|t p p'' Hq|p Hs0]; subst;
      [|unfold ThreadPool.enqueue in Hq; rewrite Hst in Hq; discriminate|congruence].
    exists (match ThreadPool.workers (pool st) !! i with
            | Some (ThreadPool.Running t) =>
                let effs := (Worker.process_message (fun _ => Sink.CurlInitFailed)
                               (worker_config s) t.1 t.2).1 in
                mkSys (fold_left (apply_effect (ack_ok st)) effs (srv st)) p' (loc st)
                      (shutdown st) (main_ok st) (ack_ok st) (trace st ++ effs)
            | _ => mkSys (srv st) p' (loc st) (shutdown st) (main_ok st) (ack_ok st) (trace st)
            end).
    apply (ProgWorker _ (fun _ => Sink.CurlInitFailed) i). unfold run_worker. rewrite Hl, Hw.
    simpl. by destruct (ThreadPool.workers (pool st) !! i) as [[]|].
Qed.

(** A running process stays running until it is [Done]. *)
Lemma prog_step_running st st' :
  sys_inv st -> running (loc st) = true -> prog_step s st st' ->
  running (loc st') = true \/ loc st' = Done.
Proof.
  intros Hi Hr Hs. destruct Hs as [st st' Hm|send i st st' Hw].
  - unfold main_step in Hm. destruct (loc st) as [| | |[|t todo] f| | | |] eqn:Hl; try discriminate.
    + destruct (shutdown st); injection Hm as <-; by left.
    + injection Hm as <-. by left.
    + destruct (main_ok st); [destruct (xreadgroup_block _ _ _ _ _ _) as [[? ?]|];
        [destruct (read_tasks _)|discriminate]|]; injection Hm as <-; by left.
    + pose proof (inv_fault _ Hi) as Hf. rewrite Hl in Hf. simpl in Hf. subst f.
      injection Hm as <-. by left.
    + assert (Hs0 : ThreadPool.stop (pool st) = false).
      { destruct (ThreadPool.stop (pool st)) eqn:E; [|done].
        apply (inv_stop _ Hi) in E as [?|?]; congruence. }
      unfold ThreadPool.enqueue in Hm. rewrite Hs0 in Hm. injection Hm as <-. by left.
    + destruct (all_exited _); [|discriminate]. injection Hm as <-. by right.
  - left. by destruct (run_worker_inv _ _ _ _ Hw) as (_ & _ & -> & _).
Qed.

(** What the loop dispatches only grows. *)
Lemma prog_step_prefix st st' :
  sys_inv st -> prog_step s st st' -> dispatched st `prefix_of` dispatched st'.
Proof.
  intros Hi Hs. unfold dispatched. destruct Hs as [st st' Hm|send i st st' Hw].
  - unfold main_step in Hm. destruct (loc st) as [| | |[|t todo] f| | | |] eqn:Hl; try discriminate.
    + destruct (shutdown st); injection Hm as <-; cbn; by rewrite ?Hl.
    + injection Hm as <-. cbn. by rewrite ?Hl.
    + destruct (main_ok st); [|injection Hm as <-; cbn; by rewrite ?Hl].
      destruct (xreadgroup_block _ _ _ _ _ _) as [[? ?]|]; [|discriminate].
      destruct (read_tasks _). injection Hm as <-. cbn.
      rewrite ?Hl. simpl. rewrite app_nil_r. by apply prefix_app_r.
    + pose proof (inv_fault _ Hi) as Hf. rewrite Hl in Hf. simpl in Hf. subst f.
      injection Hm as <-. cbn. by rewrite ?Hl.
    + assert (Hs0 : ThreadPool.stop (pool st) = false).
      { destruct (ThreadPool.stop (pool st)) eqn:E; [|done].
        apply (inv_stop _ Hi) in E as [?|?]; congruence. }
      unfold ThreadPool.enqueue in Hm. rewrite Hs0 in Hm. injection Hm as <-. cbn.
      rewrite ?Hl. by rewrite <- app_assoc.
    + destruct (all_exited _); [|discriminate]. injection Hm as <-. cbn. by rewrite ?Hl.
  - destruct (run_worker_inv _ _ _ _ Hw) as (_ & Hw' & -> & _).
    by rewrite (proj2 (proj2 (ThreadPool.worker_step_measure _ _ _ Hw'))).
Qed.

(** C20. After [g_shutdown] is set, a process that has not stopped can
    always run to [Done], and every run that cannot continue is at
    [Done] (the [return 0] after the joins), with the queue drained,
    every task it ever dispatched (those dispatched before the signal
    included) finished exactly once, and no acknowledgement skipped. *)
Theorem shutdown_drains st :
  reachable s st -> shutdown st = true -> running (loc st) = true -> block_ms s <> 0%Z ->
  (exists st', rtc (prog_step s) st st' /\ loc st' = Done) /\
  (forall st', rtc (prog_step s) st st' -> (forall st'', ~ prog_step s st' st'') ->
     loc st' = Done /\ ThreadPool.finished (pool st') ≡ₚ ThreadPool.submitted (pool st') /\
     dispatched st `prefix_of` ThreadPool.submitted (pool st')).
Proof.
  intros Hr Hsd Hrun Hb. pose proof (reachable_inv st Hr) as Hi. clear Hr. split.
  - induction (shutdown_terminates st Hsd) as [st _ IH].
    destruct (prog_progress st Hi Hrun Hb) as [st1 Hs].
    pose proof (sys_inv_step _ _ Hi (prog_sys _ _ Hs)) as Hi1.
    rewrite <- (prog_step_shutdown _ _ Hs) in Hsd.
    destruct (prog_step_running _ _ Hi Hrun Hs) as [Hr1|Hd1].
    + destruct (IH st1 Hs Hsd Hr1 Hi1) as (st' & Hrtc & Hd). exists st'. split; [|done].
      by eapply rtc_l.
    + exists st1. split; [by apply rtc_once|done].
  - intros st' Hrtc Hstuck.
    assert (H : sys_inv st' /\ (running (loc st') = true \/ loc st' = Done) /\
                dispatched st `prefix_of` dispatched st').
    { clear Hstuck Hsd. induction Hrtc as [x|x y z Hxy Hyz_rtc IH]; [auto|].
      pose proof (sys_inv_step _ _ Hi (prog_sys _ _ Hxy)) as Hiy.
      destruct (prog_step_running _ _ Hi Hrun Hxy) as [Hry|Hdy].
      - destruct (IH Hry Hiy) as (? & ? & Hp). split; [done|]. split; [done|].
        etrans; [exact (prog_step_prefix _ _ Hi Hxy)|exact Hp].
      - assert (Hyz : y = z).
        { destruct Hyz_rtc as [|y w z Hyw _]; [done|]. exfalso.
          destruct Hyw as [y w Hm|send i y w Hw].
          + unfold main_step in Hm. by rewrite Hdy in Hm.
          + unfold run_worker in Hw. by rewrite Hdy in Hw. }
        subst z. split; [done|]. split; [by right|]. exact (prog_step_prefix _ _ Hi Hxy). }
    destruct H as (Hi' & [Hr'|Hd'] & Hp).
    + destruct (prog_progress st' Hi' Hr' Hb) as [st'' Hs]. by destruct (Hstuck st'').
    + pose proof (inv_done _ Hi' Hd') as Hx. apply all_exited_joined in Hx.
      destruct (ThreadPool.pool_inv_joined _ _ (inv_pool _ Hi') Hx
                  (inv_workers _ Hi' (or_intror Hd'))) as [_ Hfin].
      split; [done|]. split; [done|].
      unfold dispatched in Hp at 2. rewrite Hd' in Hp. simpl in Hp. by rewrite app_nil_r in Hp.
Qed.

(** One read step of the loop (lines 182-188): the main thread goes
    on to dispatch exactly the entries [XREADGROUP] handed out that carry
    a non-empty [payload], each with its id and payload and in stream
    order, with no [NULL]-string abort pending; and the store records
    those entries as delivered to this consumer. *)
Theorem read_step_dispatches st st' :
  loc st = Read -> main_ok st = true -> (0 <= block_ms s)%Z -> main_step s st = Some st' ->
  loc st' = Dispatch (dispatchable (handed_out (stream_name s) (consumer_group s)
                                      (batch_size s) (srv st))) false /\
  mine (srv st') = mine (srv st) ++ map eid (handed_out (stream_name s) (consumer_group s)
                                               (batch_size s) (srv st)).
Proof.
  intros Hl Hok Hb Hm. unfold main_step in Hm. rewrite Hl, Hok in Hm.
  destruct (xreadgroup_block _ _ _ _ _ _) as [[r sv]|] eqn:Eb; [|discriminate].
  destruct (xreadgroup_block_Some _ _ _ _ _ _ _ _ Eb) as [(_ & _ & Hneg)|[_ E]]; [lia|].
  pose proof (read_tasks_xreadgroup (stream_name s) (consumer_group s) (consumer_name s)
                (batch_size s) (srv st)) as Hrt.
  pose proof (mine_xreadgroup (stream_name s) (consumer_group s) (consumer_name s)
                (batch_size s) (srv st)) as Hmx.
  rewrite String.eqb_refl in Hmx. rewrite <- E in Hrt, Hmx. cbn [fst snd] in Hrt, Hmx.
  rewrite Hrt in Hm. injection Hm as <-. split; [reflexivity | exact Hmx].
Qed.
(** ** Every new entry is eventually dispatched *)

Lemma prog_rtc_sys st st' : rtc (prog_step s) st st' -> rtc (sys_step s) st st'.
Proof. induction 1; [done|]. eapply rtc_l; [by apply prog_sys | done]. Qed.

(** A step of the main thread alone. *)
Definition main_rel (st st' : sys) : Prop := main_step s st = Some st'.

Lemma main_rtc_prog st st' : rtc main_rel st st' -> rtc (prog_step s) st st'.
Proof. apply rtc_subrel. exact (ProgMain s). Qed.

(** The [enqueue] calls of one batch, on a pool that is not stopped. *)
Lemma dispatch_all todo st :
  loc st = Dispatch todo false -> ThreadPool.stop (pool st) = false ->
  exists st', rtc main_rel st st' /\ loc st' = Check /\ srv st' = srv st /\
    shutdown st' = shutdown st /\ main_ok st' = main_ok st /\
    ThreadPool.submitted (pool st') = ThreadPool.submitted (pool st) ++ todo.
Proof.
  revert st. induction todo as [|t todo IH]; intros st Hl Hst.
  - exists (set_loc Check st). split; [apply rtc_once; unfold main_rel, main_step; by rewrite Hl|].
    cbn. by rewrite app_nil_r.
  - set (p := ThreadPool.mkPool (ThreadPool.queue (pool st) ++ [t]) (ThreadPool.stop (pool st))
                (ThreadPool.workers (pool st)) (ThreadPool.submitted (pool st) ++ [t])
                (ThreadPool.started (pool st)) (ThreadPool.finished (pool st))).
    set (st1 := mkSys (srv st) p (Dispatch todo false) (shutdown st) (main_ok st) (ack_ok st)
                      (trace st)).
    assert (Hm : main_step s st = Some st1).
    { unfold main_step, st1, p. rewrite Hl. unfold ThreadPool.enqueue. by rewrite Hst. }
    destruct (IH st1 eq_refl Hst) as (st' & Hr & Hl' & Hs & Hsd & Hok & Hsub).
    exists st'. split; [eapply rtc_l; [exact Hm | exact Hr]|].
    repeat split; try assumption. rewrite Hsub. cbn. by rewrite <- app_assoc.
Qed.

(** One turn of [while (!g_shutdown)] with a working read connection:
    [XAUTOCLAIM], [XREADGROUP], and the [enqueue] of every entry handed out
    with a non-empty payload. *)
Lemma loop_turn st :
  sys_inv st -> loc st = Check -> shutdown st = false -> main_ok st = true ->
  xreadgroup_block (stream_name s) (consumer_group s) (consumer_name s) (batch_size s)
    (block_ms s) (xautoclaim (stream_name s) (consumer_group s) (consumer_name s) 30000
                    (batch_size s) (srv st)).2 =
  Some (xreadgroup (stream_name s) (consumer_group s) (consumer_name s) (batch_size s)
          (xautoclaim (stream_name s) (consumer_group s) (consumer_name s) 30000
             (batch_size s) (srv st)).2) ->
  exists st', rtc main_rel st st' /\ loc st' = Check /\ shutdown st' = false /\
    main_ok st' = true /\
    srv st' = (xreadgroup (stream_name s) (consumer_group s) (consumer_name s) (batch_size s)
                 (xautoclaim (stream_name s) (consumer_group s) (consumer_name s) 30000
                    (batch_size s) (srv st)).2).2 /\
    ThreadPool.submitted (pool st') = ThreadPool.submitted (pool st) ++
      dispatchable (handed_out (stream_name s) (consumer_group s) (batch_size s)
                      (xautoclaim (stream_name s) (consumer_group s) (consumer_name s) 30000
                         (batch_size s) (srv st)).2).
Proof.
  intros Hi Hl Hsd Hok Hready.
  assert (Hst : ThreadPool.stop (pool st) = false).
  { destruct (ThreadPool.stop (pool st)) eqn:E; [|done].
    apply (inv_stop _ Hi) in E as [E|E]; congruence. }
  set (sv1 := (xautoclaim (stream_name s) (consumer_group s) (consumer_name s) 30000
                 (batch_size s) (srv st)).2).
  set (st2 := set_loc Read (set_srv sv1 (set_loc Claim st))).
  assert (H1 : rtc main_rel st st2).
  { eapply rtc_l; [unfold main_rel, main_step; rewrite Hl, Hsd; reflexivity|].
    apply rtc_once. unfold main_rel, main_step. cbn. by rewrite Hok. }
  pose proof (read_tasks_xreadgroup (stream_name s) (consumer_group s) (consumer_name s)
                (batch_size s) sv1) as Hrt.
  destruct (xreadgroup (stream_name s) (consumer_group s) (consumer_name s) (batch_size s) sv1)
    as [r sv2] eqn:Ex. cbn [fst snd] in Hrt.
  set (st3 := set_loc (Dispatch (dispatchable (handed_out (stream_name s) (consumer_group s)
                                                 (batch_size s) sv1)) false) (set_srv sv2 st2)).
  assert (H2 : main_rel st2 st3).
  { unfold main_rel, main_step. change (loc st2) with Read.
    change (main_ok st2) with (main_ok st). change (srv st2) with sv1.
    assert (Hr2 : xreadgroup_block (stream_name s) (consumer_group s) (consumer_name s)
                    (batch_size s) (block_ms s) sv1 = Some (r, sv2)) by (rewrite <- Ex; exact Hready).
    rewrite Hok, Hr2. cbv iota beta. rewrite Hrt. reflexivity. }
  destruct (dispatch_all _ st3 eq_refl Hst) as (st' & Hr & Hl' & Hs & Hsd' & Hok' & Hsub).
  exists st'. split; [etrans; [exact H1|]; eapply rtc_l; [exact H2 | exact Hr]|].
  rewrite Hl', Hs, Hsd', Hok', Hsub. cbn. rewrite ?Ex. repeat split; auto.
Qed.

(** The entries up to [e] that the group has not handed out yet. *)
Definition backlog (e : entry) (sv : server) : nat :=
  match group_of (stream_name s) (consumer_group s) sv with
  | Some gr => length (List.filter (fun x => StreamId.ltb (last_id gr) (eid x) &&
                                              negb (StreamId.ltb (eid e) (eid x))) (entries sv))
  | None => 0
  end.

Lemma backlog_decreases e sv sv' gr gr' b :
  group_of (stream_name s) (consumer_group s) sv = Some gr ->
  group_of (stream_name s) (consumer_group s) sv' = Some gr' ->
  entries sv' = entries sv -> last_id gr' = eid b -> In b (entries sv) ->
  StreamId.lt (last_id gr) (eid b) -> StreamId.lt (eid b) (eid e) ->
  (backlog e sv' < backlog e sv)%nat.
Proof.
  intros Hg Hg' He Hb Hin H1 H2. unfold backlog. rewrite Hg, Hg', He, Hb.
  apply (filter_length_lt _ _ _ b); [| exact Hin | |].
  - intros y [Hy Hy']%andb_prop. apply andb_true_intro. split; [|exact Hy'].
    exact (StreamId.lt_trans _ _ _ H1 Hy).
  - apply andb_true_intro. split; [exact H1|]. apply negb_true_iff.
    destruct (StreamId.ltb (eid e) (eid b)) eqn:E; [|done].
    destruct (StreamId.lt_irrefl (eid b)). exact (StreamId.lt_trans _ _ _ H2 E).
  - apply andb_false_intro1. destruct (StreamId.ltb (eid b) (eid b)) eqn:E; [|done].
    by destruct (StreamId.lt_irrefl (eid b)).
Qed.

Lemma entry_dispatched_inv st e gr :
  sys_inv st -> loc st = Check -> shutdown st = false -> main_ok st = true ->
  (0 <= block_ms s)%Z ->
  group_of (stream_name s) (consumer_group s) (srv st) = Some gr ->
  StreamId.lt (last_id gr) (eid e) -> In e (entries (srv st)) -> payload_of (efields e) <> "" ->
  exists st', rtc main_rel st st' /\ loc st' = Check /\
    (StreamId.render (eid e), payload_of (efields e)) ∈ ThreadPool.submitted (pool st').
Proof.
  remember (backlog e (srv st)) as m eqn:Hm. revert st gr Hm.
  induction m as [m IH] using lt_wf_ind. intros st gr -> Hi Hl Hsd Hok Hb0 Hg Hlt Hin Hp.
  destruct (xautoclaim_keeps _ _ (consumer_name s) 30000 (batch_size s) _ _ Hg)
    as (He1 & gr1 & Hg1 & Hid1).
  set (sv1 := (xautoclaim (stream_name s) (consumer_group s) (consumer_name s) 30000
                 (batch_size s) (srv st)).2) in *.
  assert (Hw1 : wf sv1) by exact (wf_xautoclaim _ _ _ _ _ _ (inv_wf _ Hi)).
  rewrite <- Hid1 in Hlt. rewrite <- He1 in Hin.
  pose proof (batch_progress gr1 (batch_size s) sv1 e Hw1 Hin Hlt) as Hprog.
  assert (Hne : last (batch_of gr1 (batch_size s) sv1) <> None).
  { intros Hn%last_None. destruct Hprog as [Hb|(b & Hlast & _)]; [by rewrite Hn in Hb|].
    by rewrite Hn in Hlast. }
  destruct (loop_turn st Hi Hl Hsd Hok
              (xreadgroup_block_ready _ _ (consumer_name s) _ _ _ _ Hb0 Hg1 Hne))
    as (st1 & Hr1 & Hl1 & Hsd1 & Hok1 & Hs1 & Hsub1).
  fold sv1 in Hs1, Hsub1.
  destruct Hprog as [Hb|(b & Hlast & Hbin & Hb1 & Hb2)].
  - exists st1. split; [exact Hr1|]. split; [exact Hl1|]. rewrite Hsub1.
    apply elem_of_app. right. unfold handed_out. rewrite Hg1.
    exact (dispatchable_In _ _ Hb Hp).
  - destruct (xreadgroup_last _ _ (consumer_name s) _ _ _ _ Hg1 Hlast) as (He2 & gr2 & Hg2 & Hid2).
    rewrite <- Hs1 in He2, Hg2.
    assert (Hi1 : sys_inv st1) by exact (rtc_sys_inv _ _ Hi (prog_rtc_sys _ _ (main_rtc_prog _ _ Hr1))).
    assert (Hlt2 : (backlog e (srv st1) < backlog e (srv st))%nat).
    { rewrite He1 in Hbin. rewrite Hid1 in Hb1.
      apply (backlog_decreases e (srv st) (srv st1) gr gr2 b); try assumption.
      by rewrite He2. }
    assert (Hlt' : StreamId.lt (last_id gr2) (eid e)) by (rewrite Hid2; exact Hb2).
    assert (Hin' : In e (entries (srv st1))) by (rewrite He2; exact Hin).
    destruct (IH _ Hlt2 st1 gr2 eq_refl Hi1 Hl1 Hsd1 Hok1 Hb0 Hg2 Hlt' Hin' Hp)
      as (st' & Hr' & Hl' & Hsub').
    exists st'. split; [by etrans|]. auto.
Qed.
(** C13. Progress of the consumer: from the head of the loop, with the
    read connection up and no shutdown requested, every entry of the
    stream that the group has not handed out yet and that carries a
    non-empty [payload] is eventually given to the pool, by the main
    thread alone, whatever [BATCH_SIZE] is: each turn of the loop hands
    out at least one entry up to it. *)
Theorem new_entry_dispatched st e gr :
  reachable s st -> loc st = Check -> shutdown st = false -> main_ok st = true ->
  (0 <= block_ms s)%Z ->
  group_of (stream_name s) (consumer_group s) (srv st) = Some gr ->
  StreamId.lt (last_id gr) (eid e) -> In e (entries (srv st)) -> payload_of (efields e) <> "" ->
  exists st', rtc (prog_step s) st st' /\
    (StreamId.render (eid e), payload_of (efields e)) ∈ ThreadPool.submitted (pool st').
Proof.
  intros Hr Hl Hsd Hok Hb Hg Hlt Hin Hp.
  destruct (entry_dispatched_inv st e gr (reachable_inv st Hr) Hl Hsd Hok Hb Hg Hlt Hin Hp)
    as (st' & Hrtc & _ & Hsub).
  exists st'. split; [exact (main_rtc_prog _ _ Hrtc) | exact Hsub].
Qed.
(** ** Every new entry is eventually acknowledged

    The composition of the loop, the pool and the task: the main thread
    gives the entry to the pool, the workers alone take it to a
    worker ([ThreadPool.queued_task_runs]), and the task, with a sink that
    completes its POST, ends with the [XACK] that reaches the server. *)

(** The steps of the process when the sink answers every request with
    [send]: the main thread, and the workers. *)
Inductive served_step (send : Sink.request -> Sink.curl_outcome) : sys -> sys -> Prop :=
| ServedMain st st' : main_step s st = Some st' -> served_step send st st'
| ServedWorker i st st' : run_worker s send i st = Some st' -> served_step send st st'.

(** The ids the group's acknowledgement history holds: the argument of
    every [XACK] that reached the server. *)
Definition acked (sv : server) : list string :=
  match group_of (stream_name s) (consumer_group s) sv with
  | Some gr => ack_log gr
  | None => []
  end.

Lemma apply_effects_group ok effs sv :
  is_Some (group_of (stream_name s) (consumer_group s) sv) ->
  is_Some (group_of (stream_name s) (consumer_group s) (fold_left (apply_effect ok) effs sv)).
Proof.
  revert sv. induction effs as [|ef effs IH]; intros sv Hg; [done|]. simpl. apply IH.
  destruct ef; try done. destruct ok; [by apply group_of_xack | done].
Qed.

Lemma apply_effects_no_ack ok pre sv :
  Forall (fun e => WorkerSpec.is_ack e = false) pre -> fold_left (apply_effect ok) pre sv = sv.
Proof.
  intros Hpre. revert sv. induction Hpre as [|ef pre Hef _ IH]; intros sv; [done|].
  destruct ef; simpl; try discriminate Hef; apply IH.
Qed.

(** A step of the main thread keeps the [redis_ack] flag and the group. *)
Lemma main_step_keeps st st' :
  main_step s st = Some st' -> ack_ok st' = ack_ok st /\
  (is_Some (group_of (stream_name s) (consumer_group s) (srv st)) ->
   is_Some (group_of (stream_name s) (consumer_group s) (srv st'))).
Proof.
  intros Hm. split.
  - revert Hm. unfold main_step. repeat case_match; intros; simplify_eq; reflexivity.
  - intros [gr Hg]. destruct (main_step_shape _ _ Hm) as (_ & [->|[->| ->]]); [by eexists| |].
    + destruct (xautoclaim_keeps _ _ (consumer_name s) 30000 (batch_size s) _ _ Hg)
        as (_ & gr' & Hg' & _). by eexists.
    + destruct (xreadgroup_cases (stream_name s) (consumer_group s) (consumer_name s)
                  (batch_size s) (srv st)) as [[Hn _]|[(gr' & _ & _ & ->)|(gr' & b & Hg' & Hb & _)]];
        [congruence | by eexists|].
      destruct (xreadgroup_last _ _ (consumer_name s) _ _ _ _ Hg' Hb) as (_ & gr'' & Hg'' & _).
      by eexists.
Qed.

Lemma main_rtc_keeps st st' :
  rtc main_rel st st' ->
  ThreadPool.finished (pool st') = ThreadPool.finished (pool st) /\ ack_ok st' = ack_ok st /\
  (is_Some (group_of (stream_name s) (consumer_group s) (srv st)) ->
   is_Some (group_of (stream_name s) (consumer_group s) (srv st'))).
Proof.
  induction 1 as [st|st st1 st' Hm _ (Hf & Ha & Hg)]; [done|].
  destruct (main_step_keeps _ _ Hm) as [Ha1 Hg1].
  rewrite Hf, Ha, (proj1 (main_step_shape _ _ Hm)), Ha1. auto.
Qed.

(** An id past the group's last-delivered id was never handed to this
    consumer, so no task carries it. *)
Lemma fresh_not_dispatched st gr i :
  sys_inv st -> group_of (stream_name s) (consumer_group s) (srv st) = Some gr ->
  StreamId.lt (last_id gr) i -> StreamId.render i ∉ map fst (dispatched st).
Proof.
  intros Hi Hg Hlt Hin. destruct (dispatched_ids st Hi) as [_ Hf].
  rewrite Forall_forall in Hf. destruct (Hf _ Hin) as (j & Hj & Hm).
  apply StreamId.render_inj in Hj. subst j.
  unfold mine in Hm. rewrite (group_of_Some _ _ _ _ Hg) in Hm.
  apply list_elem_of_In, in_map_iff in Hm as ([j c] & Hj & Hd). simpl in Hj. subst j.
  apply filter_In in Hd as [Hd _]. apply list_elem_of_In in Hd.
  destruct (inv_wf _ Hi) as (_ & _ & Hw). destruct (Hw gr (group_of_Some _ _ _ _ Hg)) as [_ Hle].
  rewrite Forall_forall in Hle.
  exact (StreamId.lt_irrefl i (le_lt_trans _ _ _ (Hle _ Hd) Hlt)).
Qed.

(** An accepted task not finished yet is queued or running. *)
Lemma not_finished_pending st t :
  sys_inv st -> t ∈ ThreadPool.submitted (pool st) -> t ∉ ThreadPool.finished (pool st) ->
  t ∈ ThreadPool.queue (pool st) ++ ThreadPool.running (ThreadPool.workers (pool st)).
Proof.
  intros Hi Hs Hf. destruct (inv_pool _ Hi) as [_ Hfifo Hrun _].
  rewrite <- Hfifo in Hs. apply elem_of_app.
  apply elem_of_app in Hs as [Hs|Hs]; [|by left]. rewrite <- Hrun in Hs.
  apply elem_of_app in Hs as [Hs|Hs]; [done|by right].
Qed.

(** Steps of the pool's workers are steps of the process, whatever the
    main thread does meanwhile, as long as it has not returned. *)
Lemma workers_run send st p' :
  running (loc st) = true -> rtc ThreadPool.worker_rel (pool st) p' ->
  exists st', rtc (served_step send) st st' /\ pool st' = p' /\ loc st' = loc st /\
    ack_ok st' = ack_ok st /\
    (is_Some (group_of (stream_name s) (consumer_group s) (srv st)) ->
     is_Some (group_of (stream_name s) (consumer_group s) (srv st'))).
Proof.
  intros Hrun Hr. remember (pool st) as p eqn:Hp. revert st Hp Hrun.
  induction Hr as [p|p p1 p' [i Hw] _ IH]; intros st -> Hrun; [by exists st|].
  assert (Hst1 : exists st1, run_worker s send i st = Some st1).
  { unfold run_worker. rewrite Hrun, Hw. simpl.
    destruct (ThreadPool.workers (pool st) !! i) as [[]|]; by eexists. }
  destruct Hst1 as [st1 Hst1].
  destruct (run_worker_inv _ _ _ _ Hst1) as (_ & Hw1 & Hl & _ & Hok & Hcase).
  rewrite Hw in Hw1. injection Hw1 as Hp1.
  assert (Hrun1 : running (loc st1) = true) by by rewrite Hl.
  destruct (IH st1 Hp1 Hrun1) as (st' & Hr' & Hp' & Hl' & Hok' & Hg').
  exists st'. split; [eapply rtc_l; [by eapply ServedWorker | exact Hr']|].
  do 3 (split; [congruence|]). intros Hg. apply Hg'.
  destruct Hcase as [(t & _ & -> & _)|(-> & _)]; [by apply apply_effects_group | done].
Qed.

(** A worker that finishes a task, with the sink up and [redis_ack]
    working, records the task's id in the group's acknowledgement
    history. *)
Lemma finish_acks send i st (t : task) j :
  (forall req, send req = Sink.CurlDone 201) -> running (loc st) = true -> ack_ok st = true ->
  is_Some (group_of (stream_name s) (consumer_group s) (srv st)) ->
  ThreadPool.workers (pool st) !! i = Some (ThreadPool.Running t) -> t.1 = StreamId.render j ->
  exists st', run_worker s send i st = Some st' /\ t.1 ∈ acked (srv st').
Proof.
  intros Hup Hrun Hok [gr Hg] Hi Hj.
  assert (Hw : exists p, ThreadPool.worker_step i (pool st) = Some p).
  { unfold ThreadPool.worker_step. rewrite Hi. by eexists. }
  destruct Hw as [p Hw]. unfold run_worker. rewrite Hrun, Hw. unfold task in Hi |- *. rewrite Hi. simpl.
  eexists. split; [reflexivity|]. cbn [srv]. rewrite Hok.
  destruct (WorkerSpec.process_message_sink_up send (worker_config s) t.1 t.2 Hup)
    as (pre & -> & Hpre).
  rewrite fold_left_app, (apply_effects_no_ack _ pre) by exact Hpre. cbn.
  destruct (xack_logs _ _ t.1 _ gr j Hg) as (gr' & Hg' & Hlog); [rewrite Hj; apply StreamId.parse_render|].
  unfold acked. rewrite Hg', Hlog. apply elem_of_app. right. by apply list_elem_of_singleton.
Qed.

(** C14. Delivery: from the head of the loop, with both connections up,
    no shutdown requested and a sink that completes every POST with
    201, every entry of the stream that the group has not handed out yet
    and that carries a non-empty [payload] is eventually acknowledged:
    the process's own steps (the main thread and the pool's workers) can
    take it through [XREADGROUP], [enqueue], a worker's
    [process_message] and the [XACK] that enters the group's
    acknowledgement history.  This composes the loop's progress, the pool's
    no-starvation and the task. *)
Theorem new_entry_acknowledged send st e gr :
  (forall req, send req = Sink.CurlDone 201) ->
  reachable s st -> loc st = Check -> shutdown st = false -> main_ok st = true ->
  ack_ok st = true -> (0 <= block_ms s)%Z ->
  group_of (stream_name s) (consumer_group s) (srv st) = Some gr ->
  StreamId.lt (last_id gr) (eid e) -> In e (entries (srv st)) -> payload_of (efields e) <> "" ->
  exists st', rtc (served_step send) st st' /\ StreamId.render (eid e) ∈ acked (srv st').
Proof.
  intros Hup Hr Hl Hsd Hok Hack Hb Hg Hlt Hin Hp. pose proof (reachable_inv st Hr) as Hi.
  destruct (entry_dispatched_inv st e gr Hi Hl Hsd Hok Hb Hg Hlt Hin Hp) as (st1 & Hr1 & Hl1 & Hsub).
  set (t := (StreamId.render (eid e), payload_of (efields e))) in Hsub.
  destruct (main_rtc_keeps _ _ Hr1) as (Hfin & Hack1 & Hg1).
  pose proof (rtc_sys_inv _ _ Hi (prog_rtc_sys _ _ (main_rtc_prog _ _ Hr1))) as Hi1.
  assert (Hnf : t ∉ ThreadPool.finished (pool st1)).
  { rewrite Hfin. intros Hf. apply (fresh_not_dispatched st gr (eid e) Hi Hg Hlt).
    rewrite <- (dispatched_split st Hi), map_app. apply elem_of_app. left.
    apply list_elem_of_In, (in_map fst _ t). by apply list_elem_of_In. }
  assert (Hrun1 : running (loc st1) = true) by by rewrite Hl1.
  assert (Hn : (0 < length (ThreadPool.workers (pool st1)))%nat).
  { destruct (ThreadPool.workers (pool st1)) eqn:Hw; [|simpl; lia].
    by destruct (inv_workers _ Hi1 (or_introl Hrun1)). }
  destruct (ThreadPool.queued_task_runs _ _ _ (inv_pool _ Hi1) Hn (not_finished_pending _ _ Hi1 Hsub Hnf))
    as (p2 & i & Hr2 & Hi2).
  destruct (workers_run send st1 p2 Hrun1 Hr2) as (st2 & Hr2' & <- & Hl2 & Hack2 & Hg2).
  destruct (finish_acks send i st2 t (eid e) Hup ltac:(by rewrite Hl2) ltac:(congruence)
              (Hg2 (Hg1 ltac:(by eexists))) Hi2 eq_refl) as (st3 & Hw3 & Hacked).
  exists st3. split; [|exact Hacked].
  etrans; [apply (rtc_subrel main_rel); [exact (ServedMain send) | exact Hr1]|].
  etrans; [exact Hr2'|]. apply rtc_once. by eapply ServedWorker.
Qed.
(** ** The [BLOCK] argument of the read *)

Lemma run_worker_main_ok send i st st' :
  run_worker s send i st = Some st' -> main_ok st' = main_ok st.
Proof.
  unfold run_worker. destruct (running (loc st)); [|discriminate].
  destruct (ThreadPool.worker_step i (pool st)); [|discriminate]. simpl.
  destruct (ThreadPool.workers (pool st) !! i) as [[]|]; intros [= <-]; reflexivity.
Qed.

Lemma apply_effects_reply key g c n ok effs sv :
  (xreadgroup key g c n (fold_left (apply_effect ok) effs sv)).1 = (xreadgroup key g c n sv).1.
Proof.
  revert sv. induction effs as [|ef effs IH]; intros sv; [done|]. simpl. rewrite IH.
  destruct ef; try done. destruct ok; [apply xreadgroup_reply_xack | done].
Qed.

(** The main thread waits in [XREADGROUP]: nothing to hand out. *)
Definition waiting_read (st : sys) : Prop :=
  loc st = Read /\ main_ok st = true /\
  (xreadgroup (stream_name s) (consumer_group s) (consumer_name s) (batch_size s) (srv st)).1
    = RNil.

Lemma waiting_read_step st st' :
  block_ms s = 0%Z -> waiting_read st -> prog_step s st st' -> waiting_read st'.
Proof.
  intros Hb (Hl & Hok & Hn) Hs. destruct Hs as [st st' Hm|send i st st' Hw].
  - unfold main_step in Hm. rewrite Hl, Hok, Hb, (xreadgroup_block_wait _ _ _ _ _ Hn) in Hm.
    discriminate.
  - destruct (run_worker_inv _ _ _ _ Hw) as (_ & _ & Hl' & _ & _ & Hcase).
    pose proof (run_worker_main_ok _ _ _ _ Hw) as Hok'.
    split; [congruence|]. split; [congruence|].
    destruct Hcase as [(t & _ & -> & _)|(-> & _)]; [by rewrite apply_effects_reply | done].
Qed.

(** C22. With [BLOCK_MS] 0 (also what [atol] makes of an unset-to-garbage
    or non-numeric value), a main thread that reaches [XREADGROUP] while
    the group has nothing to hand out waits there for ever: no run of
    the process's own steps (its workers finishing their tasks included)
    ever takes it back to the [while (!g_shutdown)] test, so a
    [SIGTERM] received meanwhile is never acted upon until a producer
    adds an entry ([waiting_read]: at [XREADGROUP], connection up, nothing
    to hand out). *)
Theorem block_zero_ignores_shutdown st st' :
  block_ms s = 0%Z -> waiting_read st -> rtc (prog_step s) st st' ->
  waiting_read st' /\ running (loc st') = true.
Proof.
  intros Hb Hw Hr. induction Hr as [x|x y z Hxy _ IH].
  - split; [exact Hw|]. by destruct Hw as [-> _].
  - exact (IH (waiting_read_step _ _ Hb Hw Hxy)).
Qed.
Lemma dispatched_boot connected srv0 : dispatched (boot s connected srv0) = [].
Proof.
  unfold boot, dispatched. destruct connected; [|reflexivity].
  destruct (ThreadPool.create _) as [p|] eqn:Hc; [|reflexivity].
  unfold ThreadPool.create in Hc. case_decide; [discriminate|]. by injection Hc as <-.
Qed.

(** With a negative [BLOCK] every read is refused, and nothing is ever
    dispatched. *)
Lemma negative_block_step st st' :
  (block_ms s < 0)%Z -> dispatched st = [] -> sys_step s st st' -> dispatched st' = [].
Proof.
  intros Hb Hd Hs. unfold dispatched in *. apply app_eq_nil in Hd as [Hsub Htodo].
  destruct Hs as [st st' Hm|send i st st' Hw|st0 st0' [st|fields st|d st|st sv _|st|st]];
    cbn [pool loc set_srv]; try by rewrite Hsub, Htodo.
  - unfold main_step in Hm. destruct (loc st) as [| | |[|t todo] f| | | |] eqn:Hl; try discriminate.
    + destruct (shutdown st); injection Hm as <-; cbn; by rewrite Hsub.
    + injection Hm as <-. cbn. by rewrite Hsub.
    + destruct (main_ok st); [|injection Hm as <-; cbn; by rewrite Hsub].
      rewrite xreadgroup_block_negative in Hm by exact Hb. simpl in Hm.
      injection Hm as <-. cbn. by rewrite Hsub.
    + injection Hm as <-. cbn. rewrite Hsub. by destruct f.
    + destruct (all_exited _); [|discriminate]. injection Hm as <-. cbn. by rewrite Hsub.
  - destruct (run_worker_inv _ _ _ _ Hw) as (_ & Hw' & Hl & _).
    rewrite (proj2 (proj2 (ThreadPool.worker_step_measure _ _ _ Hw'))), Hl.
    by rewrite Hsub, Htodo.
Qed.

(** C23. A negative [BLOCK_MS] is passed to [XREADGROUP] unchecked; the
    server refuses every such read ([ERR timeout is negative]), the loop
    takes the error reply for an empty one, and in every reachable state
    the process has given no task at all to the pool and has none about
    to be given ([dispatched] is empty): it runs, reads, and processes
    nothing. *)
Theorem negative_block_no_dispatch st :
  reachable s st -> (block_ms s < 0)%Z -> dispatched st = [].
Proof.
  intros (c & srv0 & _ & Hr) Hb.
  remember (boot s c srv0) as st0 eqn:E. pose proof (dispatched_boot c srv0) as H0.
  rewrite <- E in H0. clear E.
  induction Hr as [x|x y z Hxy _ IH]; [done|].
  exact (IH (negative_block_step _ _ Hb H0 Hxy)).
Qed.
(** ** Entries without a payload are dropped *)

(** Every task given to the pool, or about to be, is an entry of the
    stream with a non-empty payload, read as [find_payload] reads it. *)
Definition from_entries (st : sys) : Prop :=
  forall t, t ∈ dispatched st -> exists e, In e (entries (srv st)) /\
    t = (StreamId.render (eid e), payload_of (efields e)) /\ payload_of (efields e) <> "".

Lemma apply_effects_entries ok effs sv :
  entries (fold_left (apply_effect ok) effs sv) = entries sv.
Proof.
  revert sv. induction effs as [|ef effs IH]; intros sv; [done|]. simpl. rewrite IH.
  destruct ef; try done. destruct ok; [apply entries_xack | done].
Qed.

(** A step of the main thread adds to the dispatched tasks only those of
    the batch [XREADGROUP] hands out, and keeps the entries. *)
Lemma main_step_dispatched st st' :
  main_step s st = Some st' -> entries (srv st') = entries (srv st) /\
  forall t, t ∈ dispatched st' ->
    t ∈ dispatched st \/ t ∈ dispatchable (handed_out (stream_name s) (consumer_group s)
                                             (batch_size s) (srv st)).
Proof.
  intros Hm. split.
  { destruct (main_step_shape _ _ Hm) as (_ & [->|[->| ->]]);
      [done | apply entries_xautoclaim | apply entries_xreadgroup]. }
  revert Hm. unfold main_step, dispatched.
  destruct (loc st) as [| | |[|t0 todo] f| | | |]; try discriminate.
  - destruct (shutdown st); intros [= <-] t Ht; by left.
  - intros [= <-] t Ht. by left.
  - destruct (main_ok st); [|intros [= <-] t Ht; by left].
    destruct (xreadgroup_block _ _ _ _ _ _) as [[r sv]|] eqn:Eb; [|discriminate].
    destruct (read_block_effect _ _ _ _ _ _ _ _ Eb) as [[Hrt _]|[Hrt _]]; rewrite Hrt;
      intros [= <-] t Ht; cbn [pool loc set_loc set_srv todo_of] in Ht |- *;
      apply elem_of_app in Ht as [Ht|Ht]; try (left; by apply elem_of_app; left);
      [by apply elem_of_nil in Ht | by right].
  - intros [= <-] t Ht. left. by destruct f.
  - destruct (ThreadPool.enqueue t0 (pool st)) as [p|] eqn:Hq; intros [= <-] t Ht; left;
      cbn [pool loc set_loc todo_of] in Ht |- *.
    + unfold ThreadPool.enqueue in Hq. destruct (ThreadPool.stop _); [discriminate|].
      injection Hq as <-. cbn [ThreadPool.submitted] in Ht. by rewrite <- app_assoc in Ht.
    + rewrite app_nil_r in Ht. apply elem_of_app. by left.
  - destruct (all_exited _); [intros [= <-] t Ht; by left | discriminate].
Qed.

Lemma from_entries_step st st' : from_entries st -> sys_step s st st' -> from_entries st'.
Proof.
  intros Hf Hs.
  assert (Hkeep : forall st1, entries (srv st1) = entries (srv st) ->
                  (forall t, t ∈ dispatched st1 -> t ∈ dispatched st) -> from_entries st1).
  { intros st1 He Hd t Ht. destruct (Hf t (Hd t Ht)) as (e & Hin & Hte & Hp).
    exists e. rewrite He. auto. }
  destruct Hs as [st st' Hm|send i st st' Hw|st0 st0' [st|fields st|d st|st sv Ho|st|st]];
    try (apply Hkeep; [reflexivity | intros t Ht; exact Ht]).
  - destruct (main_step_dispatched _ _ Hm) as [He Hd]. intros t Ht.
    destruct (Hd t Ht) as [Ht'|(e & Hin & Hte & Hp)%dispatchable_inv].
    + destruct (Hf t Ht') as (e & Hin & Hte & Hp). exists e. rewrite He. auto.
    + exists e. rewrite He. split; [exact (handed_out_entries _ _ _ _ _ Hin) | auto].
  - destruct (run_worker_inv _ _ _ _ Hw) as (_ & Hw' & Hl & _ & _ & Hcase).
    destruct (ThreadPool.worker_step_measure _ _ _ Hw') as (_ & _ & Hsub).
    apply Hkeep.
    + destruct Hcase as [(t & _ & -> & _)|(-> & _)]; [apply apply_effects_entries | done].
    + unfold dispatched. by rewrite Hsub, Hl.
  - intros t Ht. destruct (Hf t Ht) as (e & Hin & Hte & Hp). exists e.
    split; [apply in_or_app; by left | auto].
  - apply Hkeep; [|intros t Ht; exact Ht].
    destruct Ho; cbn [srv set_srv]; [apply entries_xreadgroup | apply entries_xautoclaim
                                    | apply entries_xack].
Qed.

Lemma reachable_from_entries st : reachable s st -> from_entries st.
Proof.
  intros (c & srv0 & _ & Hr). remember (boot s c srv0) as st0 eqn:E.
  assert (H0 : from_entries st0).
  { intros t Ht. subst st0. rewrite dispatched_boot in Ht. by apply elem_of_nil in Ht. }
  clear E. induction Hr as [x|x y z Hxy _ IH]; [done|]. exact (IH (from_entries_step _ _ H0 Hxy)).
Qed.

(** C25. An entry whose [payload] field is missing or empty (as the C
    string [find_payload] copies, so also one that starts with a NUL
    byte) is dropped: in every reachable state no task carries its id,
    in the pool or about to be given to it, and no worker has sent an
    [XACK] for it. *)
Theorem empty_payload_dropped st e :
  reachable s st -> In e (entries (srv st)) -> payload_of (efields e) = "" ->
  (StreamId.render (eid e) ∉ map fst (dispatched st)) /\
  (StreamId.render (eid e) ∉ acks_of (trace st)).
Proof.
  intros Hr Hin Hp. pose proof (reachable_inv st Hr) as Hi.
  assert (Hd : StreamId.render (eid e) ∉ map fst (dispatched st)).
  { intros (t & Ht & Htin)%list_elem_of_In%in_map_iff. apply list_elem_of_In in Htin.
    destruct (reachable_from_entries st Hr t Htin) as (e' & Hin' & -> & Hp').
    apply StreamId.render_inj in Ht.
    rewrite (wf_entry_unique _ e' e (inv_wf _ Hi) Hin' Hin Ht) in Hp'. contradiction. }
  split; [exact Hd|]. intros Ha. apply Hd.
  rewrite <- (dispatched_split st Hi), map_app. apply elem_of_app. left.
  exact (elem_of_sublist _ _ _ Ha (inv_acks _ Hi)).
Qed.
End Inv.
End SystemSpec.

(** ** Concrete runs *)

Module ConsumerWitness.
Import Resp Store StoreSpec Config Loop ReplySpec SystemSpec.
Open Scope string_scope.

(** One thing that can happen next. *)
Inductive action :=
| AMain
| AWorker (send : Sink.request -> Sink.curl_outcome) (i : nat)
| AProduce (fields : list (string * string))
| ASignal
| AMainFail.

Section Run.
Context `{LM : Libm} `{JP : JsonParser}.
Variable s : settings.

Definition act (a : action) (st : sys) : option sys :=
  match a with
  | AMain => main_step s st
  | AWorker send i => run_worker s send i st
  | AProduce f => Some (set_srv (xadd f (srv st)) st)
  | ASignal => Some (mkSys (srv st) (pool st) (loc st) true (main_ok st) (ack_ok st) (trace st))
  | AMainFail =>
      Some (mkSys (srv st) (pool st) (loc st) (shutdown st) false (ack_ok st) (trace st))
  end.

Fixpoint run (script : list action) (st : sys) : option sys :=
  match script with
  | [] => Some st
  | a :: rest => st' ← act a st; run rest st'
  end.

Lemma act_step a st st' : act a st = Some st' -> sys_step s st st'.
Proof.
  destruct a; simpl.
  - apply SysMain.
  - apply SysWorker.
  - intros [= <-]. apply SysEnv, EnvProduce.
  - intros [= <-]. apply SysEnv, EnvSignal.
  - intros [= <-]. apply SysEnv, EnvMainFail.
Qed.

Lemma run_rtc script st st' : run script st = Some st' -> rtc (sys_step s) st st'.
Proof.
  revert st. induction script as [|a script IH]; simpl; intros st.
  - intros [= <-]. reflexivity.
  - destruct (act a st) as [st1|] eqn:Ha; [|discriminate]. simpl. intros Hr.
    exact (rtc_l _ _ _ _ (act_step _ _ _ Ha) (IH _ Hr)).
Qed.
End Run.

#[local] Instance witness_libm : Libm := pow2_libm.
#[local] Instance witness_parser : JsonParser := WorkerWitness.parser_of Scenarios.syn_scan_pkt.

(** Every variable unset, one hardware thread: one worker. *)
Definition s0 : settings := settings_of (fun _ => None) 1.
Definition srv0 : server := Store.empty "anomaly:raw" 5.
Definition st0 : sys := boot s0 true srv0.

Definition sink_down (_ : Sink.request) : Sink.curl_outcome := Sink.CurlFailed 7.
Definition sink_201 (_ : Sink.request) : Sink.curl_outcome := Sink.CurlDone 201.

(** A producer adds one message; the loop reaches [XREADGROUP]. *)
Definition to_read : list action := [AProduce [("payload", "{}")]; AMain; AMain].
(** The read, the [enqueue], back to the loop head. *)
Definition dispatch : list action := [AMain; AMain; AMain].
(** The worker takes the task and runs it. *)
Definition work (send : Sink.request -> Sink.curl_outcome) : list action :=
  [AWorker send 0; AWorker send 0].

Definition after (script : list action) : sys := from_option id st0 (run s0 script st0).

Definition st_read : sys := after to_read.
Definition st_dispatch : sys := from_option id st0 (main_step s0 st_read).
Definition st_failed : sys := after (to_read ++ dispatch ++ work sink_down).
Definition st_again : sys := after (to_read ++ dispatch ++ work sink_down ++ [AMain; AMain; AMain]).
Definition st_acked : sys := after (to_read ++ dispatch ++ work sink_201).
Definition st_broken : sys := after (to_read ++ dispatch ++ work sink_down ++ [AMainFail]).
Definition st_spin : sys :=
  after (to_read ++ dispatch ++ work sink_down ++ [AMainFail; AMain; AMain; AMain; AMain]).
Definition st_signal : sys := after (to_read ++ [ASignal]).

Lemma reachable_after script :
  run s0 script st0 <> None -> reachable s0 (after script).
Proof.
  intros Hr. exists true, srv0. split; [apply wf_empty|]. apply (run_rtc s0 script).
  change (boot s0 true srv0) with st0. unfold after. by destruct (run s0 script st0).
Qed.

Ltac reach := lazymatch goal with
  | |- reachable _ ?x => unfold x; apply reachable_after; vm_compute; discriminate
  end.

Lemma read_step_dispatches_witness :
  loc st_read = Read /\ main_ok st_read = true /\ (0 <= block_ms s0)%Z /\
  main_step s0 st_read = Some st_dispatch /\
  loc st_dispatch = Dispatch (dispatchable (handed_out (stream_name s0) (consumer_group s0)
                                              (batch_size s0) (srv st_read))) false /\
  loc st_dispatch = Dispatch [("5-0", "{}")] false.
Proof.
  assert (H1 : loc st_read = Read) by by_eval.
  assert (H2 : main_ok st_read = true) by by_eval.
  assert (Hb : (0 <= block_ms s0)%Z) by (vm_compute; discriminate).
  assert (H3 : main_step s0 st_read = Some st_dispatch) by by_eval.
  split; [exact H1 | split; [exact H2 | split; [exact Hb | split; [exact H3 | split; [|by_eval]]]]].
  exact (proj1 (read_step_dispatches s0 st_read st_dispatch H1 H2 Hb H3)).
Defined.

Lemma dispatch_once_witness :
  reachable s0 st_failed /\ NoDup (map fst (ThreadPool.submitted (pool st_failed))) /\
  map fst (ThreadPool.submitted (pool st_failed)) = ["5-0"].
Proof.
  assert (Hr : reachable s0 st_failed) by reach.
  split; [exact Hr | split; [exact (proj1 (dispatch_once s0 st_failed Hr)) | by_eval]].
Defined.

Lemma acks_once_witness :
  reachable s0 st_acked /\ NoDup (acks_of (trace st_acked)) /\ acks_of (trace st_acked) = ["5-0"].
Proof.
  assert (Hr : reachable s0 st_acked) by reach.
  split; [exact Hr | split; [exact (proj1 (acks_once s0 st_acked Hr)) | by_eval]].
Defined.

Lemma unacked_entry_never_retried_witness :
  reachable s0 st_failed /\ "5-0" ∈ map fst (ThreadPool.finished (pool st_failed)) /\
  pending_id "5-0" (srv st_failed) /\ rtc (sys_step s0) st_failed st_again /\
  pending_id "5-0" (srv st_again).
Proof.
  assert (Hr : reachable s0 st_failed) by reach.
  assert (Hf : "5-0" ∈ map fst (ThreadPool.finished (pool st_failed))).
  { apply list_elem_of_In. vm_compute. by left. }
  assert (Hp : pending_id "5-0" (srv st_failed)).
  { unfold pending_id. vm_compute. eexists _, _. split; [reflexivity|]. split; [by left|reflexivity]. }
  assert (Hrtc : rtc (sys_step s0) st_failed st_again).
  { apply (run_rtc s0 [AMain; AMain; AMain]). by_eval. }
  split; [exact Hr|]. split; [exact Hf|]. split; [exact Hp|]. split; [exact Hrtc|].
  exact (proj1 (unacked_entry_never_retried s0 "5-0" st_failed st_again Hr Hf Hp Hrtc)).
Defined.

Lemma read_failure_stops_dispatch_witness :
  reachable s0 st_broken /\ main_ok st_broken = false /\ rtc (sys_step s0) st_broken st_spin /\
  dispatched st_spin = dispatched st_broken /\ loc st_spin = Claim.
Proof.
  assert (Hr : reachable s0 st_broken) by reach.
  assert (Hok : main_ok st_broken = false) by by_eval.
  assert (Hrtc : rtc (sys_step s0) st_broken st_spin).
  { apply (run_rtc s0 [AMain; AMain; AMain; AMain]). by_eval. }
  split; [exact Hr|]. split; [exact Hok|]. split; [exact Hrtc|]. split; [|by_eval].
  exact (proj1 (read_failure_stops_dispatch s0 st_broken st_spin Hr Hok Hrtc)).
Defined.

Lemma shutdown_terminates_witness :
  shutdown st_signal = true /\ finite_runs s0 st_signal.
Proof.
  assert (Hs : shutdown st_signal = true) by by_eval.
  split; [exact Hs | exact (shutdown_terminates s0 st_signal Hs)].
Defined.

Lemma shutdown_drains_witness :
  reachable s0 st_signal /\ shutdown st_signal = true /\ running (loc st_signal) = true /\
  block_ms s0 <> 0%Z /\ exists st', rtc (prog_step s0) st_signal st' /\ loc st' = Done.
Proof.
  assert (Hr : reachable s0 st_signal) by reach.
  assert (Hs : shutdown st_signal = true) by by_eval.
  assert (Hrun : running (loc st_signal) = true) by by_eval.
  assert (Hb : block_ms s0 <> 0%Z) by (vm_compute; discriminate).
  split; [exact Hr|]. split; [exact Hs|]. split; [exact Hrun|]. split; [exact Hb|].
  exact (proj1 (shutdown_drains s0 st_signal Hr Hs Hrun Hb)).
Defined.
Definition st_produced : sys := after [AProduce [("payload", "{}")]].
Definition entry_5_0 : entry := mkEntry (5, 0)%N [("payload", "{}")].
Definition group_0 : group_state := mkGroup "analyzers" (0, 0)%N [] [] [].

Lemma new_entry_dispatched_witness :
  reachable s0 st_produced /\ loc st_produced = Check /\ shutdown st_produced = false /\
  main_ok st_produced = true /\ (0 <= block_ms s0)%Z /\
  group_of (stream_name s0) (consumer_group s0) (srv st_produced) = Some group_0 /\
  StreamId.lt (last_id group_0) (eid entry_5_0) /\ In entry_5_0 (entries (srv st_produced)) /\
  payload_of (efields entry_5_0) <> "" /\
  exists st', rtc (prog_step s0) st_produced st' /\
    (StreamId.render (eid entry_5_0), payload_of (efields entry_5_0)) ∈
      ThreadPool.submitted (pool st').
Proof.
  assert (Hr : reachable s0 st_produced) by reach.
  assert (Hl : loc st_produced = Check) by by_eval.
  assert (Hsd : shutdown st_produced = false) by by_eval.
  assert (Hok : main_ok st_produced = true) by by_eval.
  assert (Hb : (0 <= block_ms s0)%Z) by (vm_compute; discriminate).
  assert (Hg : group_of (stream_name s0) (consumer_group s0) (srv st_produced) = Some group_0)
    by by_eval.
  assert (Hlt : StreamId.lt (last_id group_0) (eid entry_5_0)) by by_eval.
  assert (Hin : In entry_5_0 (entries (srv st_produced))) by (vm_compute; by left).
  assert (Hp : payload_of (efields entry_5_0) <> "") by (vm_compute; discriminate).
  do 9 (split; [assumption|]).
  exact (new_entry_dispatched s0 st_produced entry_5_0 group_0 Hr Hl Hsd Hok Hb Hg Hlt Hin Hp).
Defined.
Lemma new_entry_acknowledged_witness :
  (forall req, sink_201 req = Sink.CurlDone 201) /\
  reachable s0 st_produced /\ loc st_produced = Check /\ shutdown st_produced = false /\
  main_ok st_produced = true /\ ack_ok st_produced = true /\ (0 <= block_ms s0)%Z /\
  group_of (stream_name s0) (consumer_group s0) (srv st_produced) = Some group_0 /\
  StreamId.lt (last_id group_0) (eid entry_5_0) /\ In entry_5_0 (entries (srv st_produced)) /\
  payload_of (efields entry_5_0) <> "" /\
  exists st', rtc (served_step s0 sink_201) st_produced st' /\
    StreamId.render (eid entry_5_0) ∈ acked s0 (srv st').
Proof.
  assert (Hup : forall req, sink_201 req = Sink.CurlDone 201) by reflexivity.
  assert (Hr : reachable s0 st_produced) by reach.
  assert (Hl : loc st_produced = Check) by by_eval.
  assert (Hsd : shutdown st_produced = false) by by_eval.
  assert (Hok : main_ok st_produced = true) by by_eval.
  assert (Hack : ack_ok st_produced = true) by by_eval.
  assert (Hb : (0 <= block_ms s0)%Z) by (vm_compute; discriminate).
  assert (Hg : group_of (stream_name s0) (consumer_group s0) (srv st_produced) = Some group_0)
    by by_eval.
  assert (Hlt : StreamId.lt (last_id group_0) (eid entry_5_0)) by by_eval.
  assert (Hin : In entry_5_0 (entries (srv st_produced))) by (vm_compute; by left).
  assert (Hp : payload_of (efields entry_5_0) <> "") by (vm_compute; discriminate).
  do 11 (split; [assumption|]).
  exact (new_entry_acknowledged s0 sink_201 st_produced entry_5_0 group_0
           Hup Hr Hl Hsd Hok Hack Hb Hg Hlt Hin Hp).
Defined.

Lemma reachable_run (s : settings) script st :
  run s script (boot s true srv0) = Some st -> reachable s st.
Proof. intros H. exists true, srv0. split; [apply wf_empty | exact (run_rtc s script _ _ H)]. Qed.

(** [BLOCK_MS=0]: the loop reaches [XREADGROUP] on an empty stream, then
    the signal arrives. *)
Definition s_block0 : settings :=
  settings_of (fun k => if String.eqb k "BLOCK_MS" then Some "0" else None) 1.
Definition st_idle : sys :=
  from_option id st0 (run s_block0 [AMain; AMain; ASignal] (boot s_block0 true srv0)).

Lemma block_zero_ignores_shutdown_witness :
  reachable s_block0 st_idle /\ shutdown st_idle = true /\
  block_ms s_block0 = 0%Z /\ loc st_idle = Read /\ main_ok st_idle = true /\
  (xreadgroup (stream_name s_block0) (consumer_group s_block0) (consumer_name s_block0)
     (batch_size s_block0) (srv st_idle)).1 = RNil /\
  forall st', rtc (prog_step s_block0) st_idle st' ->
              waiting_read s_block0 st' /\ running (loc st') = true.
Proof.
  assert (Hr : reachable s_block0 st_idle)
    by (apply (reachable_run s_block0 [AMain; AMain; ASignal]); by_eval).
  assert (Hsd : shutdown st_idle = true) by by_eval.
  assert (Hb : block_ms s_block0 = 0%Z) by by_eval.
  assert (Hl : loc st_idle = Read) by by_eval.
  assert (Hok : main_ok st_idle = true) by by_eval.
  assert (Hn : (xreadgroup (stream_name s_block0) (consumer_group s_block0)
                 (consumer_name s_block0) (batch_size s_block0) (srv st_idle)).1 = RNil)
    by by_eval.
  do 6 (split; [assumption|]).
  intros st' Hrtc.
  exact (block_zero_ignores_shutdown s_block0 st_idle st' Hb (conj Hl (conj Hok Hn)) Hrtc).
Defined.

(** [BLOCK_MS=-1]: a message is produced, the loop turns once. *)
Definition s_negative : settings :=
  settings_of (fun k => if String.eqb k "BLOCK_MS" then Some "-1" else None) 1.
Definition st_refused : sys :=
  from_option id st0 (run s_negative [AProduce [("payload", "{}")]; AMain; AMain; AMain; AMain]
                        (boot s_negative true srv0)).

Lemma negative_block_no_dispatch_witness :
  reachable s_negative st_refused /\ (block_ms s_negative < 0)%Z /\
  loc st_refused = Check /\ length (entries (srv st_refused)) = 1%nat /\
  dispatched st_refused = [].
Proof.
  assert (Hr : reachable s_negative st_refused)
    by (apply (reachable_run s_negative [AProduce [("payload", "{}")]; AMain; AMain; AMain; AMain]);
        by_eval).
  assert (Hb : (block_ms s_negative < 0)%Z) by by_eval.
  split; [exact Hr|]. split; [exact Hb|]. split; [by_eval|]. split; [by_eval|].
  exact (negative_block_no_dispatch s_negative st_refused Hr Hb).
Defined.
(** A message without a [payload] field, read by one turn of the loop. *)
Definition st_dropped : sys := after [AProduce [("data", "{}")]; AMain; AMain; AMain; AMain].
Definition entry_dropped : entry := mkEntry (5, 0)%N [("data", "{}")].

Lemma empty_payload_dropped_witness :
  reachable s0 st_dropped /\ In entry_dropped (entries (srv st_dropped)) /\
  payload_of (efields entry_dropped) = "" /\ loc st_dropped = Check /\
  option_map last_id (group_of (stream_name s0) (consumer_group s0) (srv st_dropped)) =
    Some (eid entry_dropped) /\
  (StreamId.render (eid entry_dropped) ∉ map fst (dispatched st_dropped)) /\
  (StreamId.render (eid entry_dropped) ∉ acks_of (trace st_dropped)).
Proof.
  assert (Hr : reachable s0 st_dropped) by reach.
  assert (Hin : In entry_dropped (entries (srv st_dropped))) by (vm_compute; by left).
  assert (Hp : payload_of (efields entry_dropped) = "") by reflexivity.
  split; [exact Hr|]. split; [exact Hin|]. split; [exact Hp|]. split; [by_eval|].
  split; [by_eval|]. exact (empty_payload_dropped s0 st_dropped entry_dropped Hr Hin Hp).
Defined.
End ConsumerWitness.
