(* ===== verification/AckMutex.v ===== *)
(** * The acknowledge connection and its mutex (main.cpp, process_message)

    [Consumer.v] runs a worker's task as one atomic step: the whole of
    [process_message] and its [XACK] at once.  The code is finer: the task
    parses, scores and POSTs without any lock, then enters the scope of
    [std::lock_guard<std::mutex> lock(mtx)], calls [redisCommand] on the
    shared [redis_ack] context, and leaves the scope (lines 104-111, and
    116-123 after a parse error).  This file models those steps, with the
    mutex [mtx] as a state component:

    - [phase]: where a worker is in its task ([PStart] up to the lock,
      [PLock] blocked in the lock_guard's constructor, [PAck] in
      [redisCommand], [PUnlock] at the lock_guard's destructor, [PDone]
      returned to [worker_loop]);
    - [task_step]: one step of a worker; [fine_step]: the interleaving of
      these steps with the main thread and the environment, and
      [FineRace]: while two workers are inside [redisCommand] on the
      shared context ([in_redis]), a data race that hiredis and C++ leave
      undefined, the store may be left in any state.

    A worker enters [redisCommand] in the step that acquires [mtx] (no
    shared state is touched between the lock_guard's constructor and the
    call) and leaves it in its [PAck] step, which applies the [XACK];
    the call spans two steps, so without the lock the calls of two
    workers can overlap.

    The theorems: the lock holder is exactly the worker inside the critical
    section, so at most one thread uses [redis_ack] at a time, and every
    worker step that changes the store is an [XACK] by the holder; a worker
    blocked on [mtx] always gets it; and every reachable state of this
    model is, after an abstraction, a reachable state of the atomic model
    of [Consumer.v], so every theorem of [ConsumerProps.v] holds here too.
    The abstraction counts a task as finished once its [XACK] is done (its
    linearisation point); the history lists ([finished], the effect trace)
    are updated at that point.  The refinement needs the lock: the
    mutual exclusion invariant rules out [FineRace]. *)

From Stdlib Require Import String.
From stdpp Require Import base list relations.
From S2P Require Import Prelude Json Entropy PacketParser Worker Redis ThreadPool Consumer ConsumerProps.

Module AckMutex.
Import Store Config Loop SystemSpec.

(** Where a worker is inside [process_message]. *)
Inductive phase :=
| PStart                                            (* parse, score, POST *)
| PLock (send : Sink.request -> Sink.curl_outcome)  (* waiting in lock_guard's constructor *)
| PAck (send : Sink.request -> Sink.curl_outcome)   (* redisCommand(redis_ctx, "XACK ...") *)
| PUnlock                                           (* lock_guard's destructor *)
| PDone.                                            (* process_message has returned *)

(** The process with [static std::mutex mtx] and each worker's phase. *)
Record fsys := mkF {
  base : sys;
  phases : nat -> phase;
  mtx : option nat        (* the worker holding [mtx] *)
}.

(** The worker is inside [redisCommand] on [redis_ack]: the call has
    written its command to the context's output buffer and not yet
    parsed the reply out of its input buffer. *)
Definition in_redis (ph : phase) : bool := match ph with PAck _ => true | _ => false end.

Definition set_phase (i : nat) (ph : phase) (phs : nat -> phase) : nat -> phase :=
  fun j => if Nat.eqb j i then ph else phs j.

Definition with_pool (p : ThreadPool.pool task) (b : sys) : sys :=
  mkSys (srv b) p (loc b) (shutdown b) (main_ok b) (ack_ok b) (trace b).

(** The effects of task [t] take place: its [XACK] on [redis_ack] reaches
    the store, and the histories record the task as finished. *)
Definition commit (t : task) (effs : list Worker.effect) (b : sys) : sys :=
  let p := pool b in
  mkSys (fold_left (apply_effect (ack_ok b)) effs (srv b))
        (ThreadPool.mkPool (ThreadPool.queue p) (ThreadPool.stop p) (ThreadPool.workers p)
           (ThreadPool.submitted p) (ThreadPool.started p) (ThreadPool.finished p ++ [t]))
        (loc b) (shutdown b) (main_ok b) (ack_ok b) (trace b ++ effs).

Section Fine.
Context `{LM : Libm} `{JP : JsonParser}.
Variable s : settings.

Definition task_effects (send : Sink.request -> Sink.curl_outcome) (t : task) : list Worker.effect :=
  (Worker.process_message send (worker_config s) t.1 t.2).1.

(** One step of worker [i]; a waiting worker takes the next task (or
    returns) as in [ThreadPool.worker_step]. *)
Definition task_step (send : Sink.request -> Sink.curl_outcome) (i : nat) (f : fsys) :
    option fsys :=
  let b := base f in
  if running (loc b) then
    match ThreadPool.workers (pool b) !! i with
    | Some ThreadPool.Waiting =>
        p ← ThreadPool.worker_step i (pool b); Some (mkF (with_pool p b) (phases f) (mtx f))
    | Some (ThreadPool.Running t) =>
        match phases f i with
        | PStart =>
            if existsb WorkerSpec.is_ack (task_effects send t)
            then Some (mkF b (set_phase i (PLock send) (phases f)) (mtx f))
            else Some (mkF (commit t (task_effects send t) b) (set_phase i PDone (phases f)) (mtx f))
        | PLock send' =>
            match mtx f with
            | None => Some (mkF b (set_phase i (PAck send') (phases f)) (Some i))
            | Some _ => None
            end
        | PAck send' =>
            Some (mkF (commit t (task_effects send' t) b) (set_phase i PUnlock (phases f)) (mtx f))
        | PUnlock => Some (mkF b (set_phase i PDone (phases f)) None)
        | PDone =>
            let p := pool b in
            Some (mkF (with_pool (ThreadPool.mkPool (ThreadPool.queue p) (ThreadPool.stop p)
                                    (<[i := ThreadPool.Waiting]> (ThreadPool.workers p))
                                    (ThreadPool.submitted p) (ThreadPool.started p)
                                    (ThreadPool.finished p)) b)
                      (set_phase i PStart (phases f)) (mtx f))
        end
    | _ => None
    end
  else None.

Inductive fine_step : fsys -> fsys -> Prop :=
| FineMain f b' : main_step s (base f) = Some b' -> fine_step f (mkF b' (phases f) (mtx f))
| FineWorker send i f f' : task_step send i f = Some f' -> fine_step f f'
| FineEnv f b' : env_step s (base f) b' -> fine_step f (mkF b' (phases f) (mtx f))
(** hiredis's [redisContext] is not thread-safe: two threads inside
    [redisCommand] on [redis_ack] at once write and read its buffers
    concurrently, a data race, which C++ leaves undefined.  While that
    overlap lasts the store may be left in any state. *)
| FineRace f i j sv :
    i <> j -> in_redis (phases f i) = true -> in_redis (phases f j) = true ->
    fine_step f (mkF (set_srv sv (base f)) (phases f) (mtx f)).

Definition fboot (connected : bool) (srv0 : server) : fsys :=
  mkF (boot s connected srv0) (fun _ => PStart) None.

Definition freachable (f : fsys) : Prop :=
  exists connected srv0, StoreSpec.wf srv0 /\ rtc fine_step (fboot connected srv0) f.

(** Steps of the workers alone. *)
Definition worker_rel (f f' : fsys) : Prop := exists send i, task_step send i f = Some f'.
End Fine.

(** ** The abstraction to the atomic model *)

(** After its [XACK] (or its effects, when it sends none) a worker is
    done with its task as far as the rest of the process can tell. *)
Definition post (ph : phase) : bool := match ph with PUnlock | PDone => true | _ => false end.

(** Inside the lock_guard's scope. *)
Definition in_cs (ph : phase) : bool := match ph with PAck _ | PUnlock => true | _ => false end.

Definition abs_worker (ph : phase) (w : ThreadPool.wstate task) : ThreadPool.wstate task :=
  if post ph then match w with ThreadPool.Running _ => ThreadPool.Waiting | _ => w end else w.

Definition abs_workers (phs : nat -> phase) (ws : list (ThreadPool.wstate task)) :=
  imap (fun j w => abs_worker (phs j) w) ws.

Definition abs_pool (phs : nat -> phase) (p : ThreadPool.pool task) : ThreadPool.pool task :=
  ThreadPool.mkPool (ThreadPool.queue p) (ThreadPool.stop p) (abs_workers phs (ThreadPool.workers p))
    (ThreadPool.submitted p) (ThreadPool.started p) (ThreadPool.finished p).

Definition abs (f : fsys) : sys := with_pool (abs_pool (phases f) (pool (base f))) (base f).

(** The invariant of the fine model: only a running worker is inside its
    task, and [mtx] is held exactly by the worker inside the lock_guard's
    scope. *)
Record finv (f : fsys) : Prop := {
  finv_running : forall i, phases f i <> PStart ->
                 exists t, ThreadPool.workers (pool (base f)) !! i = Some (ThreadPool.Running t);
  finv_mtx : forall i, in_cs (phases f i) = true <-> mtx f = Some i
}.
(** ** Lemmas on phases and the abstraction *)

Lemma set_phase_eq i ph phs : set_phase i ph phs i = ph.
Proof. unfold set_phase. by rewrite Nat.eqb_refl. Qed.

Lemma set_phase_ne i j ph phs : j <> i -> set_phase i ph phs j = phs j.
Proof. intros H. unfold set_phase. by apply Nat.eqb_neq in H as ->. Qed.

Lemma abs_workers_lookup phs ws i : abs_workers phs ws !! i = abs_worker (phs i) <$> ws !! i.
Proof. unfold abs_workers. by rewrite list_lookup_imap. Qed.

Lemma abs_workers_ext phs phs' ws :
  (forall j, post (phs j) = post (phs' j)) -> abs_workers phs ws = abs_workers phs' ws.
Proof. intros H. apply imap_ext. intros j w _. unfold abs_worker. by rewrite H. Qed.

Lemma abs_workers_id phs ws : (forall j, post (phs j) = false) -> abs_workers phs ws = ws.
Proof.
  intros H. apply list_eq. intros j. rewrite abs_workers_lookup.
  destruct (ws !! j); simpl; [|done]. unfold abs_worker. by rewrite H.
Qed.

(** Changing the state and the phase of worker [i] only. *)
Lemma abs_workers_insert phs i ph ws w :
  abs_workers (set_phase i ph phs) (<[i := w]> ws) = <[i := abs_worker ph w]> (abs_workers phs ws).
Proof.
  apply list_eq. intros j. rewrite abs_workers_lookup, !list_lookup_insert.
  unfold abs_workers. rewrite length_imap.
  destruct (decide (i = j /\ (i < length ws)%nat)) as [[<- _]|Hn]; [by rewrite set_phase_eq|].
  rewrite list_lookup_imap. destruct (decide (i = j)) as [<-|Hne]; [|by rewrite set_phase_ne].
  rewrite lookup_ge_None_2; [done|]. lia.
Qed.

Lemma abs_workers_insert_same phs i ws w :
  abs_workers phs (<[i := w]> ws) = <[i := abs_worker (phs i) w]> (abs_workers phs ws).
Proof.
  rewrite <- abs_workers_insert. apply abs_workers_ext. intros j.
  destruct (decide (j = i)) as [->|Hne]; [by rewrite set_phase_eq | by rewrite set_phase_ne].
Qed.

(** The linearisation point of worker [i]'s task. *)
Lemma abs_workers_finish phs i ph ws t :
  ws !! i = Some (ThreadPool.Running t) -> post ph = true ->
  abs_workers (set_phase i ph phs) ws = <[i := ThreadPool.Waiting]> (abs_workers phs ws).
Proof.
  intros Hi Hp. rewrite <- (list_insert_id ws i _ Hi) at 1.
  rewrite abs_workers_insert. unfold abs_worker. by rewrite Hp.
Qed.

(** Worker [i] goes back to waiting after its linearisation point. *)
Lemma abs_workers_return phs i ws t :
  ws !! i = Some (ThreadPool.Running t) -> post (phs i) = true ->
  abs_workers (set_phase i PStart phs) (<[i := ThreadPool.Waiting]> ws) = abs_workers phs ws.
Proof.
  intros Hi Hp. rewrite abs_workers_insert. apply list_insert_id.
  rewrite abs_workers_lookup, Hi. simpl. unfold abs_worker. by rewrite Hp.
Qed.

Lemma all_exited_abs phs ws : all_exited (abs_workers phs ws) = all_exited ws.
Proof.
  unfold all_exited, abs_workers. revert phs. induction ws as [|w ws IH]; intros phs; [done|].
  simpl. rewrite <- (IH (fun j => phs (S j))). f_equal.
  unfold abs_worker. destruct (post (phs 0%nat)), w; reflexivity.
Qed.
Section Props.
Context `{LM : Libm} `{JP : JsonParser}.
Variable s : settings.

(** The seven steps of a worker. *)
Lemma task_step_inv send i f f' :
  task_step s send i f = Some f' ->
  running (loc (base f)) = true /\
  ((ThreadPool.workers (pool (base f)) !! i = Some ThreadPool.Waiting /\
    exists p, ThreadPool.worker_step i (pool (base f)) = Some p /\
              f' = mkF (with_pool p (base f)) (phases f) (mtx f)) \/
   exists t, ThreadPool.workers (pool (base f)) !! i = Some (ThreadPool.Running t) /\
   ((phases f i = PStart /\ existsb WorkerSpec.is_ack (task_effects s send t) = true /\
     f' = mkF (base f) (set_phase i (PLock send) (phases f)) (mtx f)) \/
    (phases f i = PStart /\ existsb WorkerSpec.is_ack (task_effects s send t) = false /\
     f' = mkF (commit t (task_effects s send t) (base f)) (set_phase i PDone (phases f)) (mtx f)) \/
    (exists send', phases f i = PLock send' /\ mtx f = None /\
     f' = mkF (base f) (set_phase i (PAck send') (phases f)) (Some i)) \/
    (exists send', phases f i = PAck send' /\
     f' = mkF (commit t (task_effects s send' t) (base f)) (set_phase i PUnlock (phases f)) (mtx f)) \/
    (phases f i = PUnlock /\ f' = mkF (base f) (set_phase i PDone (phases f)) None) \/
    (phases f i = PDone /\
     f' = mkF (with_pool (ThreadPool.mkPool (ThreadPool.queue (pool (base f)))
                            (ThreadPool.stop (pool (base f)))
                            (<[i := ThreadPool.Waiting]> (ThreadPool.workers (pool (base f))))
                            (ThreadPool.submitted (pool (base f))) (ThreadPool.started (pool (base f)))
                            (ThreadPool.finished (pool (base f)))) (base f))
              (set_phase i PStart (phases f)) (mtx f)))).
Proof.
  unfold task_step. intros Hs. destruct (running (loc (base f))) eqn:Hr; [|discriminate].
  split; [done|]. revert Hs.
  destruct (ThreadPool.workers (pool (base f)) !! i) as [[|t|]|] eqn:Hi; try discriminate.
  - destruct (ThreadPool.worker_step i (pool (base f))) as [p|] eqn:Hw; [|discriminate].
    intros [= <-]. left. eauto.
  - right. exists t. split; [done|].
    destruct (phases f i) as [|send'|send'| |] eqn:Hph.
    + destruct (existsb _ _) eqn:Ha; injection Hs as <-; [left|right; left]; auto.
    + destruct (mtx f) eqn:Hm; [discriminate|]. injection Hs as <-. do 2 right. left. eauto.
    + injection Hs as <-. do 3 right. left. eauto.
    + injection Hs as <-. do 4 right. left. auto.
    + injection Hs as <-. do 5 right. auto.
Qed.

(** A step of the main thread never touches the workers' states, so it
    commutes with the abstraction. *)
Lemma main_step_abs phs b b' :
  main_step s b = Some b' ->
  main_step s (with_pool (abs_pool phs (pool b)) b) = Some (with_pool (abs_pool phs (pool b')) b').
Proof.
  unfold main_step. cbn [loc with_pool shutdown main_ok srv pool].
  destruct (loc b) as [| | |[|t todo] f| | | |]; try discriminate.
  - destruct (shutdown b); intros [= <-]; reflexivity.
  - intros [= <-]; reflexivity.
  - destruct (main_ok b); [|intros [= <-]; reflexivity].
    destruct (xreadgroup_block _ _ _ _ _ _) as [[r sv]|]; [|discriminate].
    destruct (read_tasks r). intros [= <-]; reflexivity.
  - intros [= <-]; reflexivity.
  - unfold ThreadPool.enqueue. cbn [abs_pool ThreadPool.stop].
    destruct (ThreadPool.stop (pool b)); intros [= <-]; reflexivity.
  - cbn [abs_pool ThreadPool.workers]. rewrite all_exited_abs.
    destruct (all_exited _); [intros [= <-]; reflexivity | discriminate].
Qed.

Lemma env_step_abs phs b b' :
  env_step s b b' -> pool b' = pool b /\
  env_step s (with_pool (abs_pool phs (pool b)) b) (with_pool (abs_pool phs (pool b')) b').
Proof.
  destruct 1; split; try reflexivity.
  - exact (EnvSignal s (with_pool _ st)).
  - exact (EnvProduce s fields (with_pool _ st)).
  - exact (EnvTick s d (with_pool _ st)).
  - exact (EnvOther s (with_pool _ st) sv H).
  - exact (EnvMainFail s (with_pool _ st)).
  - exact (EnvAckFail s (with_pool _ st)).
Qed.
(** A step of the main thread leaves the workers' states alone. *)
Lemma main_step_workers b b' :
  main_step s b = Some b' -> ThreadPool.workers (pool b') = ThreadPool.workers (pool b).
Proof.
  unfold main_step. destruct (loc b) as [| | |[|t todo] f| | | |]; try discriminate.
  - destruct (shutdown b); intros [= <-]; reflexivity.
  - intros [= <-]; reflexivity.
  - destruct (main_ok b); [|intros [= <-]; reflexivity].
    destruct (xreadgroup_block _ _ _ _ _ _) as [[r sv]|]; [|discriminate].
    destruct (read_tasks r). intros [= <-]; reflexivity.
  - intros [= <-]; reflexivity.
  - unfold ThreadPool.enqueue. destruct (ThreadPool.stop (pool b)); intros [= <-]; reflexivity.
  - destruct (all_exited _); [intros [= <-]; reflexivity | discriminate].
Qed.

Lemma worker_step_other i j (p p' : ThreadPool.pool task) :
  ThreadPool.worker_step i p = Some p' -> j <> i ->
  ThreadPool.workers p' !! j = ThreadPool.workers p !! j.
Proof.
  intros Hw Hne. unfold ThreadPool.worker_step in Hw.
  destruct (ThreadPool.workers p !! i) as [[|t|]|]; try discriminate.
  - destruct (ThreadPool.queue p); [destruct (ThreadPool.stop p); [|discriminate]|];
      injection Hw as <-; by apply list_lookup_insert_ne.
  - injection Hw as <-. by apply list_lookup_insert_ne.
Qed.

(** A waiting worker is not inside a task. *)
Lemma waiting_start f i :
  finv f -> ThreadPool.workers (pool (base f)) !! i = Some ThreadPool.Waiting -> phases f i = PStart.
Proof.
  intros [Hrun _] Hi. destruct (phases f i) eqn:E; [done| | | |];
    destruct (Hrun i ltac:(by rewrite E)) as [t Ht]; congruence.
Qed.

(** How the invariant survives a change of worker [i]'s phase. *)
Lemma finv_set f b' i ph m :
  finv f ->
  (forall j, j <> i -> ThreadPool.workers (pool b') !! j = ThreadPool.workers (pool (base f)) !! j) ->
  (ph <> PStart -> exists t, ThreadPool.workers (pool b') !! i = Some (ThreadPool.Running t)) ->
  (in_cs ph = true <-> m = Some i) ->
  (forall j, j <> i -> in_cs (phases f j) = true <-> m = Some j) ->
  finv (mkF b' (set_phase i ph (phases f)) m).
Proof.
  intros [Hrun _] Hws Hi Hm Hother. split; cbn [phases base mtx]; intros j;
    (destruct (decide (j = i)) as [->|Hne]; [rewrite set_phase_eq | rewrite set_phase_ne by done]).
  - exact Hi.
  - intros Hp. rewrite Hws by done. exact (Hrun j Hp).
  - exact Hm.
  - exact (Hother j Hne).
Qed.

Lemma in_redis_in_cs ph : in_redis ph = true -> in_cs ph = true.
Proof. by destruct ph. Qed.

(** Under the invariant no two workers are inside [redisCommand]. *)
Lemma finv_no_race f i j :
  finv f -> in_redis (phases f i) = true -> in_redis (phases f j) = true -> i = j.
Proof.
  intros [_ Hmtx] Hi%in_redis_in_cs Hj%in_redis_in_cs. apply Hmtx in Hi, Hj. congruence.
Qed.

Lemma finv_step f f' : finv f -> fine_step s f f' -> finv f'.
Proof.
  intros Hf Hs. pose proof Hf as [Hrun Hmtx].
  destruct Hs as [f b' Hm|send i f f' Hw|f b' He|f i j sv Hne Hi Hj].
  - split; cbn [phases base mtx]; [|exact Hmtx]. intros j Hp. rewrite (main_step_workers _ _ Hm).
    exact (Hrun j Hp).
  - destruct (task_step_inv _ _ _ _ Hw) as (_ & [(Hi & p & Hp & ->)|(t & Hi & Hcase)]).
    + pose proof (waiting_start _ _ Hf Hi) as H0.
      split; cbn [phases base mtx with_pool pool]; [|exact Hmtx].
      intros j Hj. destruct (decide (j = i)) as [->|Hne]; [done|].
      rewrite (worker_step_other _ _ _ _ Hp Hne). exact (Hrun j Hj).
    + assert (Hmi : forall ph, in_cs ph = false -> in_cs (phases f i) = false ->
                    in_cs ph = true <-> mtx f = Some i).
      { intros ph H1 H2. rewrite H1, <- H2. apply Hmtx. }
      assert (Hkeep : in_cs (phases f i) = false -> forall j, j <> i ->
                      in_cs (phases f j) = true <-> mtx f = Some j) by (intros _ j _; apply Hmtx).
      destruct Hcase as [(Hp & _ & ->)|[(Hp & _ & ->)|[(sd & Hp & Hn & ->)|[(sd & Hp & ->)|
        [(Hp & ->)|(Hp & ->)]]]]]; apply finv_set; try exact Hf;
        try (intros j _; reflexivity); try (intros _; exists t; exact Hi).
      * apply Hmi; [done | by rewrite Hp].
      * apply Hkeep. by rewrite Hp.
      * apply Hmi; [done | by rewrite Hp].
      * apply Hkeep. by rewrite Hp.
      * done.
      * intros j Hj. rewrite Hmtx, Hn. split; [discriminate | intros [= ->]; done].
      * rewrite <- (Hmtx i), Hp. done.
      * intros j Hj. apply Hmtx.
      * done.
      * assert (Hh : mtx f = Some i) by (apply Hmtx; by rewrite Hp).
        intros j Hj. rewrite Hmtx, Hh. split; [intros [= ->]; done | discriminate].
      * cbn [with_pool pool ThreadPool.workers]. intros j Hj. by apply list_lookup_insert_ne.
      * by intros [].
      * apply Hmi; [done | by rewrite Hp].
      * apply Hkeep. by rewrite Hp.
  - pose proof (proj1 (env_step_abs (phases f) _ _ He)) as Hp.
    split; cbn [phases base mtx]; [rewrite Hp; exact Hrun | exact Hmtx].
  - split; cbn [phases base mtx set_srv pool]; [exact Hrun | exact Hmtx].
Qed.
(** ** The simulation *)

Lemma abs_worker_Waiting ph : abs_worker ph ThreadPool.Waiting = ThreadPool.Waiting.
Proof. unfold abs_worker. by destruct (post ph). Qed.

Lemma abs_set_phase f i ph m :
  post ph = post (phases f i) -> mtx f = m \/ True ->
  abs (mkF (base f) (set_phase i ph (phases f)) m) = abs f.
Proof.
  intros Hp _. unfold abs. cbn [base phases]. f_equal. unfold abs_pool. f_equal.
  apply abs_workers_ext. intros j.
  destruct (decide (j = i)) as [->|Hne]; [by rewrite set_phase_eq | by rewrite set_phase_ne].
Qed.

Lemma worker_step_abs_waiting phs i p p' :
  ThreadPool.workers p !! i = Some ThreadPool.Waiting -> post (phs i) = false ->
  ThreadPool.worker_step i p = Some p' ->
  ThreadPool.worker_step i (abs_pool phs p) = Some (abs_pool phs p').
Proof.
  intros Hi Hp Hw. unfold ThreadPool.worker_step in Hw |- *. cbn [abs_pool ThreadPool.workers
    ThreadPool.queue ThreadPool.stop ThreadPool.submitted ThreadPool.started ThreadPool.finished].
  rewrite abs_workers_lookup, Hi. cbn [fmap option_fmap option_map]. rewrite abs_worker_Waiting.
  rewrite Hi in Hw. destruct (ThreadPool.queue p); [destruct (ThreadPool.stop p); [|discriminate]|];
    injection Hw as <-; unfold abs_pool;
    cbn [ThreadPool.queue ThreadPool.stop ThreadPool.workers ThreadPool.submitted ThreadPool.started
         ThreadPool.finished]; rewrite abs_workers_insert_same; unfold abs_worker at 1;
    by rewrite Hp.
Qed.

(** The linearisation point: the worker's step is the atomic model's
    whole task. *)
Lemma run_worker_commit send i f t ph m :
  running (loc (base f)) = true ->
  ThreadPool.workers (pool (base f)) !! i = Some (ThreadPool.Running t) ->
  post (phases f i) = false -> post ph = true ->
  run_worker s send i (abs f) =
    Some (abs (mkF (commit t (task_effects s send t) (base f)) (set_phase i ph (phases f)) m)).
Proof.
  intros Hr Hi Hp Hph.
  assert (Hl : abs_workers (phases f) (ThreadPool.workers (pool (base f))) !! i =
               Some (ThreadPool.Running t)).
  { rewrite abs_workers_lookup, Hi. simpl. unfold abs_worker. by rewrite Hp. }
  unfold run_worker, abs. cbn [loc with_pool pool base phases]. rewrite Hr.
  unfold ThreadPool.worker_step. cbn [abs_pool ThreadPool.workers ThreadPool.queue
    ThreadPool.stop ThreadPool.submitted ThreadPool.started ThreadPool.finished].
  unfold task in Hl |- *. rewrite Hl. cbn [mbind option_bind].
  unfold commit, with_pool, abs_pool. cbn [srv pool loc shutdown main_ok ack_ok trace
    ThreadPool.queue ThreadPool.stop ThreadPool.workers ThreadPool.submitted ThreadPool.started
    ThreadPool.finished base phases].
  rewrite (abs_workers_finish _ _ _ _ t Hi Hph). reflexivity.
Qed.

Lemma fine_abs_step f f' : finv f -> fine_step s f f' -> abs f' = abs f \/ sys_step s (abs f) (abs f').
Proof.
  intros Hf Hs. destruct Hs as [f b' Hm|send i f f' Hw|f b' He|f i j sv Hne Hi Hj].
  - right. apply SysMain. exact (main_step_abs _ _ _ Hm).
  - destruct (task_step_inv _ _ _ _ Hw) as (Hr & [(Hi & p & Hp & ->)|(t & Hi & Hcase)]).
    + right. apply (SysWorker s send i). pose proof (waiting_start _ _ Hf Hi) as H0.
      unfold run_worker, abs. cbn [loc with_pool pool base phases]. rewrite Hr.
      rewrite (worker_step_abs_waiting _ _ _ _ Hi ltac:(by rewrite H0) Hp). simpl.
      rewrite abs_workers_lookup, Hi. cbn [fmap option_fmap option_map].
      rewrite abs_worker_Waiting. reflexivity.
    + destruct Hcase as [(Hp & _ & ->)|[(Hp & _ & ->)|[(sd & Hp & _ & ->)|[(sd & Hp & ->)|
        [(Hp & ->)|(Hp & ->)]]]]].
      * left. apply abs_set_phase; [by rewrite Hp | by right].
      * right. apply (SysWorker s send i). apply run_worker_commit; [done | done | by rewrite Hp | done].
      * left. apply abs_set_phase; [by rewrite Hp | by right].
      * right. apply (SysWorker s sd i). apply run_worker_commit; [done | done | by rewrite Hp | done].
      * left. apply abs_set_phase; [by rewrite Hp | by right].
      * left. unfold abs, abs_pool, with_pool.
        cbn [base phases pool srv loc shutdown main_ok ack_ok trace ThreadPool.queue ThreadPool.stop
          ThreadPool.workers ThreadPool.submitted ThreadPool.started ThreadPool.finished].
        rewrite (abs_workers_return _ _ _ t Hi) by (by rewrite Hp). reflexivity.
  - right. apply SysEnv. exact (proj2 (env_step_abs _ _ _ He)).
  - destruct Hne. exact (finv_no_race _ _ _ Hf Hi Hj).
Qed.
(** ** The fine model at startup and along its runs *)

Lemma finv_boot c srv0 : finv (fboot s c srv0).
Proof. split; cbn [phases mtx]; [by intros i [] | intros i; split; discriminate]. Qed.

Lemma abs_boot c srv0 : abs (fboot s c srv0) = boot s c srv0.
Proof.
  unfold abs, abs_pool, with_pool, fboot. cbn [base phases]. rewrite abs_workers_id by done.
  destruct (boot s c srv0) as [sv [q st ws sub sta fin] l sd mo ao tr]. reflexivity.
Qed.

Lemma freachable_finv f : freachable s f -> finv f.
Proof.
  intros (c & srv0 & _ & Hr). remember (fboot s c srv0) as f0 eqn:E.
  assert (H0 : finv f0) by (subst; apply finv_boot). clear E.
  induction Hr as [x|x y z Hxy _ IH]; [done|]. exact (IH (finv_step _ _ H0 Hxy)).
Qed.

(** The simulation diagram, with stuttering for the steps that do not
    reach the linearisation point. *)
Lemma fine_sim f f' a :
  fine_step s f f' -> a = abs f /\ finv f -> exists a', rtc (sys_step s) a a' /\ a' = abs f' /\ finv f'.
Proof.
  intros Hs [-> Hi]. exists (abs f'). split; [|split; [done | exact (finv_step _ _ Hi Hs)]].
  destruct (fine_abs_step _ _ Hi Hs) as [->|H]; [done | by apply rtc_once].
Qed.

(** C17. Refinement of the atomic model: every state the process reaches
    with [process_message] running in its real steps (lock, [redisCommand]
    under [mtx] and the reading of its reply, unlock, return, interleaved
    with everything else, including the undefined behaviour of two threads
    inside [redisCommand] on [redis_ack] at once) is, once each task past
    its [XACK] is counted as finished, a state the atomic model of
    [Consumer.v] reaches.  The atomic model runs each [XACK] as one
    step; this theorem shows that the lock_guard justifies it: without the
    lock two workers can be inside the call together and the store can
    end anywhere.  So every property proved of the atomic model
    ([dispatch_once], [acks_once], ...) holds of the finer one. *)
Theorem fine_refines f : freachable s f -> reachable s (abs f).
Proof.
  intros (c & srv0 & Hw & Hr). exists c, srv0. split; [exact Hw|]. rewrite <- abs_boot.
  destruct (simulation_rtc (fine_step s) (sys_step s) (fun f a => a = abs f /\ finv f)
              fine_sim _ _ _ Hr (conj eq_refl (finv_boot c srv0))) as (a & Ha & -> & _).
  exact Ha.
Qed.
(** ** Mutual exclusion on the acknowledge connection *)

Lemma existsb_false_Forall {A} (p : A -> bool) l :
  existsb p l = false -> Forall (fun x => p x = false) l.
Proof. induction l as [|x l IH]; simpl; [done|]. intros [Hx Hl]%orb_false_iff. auto. Qed.

(** C18. Mutual exclusion: in every reachable state at most one worker is
    inside the scope of [std::lock_guard<std::mutex> lock(mtx)], and every
    step of a worker that changes the store is the [redisCommand] of the
    worker that holds [mtx]: the [redisContext] [redis_ack], which hiredis
    does not let two threads use at once, is used by one thread at a
    time. *)
Theorem ack_mutual_exclusion f :
  freachable s f ->
  (forall i j, in_cs (phases f i) = true -> in_cs (phases f j) = true -> i = j) /\
  (forall send i f', task_step s send i f = Some f' -> srv (base f') <> srv (base f) ->
     mtx f = Some i /\ exists send', phases f i = PAck send').
Proof.
  intros Hr. pose proof (freachable_finv _ Hr) as [_ Hmtx]. split.
  - intros i j Hi Hj. apply Hmtx in Hi, Hj. congruence.
  - intros send i f' Hw Hne.
    destruct (task_step_inv _ _ _ _ Hw) as (_ & [(_ & p & _ & ->)|(t & _ & Hcase)]);
      [by destruct Hne|].
    destruct Hcase as [(Hp & _ & ->)|[(Hp & Ha & ->)|[(sd & Hp & _ & ->)|[(sd & Hp & ->)|
      [(Hp & ->)|(Hp & ->)]]]]]; try by destruct Hne.
    + exfalso. apply Hne. cbn [commit base srv].
      exact (apply_effects_no_ack _ _ _ (existsb_false_Forall _ _ Ha)).
    + split; [apply Hmtx; by rewrite Hp | eauto].
Qed.

(** ** No deadlock on [mtx] *)

Lemma task_step_acquire send0 i f t send :
  running (loc (base f)) = true ->
  ThreadPool.workers (pool (base f)) !! i = Some (ThreadPool.Running t) ->
  phases f i = PLock send -> mtx f = None ->
  task_step s send0 i f = Some (mkF (base f) (set_phase i (PAck send) (phases f)) (Some i)).
Proof. intros Hr Hi Hp Hm. unfold task_step. cbv zeta. by rewrite Hr, Hi, Hp, Hm. Qed.

Lemma task_step_release send0 j f t :
  running (loc (base f)) = true ->
  ThreadPool.workers (pool (base f)) !! j = Some (ThreadPool.Running t) -> phases f j = PUnlock ->
  task_step s send0 j f = Some (mkF (base f) (set_phase j PDone (phases f)) None).
Proof. intros Hr Hi Hp. unfold task_step. cbv zeta. by rewrite Hr, Hi, Hp. Qed.

Lemma task_step_xack send0 j f t send :
  running (loc (base f)) = true ->
  ThreadPool.workers (pool (base f)) !! j = Some (ThreadPool.Running t) -> phases f j = PAck send ->
  task_step s send0 j f =
    Some (mkF (commit t (task_effects s send t) (base f)) (set_phase j PUnlock (phases f)) (mtx f)).
Proof. intros Hr Hi Hp. unfold task_step. cbv zeta. by rewrite Hr, Hi, Hp. Qed.

(** C19. No deadlock on [mtx]: while the process runs, a worker blocked
    in the lock_guard's constructor gets the mutex after steps of the
    workers alone: the holder finishes its [XACK] and its lock_guard's
    destructor releases the mutex, whatever the others do. *)
Theorem ack_lock_acquired f i send :
  freachable s f -> running (loc (base f)) = true -> phases f i = PLock send ->
  exists f', rtc (worker_rel s) f f' /\ phases f' i = PAck send /\ mtx f' = Some i.
Proof.
  intros Hr Hrun Hp. pose proof (freachable_finv _ Hr) as [Hw Hmtx].
  destruct (Hw i ltac:(by rewrite Hp)) as [t Ht].
  assert (Hacq : forall g, running (loc (base g)) = true ->
    ThreadPool.workers (pool (base g)) !! i = Some (ThreadPool.Running t) ->
    phases g i = PLock send -> mtx g = None ->
    exists f', rtc (worker_rel s) g f' /\ phases f' i = PAck send /\ mtx f' = Some i).
  { intros g H1 H2 H3 H4. eexists. split.
    - apply rtc_once. exists send, i. exact (task_step_acquire _ _ _ _ _ H1 H2 H3 H4).
    - split; [apply set_phase_eq | reflexivity]. }
  destruct (mtx f) as [j|] eqn:Hm; [|exact (Hacq f Hrun Ht Hp Hm)].
  assert (Hj : in_cs (phases f j) = true) by (by apply Hmtx).
  assert (Hne : j <> i) by (intros ->; by rewrite Hp in Hj).
  destruct (Hw j ltac:(by intros E; rewrite E in Hj)) as [tj Htj].
  assert (Hrel : forall g, running (loc (base g)) = true ->
    ThreadPool.workers (pool (base g)) !! i = Some (ThreadPool.Running t) ->
    ThreadPool.workers (pool (base g)) !! j = Some (ThreadPool.Running tj) ->
    phases g i = PLock send -> phases g j = PUnlock ->
    exists f', rtc (worker_rel s) g f' /\ phases f' i = PAck send /\ mtx f' = Some i).
  { intros g H1 H2 H3 H4 H5.
    destruct (Hacq (mkF (base g) (set_phase j PDone (phases g)) None)) as (f' & Hr' & Hf');
      cbn [base phases mtx]; try done; [by rewrite set_phase_ne|].
    exists f'. split; [|exact Hf']. eapply rtc_l; [|exact Hr'].
    exists send, j. exact (task_step_release _ _ _ _ H1 H3 H5). }
  destruct (phases f j) as [| |sj| |] eqn:Hpj; try discriminate Hj.
  - destruct (Hrel (mkF (commit tj (task_effects s sj tj) (base f)) (set_phase j PUnlock (phases f))
                        (mtx f))) as (f' & Hr' & Hf'); cbn [base phases mtx commit pool loc
                        ThreadPool.workers];
      [done | done | done | by rewrite set_phase_ne | apply set_phase_eq |].
    exists f'. split; [|exact Hf']. eapply rtc_l; [|exact Hr'].
    exists send, j. exact (task_step_xack _ _ _ _ _ Hrun Htj Hpj).
  - exact (Hrel f Hrun Ht Htj Hp Hpj).
Qed.
End Props.
End AckMutex.

(** ** A concrete run: two workers contend for [mtx] *)

Module AckMutexWitness.
Import Store Config Loop SystemSpec AckMutex.
Local Open Scope nat_scope.
Open Scope string_scope.

(** One thing that can happen next. *)
Inductive faction :=
| FAMain
| FAWorker (send : Sink.request -> Sink.curl_outcome) (i : nat)
| FAProduce (fields : list (string * string)).

Section Run.
Context `{LM : Libm} `{JP : JsonParser}.
Variable s : settings.

Definition fact (a : faction) (f : fsys) : option fsys :=
  match a with
  | FAMain => (fun b' => mkF b' (phases f) (mtx f)) <$> main_step s (base f)
  | FAWorker send i => task_step s send i f
  | FAProduce fl => Some (mkF (set_srv (xadd fl (srv (base f))) (base f)) (phases f) (mtx f))
  end.

Fixpoint frun (script : list faction) (f : fsys) : option fsys :=
  match script with
  | [] => Some f
  | a :: rest => f' ← fact a f; frun rest f'
  end.

Lemma fact_step a f f' : fact a f = Some f' -> fine_step s f f'.
Proof.
  destruct a; simpl.
  - destruct (main_step s (base f)) as [b'|] eqn:Hm; [|discriminate].
    intros [= <-]. by apply FineMain.
  - apply FineWorker.
  - intros [= <-]. apply FineEnv, EnvProduce.
Qed.

Lemma frun_reachable script srv0 f :
  StoreSpec.wf srv0 -> frun script (fboot s true srv0) = Some f -> freachable s f.
Proof.
  intros Hw Hr. exists true, srv0. split; [exact Hw|].
  revert Hr. generalize (fboot s true srv0). induction script as [|a script IH]; simpl; intros f0.
  - intros [= ->]. reflexivity.
  - destruct (fact a f0) as [f1|] eqn:Ha; [|discriminate]. simpl. intros Hr.
    exact (rtc_l _ _ _ _ (fact_step _ _ _ Ha) (IH _ Hr)).
Qed.
End Run.

#[local] Instance witness_libm : Libm := pow2_libm.
#[local] Instance witness_parser : JsonParser := WorkerWitness.parser_of Scenarios.syn_scan_pkt.

(** Every variable unset, two hardware threads: two workers. *)
Definition s2 : settings := settings_of (fun _ => None) 2.
Definition srv0 : server := Store.empty "anomaly:raw" 5.
Definition sink_201 (_ : Sink.request) : Sink.curl_outcome := Sink.CurlDone 201.

(** Two messages are read and enqueued; each worker takes one, reaches
    the lock_guard, and worker 0 takes [mtx]. *)
Definition contend : list faction :=
  [FAProduce [("payload", "{}")]; FAProduce [("payload", "{}")];
   FAMain; FAMain; FAMain; FAMain; FAMain; FAMain;
   FAWorker sink_201 0; FAWorker sink_201 1; FAWorker sink_201 0; FAWorker sink_201 1;
   FAWorker sink_201 0].

Definition f_contend : fsys := from_option id (fboot s2 true srv0) (frun s2 contend (fboot s2 true srv0)).

Lemma f_contend_reachable : freachable s2 f_contend.
Proof.
  apply (frun_reachable s2 contend srv0); [apply StoreSpec.wf_empty|].
  unfold f_contend. destruct (frun s2 contend (fboot s2 true srv0)) eqn:E; [done|].
  vm_compute in E. discriminate.
Qed.

Lemma fine_refines_witness :
  freachable s2 f_contend /\ mtx f_contend = Some 0 /\ reachable s2 (abs f_contend).
Proof.
  split; [exact f_contend_reachable|]. split; [by_eval|].
  exact (fine_refines s2 f_contend f_contend_reachable).
Defined.

Lemma ack_mutual_exclusion_witness :
  freachable s2 f_contend /\ in_cs (phases f_contend 0) = true /\
  in_cs (phases f_contend 1) = false /\
  (forall i j, in_cs (phases f_contend i) = true -> in_cs (phases f_contend j) = true -> i = j).
Proof.
  split; [exact f_contend_reachable|]. split; [by_eval|]. split; [by_eval|].
  exact (proj1 (ack_mutual_exclusion s2 f_contend f_contend_reachable)).
Defined.

Lemma ack_lock_acquired_witness :
  freachable s2 f_contend /\ running (loc (base f_contend)) = true /\
  phases f_contend 1 = PLock sink_201 /\ mtx f_contend = Some 0 /\
  exists f', rtc (worker_rel s2) f_contend f' /\ phases f' 1 = PAck sink_201 /\ mtx f' = Some 1.
Proof.
  assert (Hrun : running (loc (base f_contend)) = true) by by_eval.
  assert (Hp : phases f_contend 1 = PLock sink_201) by by_eval.
  split; [exact f_contend_reachable|]. split; [exact Hrun|]. split; [exact Hp|]. split; [by_eval|].
  exact (ack_lock_acquired s2 f_contend 1 sink_201 f_contend_reachable Hrun Hp).
Defined.
End AckMutexWitness.
